(** * Scaffold: the import-graph engine

    A shallow embedding of the TypeScript sources of the Scaffold extension:
    - [models/graph.ts]               the [ImportGraph] class,
    - [parsers/typescriptParser.ts]   import resolution and [parseFile],
    - [analyzers/importGraphBuilder.ts] [buildGraph], [updateFile], [removeFile],
    - [watchers/fileWatcher.ts]       the debounced [FileWatcher],
    - [views/ScaffoldViewProvider.ts] the [isAnalyzing] guard of [runAnalysis].

    Conventions.  A JavaScript string is a [string] (a sequence of code
    units).  A JavaScript [Map] or [Set] keeps insertion order, so a [Map] is
    an association list and a [Set] a duplicate-free list.  A JavaScript
    object stored in the [Map] is mutated in place: the embedding rewrites the
    entry under its key, and every later read goes back to the store, which is
    what aliasing through the [Map] amounts to.  A [number] that is an array
    length is a [nat]; the importance score goes through IEEE-754 binary64
    division and multiplication and is a [spec_float].  A call of the host
    that may throw answers with an [option], [None] being the exception; a
    method of the parser that may let an exception through answers with a
    [Completion]. *)

From Stdlib Require Import List String Ascii Bool Arith ZArith Lia.
From Stdlib Require Import Permutation Sorted SpecFloat.
Import ListNotations.
Local Open Scope string_scope.
Local Open Scope list_scope.

(* ================================================================= *)
(** ** JavaScript numbers (IEEE-754 binary64) *)

Module JsNumber.

Definition prec : Z := 53.
Definition emax : Z := 1024.

Definition number := spec_float.

(** The number denoted by an integer literal or an array length. *)
Definition of_Z (z : Z) : number := binary_normalize prec emax z 0 false.
Definition of_nat (n : nat) : number := of_Z (Z.of_nat n).

Definition div (x y : number) : number := SFdiv prec emax x y.
Definition mul (x y : number) : number := SFmul prec emax x y.

(** [Math.round]: NaN, the infinities and integral values are returned
    unchanged; otherwise the result is [floor (x + 1/2)], computed exactly,
    and a zero result keeps the sign of [x]. *)
Definition Math_round (x : number) : number :=
  match x with
  | S754_finite s m e =>
      if (0 <=? e)%Z then x
      else
        let k := (- e)%Z in
        let n := if s
                 then ((2 ^ k - 2 * Z.pos m) / 2 ^ (k + 1))%Z
                 else ((2 * Z.pos m + 2 ^ k) / 2 ^ (k + 1))%Z in
        if (n =? 0)%Z then S754_zero s else of_Z n
  | _ => x
  end.

Definition is_nan (x : number) : bool :=
  match x with S754_nan => true | _ => false end.

End JsNumber.

(* ================================================================= *)
(** ** JavaScript [Map<string, V>]: an insertion-ordered store *)

Module JsMap.
Section Defs.
Variable V : Type.

Definition t := list (string * V).

Definition empty : t := [].

Fixpoint get (k : string) (m : t) : option V :=
  match m with
  | [] => None
  | (k', v) :: m' => if String.eqb k' k then Some v else get k m'
  end.

Definition has (k : string) (m : t) : bool :=
  match get k m with Some _ => true | None => false end.

(** [set] overwrites in place when the key is present, and appends
    otherwise. *)
Fixpoint set (k : string) (v : V) (m : t) : t :=
  match m with
  | [] => [(k, v)]
  | (k', v') :: m' =>
      if String.eqb k' k then (k, v) :: m' else (k', v') :: set k v m'
  end.

(** Keys are unique in a [Map], so at most one entry goes. *)
Definition delete (k : string) (m : t) : t :=
  filter (fun kv => negb (String.eqb (fst kv) k)) m.

(** In-place mutation of the object stored under [k]; nothing happens when
    the key is absent. *)
Definition modify (k : string) (f : V -> V) (m : t) : t :=
  map (fun kv => if String.eqb (fst kv) k then (fst kv, f (snd kv)) else kv) m.

Definition keys (m : t) : list string := map fst m.
Definition values (m : t) : list V := map snd m.
Definition size (m : t) : nat := List.length m.

End Defs.

Arguments empty {V}.
Arguments get {V} k m.
Arguments has {V} k m.
Arguments set {V} k v m.
Arguments delete {V} k m.
Arguments modify {V} k f m.
Arguments keys {V} m.
Arguments values {V} m.
Arguments size {V} m.
End JsMap.

(* ================================================================= *)
(** ** [models/types.ts] *)

Record FileMetrics := mkFileMetrics {
  inDegree : nat;
  outDegree : nat;
  isLeaf : bool;
  isLoadBearing : bool;
  importanceScore : JsNumber.number
}.

Record FileNode := mkFileNode {
  filePath : string;
  relativePath : string;
  imports : list string;
  importedBy : list string;
  metrics : FileMetrics
}.

Definition set_imports (n : FileNode) (l : list string) : FileNode :=
  mkFileNode (filePath n) (relativePath n) l (importedBy n) (metrics n).

Definition set_importedBy (n : FileNode) (l : list string) : FileNode :=
  mkFileNode (filePath n) (relativePath n) (imports n) l (metrics n).

Definition set_metrics (n : FileNode) (m : FileMetrics) : FileNode :=
  mkFileNode (filePath n) (relativePath n) (imports n) (importedBy n) m.

(* ================================================================= *)
(** ** String helpers used by the sources *)

(** [s.replace(/\\/g, '/')] *)
Fixpoint normalizeSeparators (s : string) : string :=
  match s with
  | EmptyString => EmptyString
  | String c s' =>
      String (if Ascii.eqb c "\"%char then "/"%char else c) (normalizeSeparators s')
  end.

(** [s.slice(n)] *)
Fixpoint slice (n : nat) (s : string) : string :=
  match n, s with
  | O, _ => s
  | S n', String _ s' => slice n' s'
  | S _, EmptyString => EmptyString
  end.

(** [s.startsWith(p)] *)
Definition startsWith (s p : string) : bool := String.prefix p s.

(** [s.endsWith(p)] *)
Definition endsWith (s p : string) : bool :=
  String.eqb (slice (String.length s - String.length p) s) p
  && Nat.leb (String.length p) (String.length s).

(** [s.includes(p)] *)
Fixpoint str_includes (s p : string) : bool :=
  String.prefix p s ||
  match s with
  | EmptyString => false
  | String _ s' => str_includes s' p
  end.

(** [arr.includes(x)] on an array of strings. *)
Definition includes (x : string) (l : list string) : bool :=
  existsb (String.eqb x) l.

(** [arr.filter(p => p !== x)] *)
Definition without (x : string) (l : list string) : list string :=
  filter (fun p => negb (String.eqb p x)) l.

(* ================================================================= *)
(** ** [models/graph.ts]: class [ImportGraph] *)

Record ImportGraph := mkImportGraph {
  nodes : JsMap.t FileNode;
  workspaceRoot : string
}.

Definition new_ImportGraph (root : string) : ImportGraph :=
  mkImportGraph JsMap.empty root.

Definition with_nodes (g : ImportGraph) (m : JsMap.t FileNode) : ImportGraph :=
  mkImportGraph m (workspaceRoot g).

Definition getRelativePath (g : ImportGraph) (path : string) : string :=
  let normalized := normalizeSeparators path in
  let rootNormalized := normalizeSeparators (workspaceRoot g) in
  if startsWith normalized rootNormalized
  then slice (String.length rootNormalized + 1) normalized
  else normalized.

Definition initialMetrics : FileMetrics :=
  mkFileMetrics 0 0 true false (JsNumber.of_Z 0).

Definition getNode (g : ImportGraph) (path : string) : option FileNode :=
  JsMap.get path (nodes g).

Definition addNode (g : ImportGraph) (path : string) : ImportGraph :=
  if JsMap.has path (nodes g) then g
  else with_nodes g
         (JsMap.set path
            (mkFileNode path (getRelativePath g path) [] [] initialMetrics)
            (nodes g)).

(** Mutation of the node object stored under [path]. *)
Definition modifyNode (g : ImportGraph) (path : string) (f : FileNode -> FileNode)
  : ImportGraph :=
  with_nodes g (JsMap.modify path f (nodes g)).

Definition addEdge (g : ImportGraph) (importerPath importedPath : string)
  : ImportGraph :=
  let g := addNode g importerPath in
  let g := addNode g importedPath in
  let g := modifyNode g importerPath (fun importer =>
             if includes importedPath (imports importer) then importer
             else set_imports importer (imports importer ++ [importedPath])) in
  modifyNode g importedPath (fun imported =>
    if includes importerPath (importedBy imported) then imported
    else set_importedBy imported (importedBy imported ++ [importerPath])).

(** The loop [for (const p of paths) { const n = nodes.get(p);
    if (n) n.importedBy = n.importedBy.filter(q => q !== filePath) }]. *)
Definition scrubImportedBy (path : string) (paths : list string) (g : ImportGraph)
  : ImportGraph :=
  fold_left (fun g p =>
    modifyNode g p (fun imported =>
      set_importedBy imported (without path (importedBy imported)))) paths g.

(** The loop [for (const p of paths) { const n = nodes.get(p);
    if (n) n.imports = n.imports.filter(q => q !== filePath) }]. *)
Definition scrubImports (path : string) (paths : list string) (g : ImportGraph)
  : ImportGraph :=
  fold_left (fun g p =>
    modifyNode g p (fun importer =>
      set_imports importer (without path (imports importer)))) paths g.

Definition removeNode (g : ImportGraph) (path : string) : ImportGraph :=
  match getNode g path with
  | None => g
  | Some node =>
      let g := scrubImportedBy path (imports node) g in
      (* [node.importedBy] is read when the second loop starts *)
      let incoming := match getNode g path with
                      | Some node' => importedBy node'
                      | None => []
                      end in
      let g := scrubImports path incoming g in
      with_nodes g (JsMap.delete path (nodes g))
  end.

Definition clearEdgesFor (g : ImportGraph) (path : string) : ImportGraph :=
  match getNode g path with
  | None => g
  | Some node =>
      let g := scrubImportedBy path (imports node) g in
      modifyNode g path (fun node => set_imports node [])
  end.

Definition getAllNodes (g : ImportGraph) : list FileNode :=
  JsMap.values (nodes g).

Definition getFileCount (g : ImportGraph) : nat := JsMap.size (nodes g).

(** [Math.max(1, ...lengths)] *)
Definition maxInDegreeOf (ns : list FileNode) : nat :=
  fold_right Nat.max 1 (map (fun n => List.length (importedBy n)) ns).

Definition computeMetrics (maxInDegree : nat) (node : FileNode) : FileMetrics :=
  let inDeg := List.length (importedBy node) in
  let outDeg := List.length (imports node) in
  mkFileMetrics inDeg outDeg
    (Nat.eqb inDeg 0)
    (Nat.leb 5 inDeg)
    (JsNumber.Math_round
       (JsNumber.mul
          (JsNumber.div (JsNumber.of_nat inDeg) (JsNumber.of_nat maxInDegree))
          (JsNumber.of_Z 100))).

Definition calculateMetrics (g : ImportGraph) : ImportGraph :=
  let maxInDegree := maxInDegreeOf (getAllNodes g) in
  with_nodes g
    (map (fun kv => (fst kv, set_metrics (snd kv) (computeMetrics maxInDegree (snd kv))))
         (nodes g)).

Definition serialize (g : ImportGraph) : list FileNode * string :=
  (getAllNodes g, workspaceRoot g).

Definition deserialize (data : list FileNode * string) : ImportGraph :=
  fold_left (fun g node => with_nodes g (JsMap.set (filePath node) node (nodes g)))
            (fst data) (new_ImportGraph (snd data)).

(** The outgoing and incoming lists of a path; empty when it is no node. *)
Definition importsOf (g : ImportGraph) (p : string) : list string :=
  match getNode g p with Some n => imports n | None => [] end.

Definition importedByOf (g : ImportGraph) (p : string) : list string :=
  match getNode g p with Some n => importedBy n | None => [] end.

(** *** Call sequences on a graph *)

Inductive GraphOp : Type :=
| OpAddEdge (importerPath importedPath : string)
| OpRemoveNode (path : string)
| OpClearEdgesFor (path : string).

Definition applyOp (g : ImportGraph) (op : GraphOp) : ImportGraph :=
  match op with
  | OpAddEdge a b => addEdge g a b
  | OpRemoveNode p => removeNode g p
  | OpClearEdgesFor p => clearEdgesFor g p
  end.

Definition runOps (ops : list GraphOp) (g : ImportGraph) : ImportGraph :=
  fold_left applyOp ops g.

(** Edge symmetry, over all paths: a path that is no node has neither
    outgoing nor incoming entries, so the statement also says that no list
    mentions a path whose node is gone on the other side. *)
Definition edgeSymmetric (g : ImportGraph) : Prop :=
  forall a b, In b (importsOf g a) <-> In a (importedByOf g b).

(** *** The importance score as the specification words it

    [round(100 * inDegree / max(1, max inDegree))] over the rationals, with
    the tie rule of [Math.round] (a half rounds up). *)
Definition spec_importanceScore (inDeg maxInDeg : nat) : Z :=
  let d := Z.of_nat (Nat.max 1 maxInDeg) in
  ((200 * Z.of_nat inDeg + d) / (2 * d))%Z.

(** What [calculateMetrics] leaves in a node of graph [g]. *)
Definition metricsCurrent (g : ImportGraph) (n : FileNode) : Prop :=
  metrics n = computeMetrics (maxInDegreeOf (getAllNodes g)) n.

(** The metrics of node [n] as the edge lists of graph [g] determine them,
    spelled out: the degrees are the lengths of the two lists, a leaf has no
    importer, a load-bearing file has five or more, and the score is
    [Math.round((inDegree / maxInDegree) * 100)] in binary64, where
    [maxInDegree] is the largest number of importers of a node of [g], or 1
    when no node has an importer. *)
Definition metricsReflectEdges (g : ImportGraph) (n : FileNode) : Prop :=
  inDegree (metrics n) = List.length (importedBy n)
  /\ outDegree (metrics n) = List.length (imports n)
  /\ (isLeaf (metrics n) = true <-> importedBy n = [])
  /\ (isLoadBearing (metrics n) = true <-> 5 <= List.length (importedBy n))
  /\ exists maxInDegree,
       1 <= maxInDegree
       /\ (forall m, In m (getAllNodes g) -> List.length (importedBy m) <= maxInDegree)
       /\ (maxInDegree = 1
           \/ exists m, In m (getAllNodes g)
                        /\ List.length (importedBy m) = maxInDegree)
       /\ importanceScore (metrics n)
          = JsNumber.Math_round
              (JsNumber.mul
                 (JsNumber.div (JsNumber.of_nat (List.length (importedBy n)))
                               (JsNumber.of_nat maxInDegree))
                 (JsNumber.of_Z 100)).

(** A workspace in which [count] files [/w/A.ts], [/w/B.ts], ... import
    [target]. *)
Definition importerName (i : nat) : string :=
  "/w/" ++ String (ascii_of_nat (65 + i)) ".ts".

Definition addImporters (count : nat) (target : string) (g : ImportGraph)
  : ImportGraph :=
  fold_left (fun g i => addEdge g (importerName i) target) (seq 0 count) g.

(** Forty files import [/w/hub.ts]; twenty-three of them also import
    [/w/lib.ts]. *)
Definition fortyAndTwentyThree : ImportGraph :=
  calculateMetrics
    (addImporters 23 "/w/lib.ts"
       (addImporters 40 "/w/hub.ts" (new_ImportGraph "/w"))).

(** Eight files import [/w/hub.ts]; one of them also imports [/w/lib.ts]. *)
Definition eightAndOne : ImportGraph :=
  calculateMetrics
    (addImporters 1 "/w/lib.ts"
       (addImporters 8 "/w/hub.ts" (new_ImportGraph "/w"))).

Definition metricsOf (g : ImportGraph) (p : string) : option FileMetrics :=
  option_map metrics (getNode g p).

(** *** [Array.prototype.sort] with a comparator

    The sort of ECMAScript 2019 is stable.  For a consistent comparator every
    stable sort returns the same array; this one inserts each element before
    the first later-sorted element that does not come strictly before it. *)
Section ArraySort.
Context {A : Type}.
Variable compareFn : A -> A -> Z.

Fixpoint insertInOrder (x : A) (l : list A) : list A :=
  match l with
  | [] => [x]
  | y :: l' =>
      if (compareFn x y <=? 0)%Z then x :: y :: l' else y :: insertInOrder x l'
  end.

Fixpoint sortArray (l : list A) : list A :=
  match l with
  | [] => []
  | x :: l' => insertInOrder x (sortArray l')
  end.

End ArraySort.

(** [getLeafFiles]; [localeCompare] is [String.prototype.localeCompare] of the
    host, a collation that depends on the locale. *)
Definition getLeafFiles (localeCompare : string -> string -> Z) (g : ImportGraph)
  : list FileNode :=
  sortArray (fun a b => localeCompare (relativePath a) (relativePath b))
    (filter (fun n => isLeaf (metrics n)) (getAllNodes g)).

(** [getLoadBearingFiles(limit)]: in-degree descending, then [slice(0, limit)]. *)
Definition getLoadBearingFiles (limit : nat) (g : ImportGraph) : list FileNode :=
  firstn limit
    (sortArray (fun a b => (Z.of_nat (inDegree (metrics b)) - Z.of_nat (inDegree (metrics a)))%Z)
       (filter (fun n => Nat.ltb 0 (inDegree (metrics n))) (getAllNodes g))).

(** *** The order that the specification names

    Lexicographic order by code units. *)
Fixpoint spec_lexicographicCompare (a b : string) : Z :=
  match a, b with
  | EmptyString, EmptyString => 0
  | EmptyString, String _ _ => -1
  | String _ _, EmptyString => 1
  | String c a', String d b' =>
      match Nat.compare (nat_of_ascii c) (nat_of_ascii d) with
      | Lt => -1
      | Gt => 1
      | Eq => spec_lexicographicCompare a' b'
      end
  end.

(** *** [String.prototype.localeCompare] of the host, on printable ASCII

    Node compares with the collation of its ICU library, which for the
    default locale is the CLDR root collation.  On printable ASCII it
    compares first with case left aside, sign by sign in the order of
    [collationOrder] (signs before digits before letters, a string before
    its extensions); strings that differ in case only are ordered by their
    first difference, lower case first.  [collationKey] is the sort key: the
    first-level weights, a separator, the case weights.  Code units outside
    printable ASCII are not modelled (they are put after the letters). *)
Definition collationOrder : list ascii :=
  list_ascii_of_string " _-,;:!?.'"
  ++ [ascii_of_nat 34]
  ++ list_ascii_of_string
       "()[]{}@*/\&#%`^+<=>|~$0123456789abcdefghijklmnopqrstuvwxyz".

Definition isUpperCase (c : ascii) : bool :=
  Nat.leb 65 (nat_of_ascii c) && Nat.leb (nat_of_ascii c) 90.

Definition lowerCaseOf (c : ascii) : ascii :=
  if isUpperCase c then ascii_of_nat (nat_of_ascii c + 32) else c.

Fixpoint indexOf (c : ascii) (l : list ascii) : option nat :=
  match l with
  | [] => None
  | d :: l' => if Ascii.eqb d c then Some 0 else option_map S (indexOf c l')
  end.

Definition primaryWeight (c : ascii) : nat :=
  match indexOf (lowerCaseOf c) collationOrder with
  | Some i => S i
  | None => 200 + nat_of_ascii c
  end.

Definition caseWeight (c : ascii) : nat := if isUpperCase c then 2 else 1.

Definition collationKey (s : string) : list nat :=
  map primaryWeight (list_ascii_of_string s)
  ++ 0 :: map caseWeight (list_ascii_of_string s).

Fixpoint compareKeys (a b : list nat) : Z :=
  match a, b with
  | [], [] => 0
  | [], _ :: _ => -1
  | _ :: _, [] => 1
  | x :: a', y :: b' =>
      match Nat.compare x y with
      | Lt => -1
      | Gt => 1
      | Eq => compareKeys a' b'
      end
  end.

Definition hostLocaleCompare (a b : string) : Z :=
  compareKeys (collationKey a) (collationKey b).

(** *** Well-formed stores

    A [Map] has no two entries under one key, and [ImportGraph] files every
    node under its own [filePath]. *)
Fixpoint uniqueStrings (l : list string) : bool :=
  match l with
  | [] => true
  | x :: l' => negb (includes x l') && uniqueStrings l'
  end.

Definition graphWellFormed (g : ImportGraph) : bool :=
  uniqueStrings (JsMap.keys (nodes g))
  && forallb (fun kv => String.eqb (filePath (snd kv)) (fst kv)) (nodes g).

(** [Z.ts] and [a.ts], neither imported. *)
Definition mixedCaseLeaves : ImportGraph :=
  calculateMetrics (addNode (addNode (new_ImportGraph "/w") "/w/Z.ts") "/w/a.ts").

(** The graph of the scenario: [z.ts] and [a.ts] have no importer, [m.ts] has
    one. *)
Definition leafScenario : ImportGraph :=
  calculateMetrics
    (addEdge (addNode (addNode (new_ImportGraph "/w") "/w/z.ts") "/w/a.ts")
             "/w/z.ts" "/w/m.ts").

(* ================================================================= *)
(** ** The host: Node's [fs] and [path], [RegExp], the TypeScript compiler *)

Inductive FileKind : Type := RegularFile | Directory.

(** The part of a TypeScript import declaration that the parser reads. *)
Inductive NamedBindings : Type :=
| NamespaceImport
| NamedImports (elements : list string).

Record ImportClause := mkImportClause {
  clauseIsTypeOnly : bool;
  clauseHasName : bool;
  clauseNamedBindings : option NamedBindings
}.

(** [moduleSpecifier] is [None] when the specifier is no string literal. *)
Record ImportDeclaration := mkImportDeclaration {
  moduleSpecifier : option string;
  importClause : option ImportClause
}.

Record ExportInfo := mkExportInfo {
  exportName : string;
  isDefault : bool;
  isType : bool
}.

(** What the walk over the syntax tree of one file finds: the import
    declarations in source order, the exports and the JSX flag (the last two
    are taken from the host as the walk computes them). *)
Record SourceFile := mkSourceFile {
  importDeclarations : list ImportDeclaration;
  exportInfos : list ExportInfo;
  jsxFound : bool
}.

(** What [s.match(new RegExp(re))] comes to. *)
Inductive RegExpMatch : Type :=
| InvalidPattern                     (* [new RegExp(re)] throws a [SyntaxError] *)
| NoMatch                            (* [null] *)
| Matched (group1 : option string).  (* [match[1]]; [undefined] without a group *)

(** A [None] from [fs_readFileSync] or [ts_createSourceFile] is a thrown
    exception.  [fs_stat p] is [None] when [fs.existsSync(p)] is false, and
    otherwise tells what [fs.statSync(p).isFile()] answers.
    [regexp_match re s] is [s.match(new RegExp(re))]. *)
Record Host := mkHost {
  fs_stat : string -> option FileKind;
  fs_readFileSync : string -> option string;
  path_resolve : string -> string -> string;
  path_join : string -> string -> string;
  path_dirname : string -> string;
  path_basename : string -> string;
  path_extname : string -> string;
  ts_createSourceFile : string -> string -> option SourceFile;
  regexp_match : string -> string -> RegExpMatch
}.

Definition existsSync (h : Host) (p : string) : bool :=
  match fs_stat h p with Some _ => true | None => false end.

Definition isFile (h : Host) (p : string) : bool :=
  match fs_stat h p with Some RegularFile => true | _ => false end.

Record CompilerOptions := mkCompilerOptions {
  baseUrl : option string;
  paths : option (list (string * list string))
}.

(* ================================================================= *)
(** ** [models/types.ts]: parser results *)

Record ImportInfo := mkImportInfo {
  source : string;
  resolvedPath : option string;
  isExternal : bool;
  isTypeOnly : bool;
  importedNames : list string;
  hasDefault : bool;
  hasNamespace : bool
}.

(** The fields [filePath] and [imports] of [ParsedFile] carry a prefix here,
    the plain names being those of [FileNode]. *)
Record ParsedFile := mkParsedFile {
  parsedFilePath : string;
  parsedImports : list ImportInfo;
  parsedExports : list ExportInfo;
  hasJsx : bool
}.

(* ================================================================= *)
(** ** [parsers/typescriptParser.ts]: class [TypeScriptParser] *)

(** A string in a condition: [undefined] and the empty string are falsy. *)
Definition truthy (o : option string) : option string :=
  match o with
  | Some EmptyString => None
  | _ => o
  end.

(** The first element on which [f] answers, in order. *)
Fixpoint firstSome {A B : Type} (f : A -> option B) (l : list A) : option B :=
  match l with
  | [] => None
  | x :: l' => match f x with Some y => Some y | None => firstSome f l' end
  end.

(** [s.replace('*', r)]: the first asterisk only (special replacement
    patterns in [r] are not modelled). *)
Fixpoint replaceFirstStar (s r : string) : string :=
  match s with
  | EmptyString => EmptyString
  | String c s' =>
      if Ascii.eqb c "*"%char then (r ++ s')%string else String c (replaceFirstStar s' r)
  end.

Definition fileExtensions : list string := [".ts"; ".tsx"; ".js"; ".jsx"; EmptyString].
Definition indexExtensions : list string := [".ts"; ".tsx"; ".js"; ".jsx"].

Definition resolveRelativeImport (h : Host) (importSource fromDir : string)
  : option string :=
  let basePath := path_resolve h fromDir importSource in
  match firstSome (fun ext =>
          let fullPath := (basePath ++ ext)%string in
          if existsSync h fullPath && isFile h fullPath then Some fullPath else None)
          fileExtensions with
  | Some fullPath => Some fullPath
  | None =>
      firstSome (fun ext =>
        let indexPath := path_join h basePath ("index" ++ ext)%string in
        if existsSync h indexPath then Some indexPath else None)
        indexExtensions
  end.

(** What the evaluation of a call comes to: the value it returns, or an
    exception on its way to the nearest [catch]. *)
Inductive Completion (A : Type) : Type :=
| Returns (value : A)
| Throws.

Arguments Returns {A} value.
Arguments Throws {A}.

(** A [for] loop whose body returns from the function with a resolved path,
    goes on to the next element, or throws. *)
Fixpoint firstResolved {A : Type} (f : A -> Completion (option string)) (l : list A)
  : Completion (option string) :=
  match l with
  | [] => Returns None
  | x :: l' =>
      match f x with
      | Throws => Throws
      | Returns (Some resolved) => Returns (Some resolved)
      | Returns None => firstResolved f l'
      end
  end.

(** [new RegExp] is called once per entry that the loop reaches; a key of
    [paths] that is no valid pattern makes it throw. *)
Definition resolvePathAlias (h : Host) (opts : CompilerOptions) (importSource : string)
  : Completion (option string) :=
  match paths opts, truthy (baseUrl opts) with
  | Some entries, Some base =>
      firstResolved (fun entry =>
        let '(pattern, mappings) := entry in
        let regex := ("^" ++ replaceFirstStar pattern "(.*)" ++ "$")%string in
        match regexp_match h regex importSource with
        | InvalidPattern => Throws
        | NoMatch => Returns None
        | Matched group =>
            let captured := match truthy group with Some c => c | None => EmptyString end in
            Returns
              (firstSome (fun mapping =>
                 let resolved := replaceFirstStar mapping captured in
                 let fullPath := path_resolve h base resolved in
                 match truthy (resolveRelativeImport h
                                 ("./" ++ path_basename h fullPath)%string
                                 (path_dirname h fullPath)) with
                 | Some result => Some result
                 | None => truthy (resolveRelativeImport h resolved base)
                 end) mappings)
        end) entries
  | _, _ => Returns None
  end.

Definition resolveImportPath (h : Host) (opts : CompilerOptions)
  (importSource importerPath : string) : Completion (option string) :=
  let importerDir := path_dirname h importerPath in
  if startsWith importSource "."
  then Returns (resolveRelativeImport h importSource importerDir)
  else
    let viaAlias :=
      match paths opts, truthy (baseUrl opts) with
      | Some _, Some _ => resolvePathAlias h opts importSource
      | _, _ => Returns None
      end in
    match viaAlias with
    | Throws => Throws
    | Returns resolved =>
        match truthy resolved with
        | Some resolved => Returns (Some resolved)
        | None =>
            Returns
              match truthy (baseUrl opts) with
              | Some base => truthy (resolveRelativeImport h importSource base)
              | None => None
              end
        end
    end.

Definition parseImportDeclaration (h : Host) (opts : CompilerOptions)
  (node : ImportDeclaration) (importerPath : string) : Completion (option ImportInfo) :=
  match moduleSpecifier node with
  | None => Returns None
  | Some src =>
      let external := negb (startsWith src ".") && negb (startsWith src "/") in
      let typeOnly := match importClause node with
                      | Some c => clauseIsTypeOnly c
                      | None => false
                      end in
      let names := match importClause node with
                   | Some (mkImportClause _ _ (Some (NamedImports els))) => els
                   | _ => []
                   end in
      let default := match importClause node with
                     | Some c => clauseHasName c
                     | None => false
                     end in
      let namespace := match importClause node with
                       | Some (mkImportClause _ _ (Some NamespaceImport)) => true
                       | _ => false
                       end in
      match (if external then Returns None
             else resolveImportPath h opts src importerPath) with
      | Throws => Throws
      | Returns resolved =>
          Returns (Some (mkImportInfo src resolved external typeOnly names default
                                      namespace))
      end
  end.

(** The walk [visit] over the import declarations, in source order: each
    import fact is pushed unless the declaration yields none; an exception
    ends the walk. *)
Fixpoint visitImportDeclarations (h : Host) (opts : CompilerOptions) (path : string)
  (nodes : list ImportDeclaration) : Completion (list ImportInfo) :=
  match nodes with
  | [] => Returns []
  | node :: rest =>
      match parseImportDeclaration h opts node path with
      | Throws => Throws
      | Returns importInfo =>
          match visitImportDeclarations h opts path rest with
          | Throws => Throws
          | Returns imports =>
              Returns match importInfo with
                      | Some info => info :: imports
                      | None => imports
                      end
          end
      end
  end.

Definition parseContent (h : Host) (opts : CompilerOptions) (path content : string)
  : Completion ParsedFile :=
  match ts_createSourceFile h path content with
  | None => Throws
  | Some sf =>
      match visitImportDeclarations h opts path (importDeclarations sf) with
      | Throws => Throws
      | Returns imports =>
          Returns (mkParsedFile path imports (exportInfos sf) (jsxFound sf))
      end
  end.

(** [parseFile]: the [try] covers the read and the parse; the [catch]
    returns [null]. *)
Definition parseFile (h : Host) (opts : CompilerOptions) (path : string)
  : option ParsedFile :=
  match fs_readFileSync h path with
  | None => None
  | Some content =>
      match parseContent h opts path content with
      | Throws => None
      | Returns parsed => Some parsed
      end
  end.

(* ================================================================= *)
(** ** [analyzers/importGraphBuilder.ts]: class [ImportGraphBuilder] *)

Definition processFile (h : Host) (opts : CompilerOptions) (g : ImportGraph)
  (path : string) : ImportGraph :=
  match parseFile h opts path with
  | None => g
  | Some parsed =>
      fold_left (fun g importInfo =>
        match negb (isExternal importInfo), truthy (resolvedPath importInfo) with
        | true, Some resolved => addEdge g path resolved
        | _, _ => g
        end) (parsedImports parsed) (addNode g path)
  end.

(** [buildGraph] when nothing else runs while [findTypeScriptFiles] is
    awaited: the loop starts on the graph that the call has just allocated,
    and [files] is the answer.  [builder_buildGraph_begin] and
    [builder_buildGraph_finish] below are the two halves of the call, between
    which the host may run a flush of the watcher. *)
Definition buildGraph (h : Host) (opts : CompilerOptions) (root : string)
  (files : list string) : ImportGraph :=
  calculateMetrics (fold_left (processFile h opts) files (new_ImportGraph root)).

Definition updateFile (h : Host) (opts : CompilerOptions) (g : ImportGraph)
  (path : string) : ImportGraph :=
  calculateMetrics (processFile h opts (clearEdgesFor g path) path).

Definition removeFile (g : ImportGraph) (path : string) : ImportGraph :=
  calculateMetrics (removeNode g path).

(** The paths to which [processFile] draws an edge from a parsed file. *)
Definition localTargets (parsed : ParsedFile) : list string :=
  flat_map (fun importInfo =>
    match negb (isExternal importInfo), truthy (resolvedPath importInfo) with
    | true, Some resolved => [resolved]
    | _, _ => []
    end) (parsedImports parsed).

Definition isNode (g : ImportGraph) (p : string) : bool :=
  match getNode g p with Some _ => true | None => false end.

Definition parses (h : Host) (opts : CompilerOptions) (p : string) : bool :=
  match parseFile h opts p with Some _ => true | None => false end.

Definition targetsOf (h : Host) (opts : CompilerOptions) (p : string) : list string :=
  match parseFile h opts p with Some parsed => localTargets parsed | None => [] end.

(* ================================================================= *)
(** ** A small host for the scenarios

    POSIX paths without [..] segments.  [table] lists the readable regular
    files, each with the module specifiers of its import declarations; [dirs]
    lists the directories; [unreadable] lists regular files whose read
    throws. *)

Fixpoint splitOn (sep : ascii) (s : string) : list string :=
  match s with
  | EmptyString => [EmptyString]
  | String c s' =>
      if Ascii.eqb c sep then EmptyString :: splitOn sep s'
      else match splitOn sep s' with
           | [] => [String c EmptyString]
           | seg :: segs => String c seg :: segs
           end
  end.

Definition exampleDirname (p : string) : string :=
  String.concat "/" (removelast (splitOn "/"%char p)).

Definition exampleBasename (p : string) : string :=
  last (splitOn "/"%char p) EmptyString.

Definition exampleExtname (p : string) : string :=
  match splitOn "."%char (exampleBasename p) with
  | [] | [_] => EmptyString
  | EmptyString :: [_] => EmptyString
  | segs => String "."%char (last segs EmptyString)
  end.

Definition exampleResolve (dir src : string) : string :=
  if startsWith src "./" then (dir ++ "/" ++ slice 2 src)%string
  else if startsWith src "/" then src
  else (dir ++ "/" ++ src)%string.

Definition exampleJoin (a b : string) : string := (a ++ "/" ++ b)%string.

Fixpoint lookup {V : Type} (k : string) (l : list (string * V)) : option V :=
  match l with
  | [] => None
  | (k', v) :: l' => if String.eqb k' k then Some v else lookup k l'
  end.

Definition exampleHost (table : list (string * list string))
  (dirs unreadable : list string) : Host :=
  mkHost
    (fun p => if includes p unreadable then Some RegularFile
              else match lookup p table with
                   | Some _ => Some RegularFile
                   | None => if includes p dirs then Some Directory else None
                   end)
    (fun p => if includes p unreadable then None
              else match lookup p table with Some _ => Some p | None => None end)
    exampleResolve exampleJoin exampleDirname exampleBasename exampleExtname
    (fun p _ => match lookup p table with
                | Some specifiers =>
                    Some (mkSourceFile
                            (map (fun spec => mkImportDeclaration (Some spec) None)
                                 specifiers) [] false)
                | None => None
                end)
    (fun _ _ => NoMatch).

(** The options of a [tsconfig.json] that sets neither [baseUrl] nor [paths]. *)
Definition noOptions : CompilerOptions := mkCompilerOptions None None.

(** The options that [loadCompilerOptions] falls back to when the workspace
    has no [tsconfig.json]: [baseUrl] is the workspace root. *)
Definition defaultOptions (root : string) : CompilerOptions :=
  mkCompilerOptions (Some root) None.

(** Ten enumerated files: [/w/A.ts] ... [/w/I.ts] each import [./A] and
    [./locked]; reading [/w/locked.ts] throws. *)
Definition tenFilesHost : Host :=
  exampleHost
    (map (fun i => (importerName i, ["./A"; "./locked"])) (seq 0 9))
    ["/w"] ["/w/locked.ts"].

Definition tenFiles : list string :=
  map importerName (seq 0 9) ++ ["/w/locked.ts"].

(** [/w/a.ts] has the rooted import [/legacy/x], and the [paths] of the
    configuration have a key with an opening parenthesis, from which
    [resolvePathAlias] makes a pattern with an unclosed group: [new RegExp]
    throws on it. *)
Definition badPatternOptions : CompilerOptions :=
  mkCompilerOptions (Some "/w") (Some [("(legacy/*", ["legacy/*"])]).

Definition badPatternHost : Host :=
  let h := exampleHost [("/w/a.ts", ["/legacy/x"])] ["/w"] [] in
  mkHost (fs_stat h) (fs_readFileSync h) (path_resolve h) (path_join h)
         (path_dirname h) (path_basename h) (path_extname h) (ts_createSourceFile h)
         (fun re _ => if String.eqb re "^(legacy/(.*)$" then InvalidPattern else NoMatch).

(** [/w/bad.ts] holds an import declaration followed by text that is no
    TypeScript; [/w/b.ts] is well-formed.  [ts.createSourceFile] does not
    throw on syntax errors: it recovers, attaches diagnostics to the tree it
    returns, and the import declaration is in that tree.  (Nor does
    [readFileSync] throw on bytes that are no UTF-8: it decodes them to
    U+FFFD.) *)
Definition malformedText : string := "import { b } from './b'; const = ; }".

Definition malformedHost : Host :=
  mkHost
    (fun p => if includes p ["/w/bad.ts"; "/w/b.ts"] then Some RegularFile
              else if String.eqb p "/w" then Some Directory else None)
    (fun p => if String.eqb p "/w/bad.ts" then Some malformedText
              else if String.eqb p "/w/b.ts" then Some "export const b = 1;"
              else None)
    exampleResolve exampleJoin exampleDirname exampleBasename exampleExtname
    (fun _ content =>
       if String.eqb content malformedText
       then Some (mkSourceFile
                    [mkImportDeclaration (Some "./b")
                       (Some (mkImportClause false false (Some (NamedImports ["b"]))))]
                    [] false)
       else Some (mkSourceFile [] [mkExportInfo "b" false false] false))
    (fun _ _ => NoMatch).

(** [/w/a.ts] imports itself and [./util]; [util] exists as [/w/util.js]
    only. *)
Definition selfImportHost : Host :=
  exampleHost [("/w/a.ts", ["./a"; "./util"]); ("/w/util.js", [])] ["/w"] [].

(** [/w/a.ts] has a relative import that resolves to [/w/util.js] and a
    rooted one that resolves to [/w/lib/legacy.jsx]. *)
Definition rootedImportHost : Host :=
  exampleHost [("/w/a.ts", ["./util"; "/w/lib/legacy"]);
               ("/w/util.js", []); ("/w/lib/legacy.jsx", [])]
              ["/w"; "/w/lib"] [].

(** The same workspace after [/w/a.ts] has become unreadable. *)
Definition selfImportHostLater : Host :=
  exampleHost [("/w/util.js", [])] ["/w"] ["/w/a.ts"].

(** *** File resolution as the specification words it

    The bare path, then each extension appended to it, then each extension
    appended to [index] inside it; the first candidate that is a regular file
    wins. *)
Definition spec_resolveCandidates (h : Host) (basePath : string) : list string :=
  basePath
  :: map (fun ext => (basePath ++ ext)%string) fileExtensions
  ++ map (fun ext => path_join h basePath ("index" ++ ext)%string) indexExtensions.

Definition spec_resolveFile (h : Host) (basePath : string) : option string :=
  find (isFile h) (spec_resolveCandidates h basePath).

(** [/w/x] and [/w/x.ts] are both regular files. *)
Definition bareAndTsHost : Host :=
  exampleHost [("/w/a.ts", ["./x"]); ("/w/x", []); ("/w/x.ts", [])] ["/w"] [].

(** [/w/y/index.ts] is a directory. *)
Definition indexDirectoryHost : Host :=
  exampleHost [("/w/a.ts", ["./y"])] ["/w"; "/w/y"; "/w/y/index.ts"] [].

(** [/w/x.ts] and [/w/x/index.ts] are both regular files. *)
Definition tsAndIndexHost : Host :=
  exampleHost [("/w/a.ts", ["./x"]); ("/w/x.ts", []); ("/w/x/index.ts", [])]
              ["/w"; "/w/x"] [].

(* ================================================================= *)
(** ** The builder as an object: its graph and the calls it has served

    [graphInstance] counts the [new ImportGraph] allocations, so two states
    with the same number hold the same instance; [callLog] records, oldest
    first, the incremental calls made on the builder. *)

Inductive BuilderCall : Type :=
| CallRemoveFile (path : string)
| CallUpdateFile (path : string).

Record Builder := mkBuilder {
  graph : ImportGraph;
  graphInstance : nat;
  callLog : list BuilderCall
}.

Definition new_Builder (root : string) : Builder :=
  mkBuilder (new_ImportGraph root) 0 [].

Definition builder_removeFile (b : Builder) (path : string) : Builder :=
  mkBuilder (removeFile (graph b) path) (graphInstance b)
            (callLog b ++ [CallRemoveFile path]).

Definition builder_updateFile (h : Host) (opts : CompilerOptions) (b : Builder)
  (path : string) : Builder :=
  mkBuilder (updateFile h opts (graph b) path) (graphInstance b)
            (callLog b ++ [CallUpdateFile path]).

(** [buildGraph] up to its first suspension: [this.graph = new ImportGraph]
    and then [await this.findTypeScriptFiles()]. *)
Definition builder_buildGraph_begin (root : string) (b : Builder) : Builder :=
  mkBuilder (new_ImportGraph root) (S (graphInstance b)) (callLog b).

(** [buildGraph] from the answer of [findTypeScriptFiles] to its return.  The
    awaits in the loop resume from the microtask queue, so no timer or host
    event runs in between. *)
Definition builder_buildGraph_finish (h : Host) (opts : CompilerOptions)
  (b : Builder) (files : list string) : Builder :=
  mkBuilder (calculateMetrics (fold_left (processFile h opts) files (graph b)))
            (graphInstance b) (callLog b).

(* ================================================================= *)
(** ** [watchers/fileWatcher.ts]: class [FileWatcher] *)

(** [Set<string>]: insertion-ordered, without duplicates. *)
Module JsSet.
Definition add (x : string) (s : list string) : list string :=
  if includes x s then s else s ++ [x].
Definition delete (x : string) (s : list string) : list string := without x s.
End JsSet.

(** [timerArmed]: a debounce timeout is pending. *)
Record FileWatcher := mkFileWatcher {
  pendingUpdates : list string;
  pendingDeletes : list string;
  timerArmed : bool
}.

Definition new_FileWatcher : FileWatcher := mkFileWatcher [] [] false.

Definition shouldIgnore (h : Host) (root path : string) : bool :=
  if str_includes path "node_modules" then true
  else if negb (startsWith (normalizeSeparators path) (normalizeSeparators root))
  then true
  else if negb (includes (path_extname h path) [".ts"; ".tsx"]) then true
  else false.

Definition scheduleFlush (w : FileWatcher) : FileWatcher :=
  mkFileWatcher (pendingUpdates w) (pendingDeletes w) true.

Definition handleCreate (h : Host) (root : string) (w : FileWatcher) (path : string)
  : FileWatcher :=
  if shouldIgnore h root path then w
  else scheduleFlush
         (mkFileWatcher (JsSet.add path (pendingUpdates w)) (pendingDeletes w)
                        (timerArmed w)).

Definition handleChange (h : Host) (root : string) (w : FileWatcher) (path : string)
  : FileWatcher :=
  if shouldIgnore h root path then w
  else scheduleFlush
         (mkFileWatcher (JsSet.add path (pendingUpdates w)) (pendingDeletes w)
                        (timerArmed w)).

Definition handleDelete (h : Host) (root : string) (w : FileWatcher) (path : string)
  : FileWatcher :=
  if shouldIgnore h root path then w
  else scheduleFlush
         (mkFileWatcher (JsSet.delete path (pendingUpdates w))
                        (JsSet.add path (pendingDeletes w))
                        (timerArmed w)).

(** [flushUpdates], run when the timeout fires.  The awaits in the second
    loop resume from the microtask queue, so the flush is not interleaved
    with other events.  The third component tells whether the update
    callback is called. *)
Definition flushUpdates (h : Host) (opts : CompilerOptions)
  (w : FileWatcher) (b : Builder) : FileWatcher * Builder * bool :=
  let updates := pendingUpdates w in
  let deletes := pendingDeletes w in
  let w := mkFileWatcher [] [] false in
  let b := fold_left builder_removeFile deletes b in
  let b := fold_left (builder_updateFile h opts) updates b in
  (w, b, negb (Nat.eqb (List.length updates) 0 && Nat.eqb (List.length deletes) 0)).

Inductive WatcherEvent : Type :=
| FileCreated (path : string)
| FileChanged (path : string)
| FileDeleted (path : string).

Definition handleEvent (h : Host) (root : string) (w : FileWatcher) (e : WatcherEvent)
  : FileWatcher :=
  match e with
  | FileCreated p => handleCreate h root w p
  | FileChanged p => handleChange h root w p
  | FileDeleted p => handleDelete h root w p
  end.

Definition isRemoveCall (c : BuilderCall) : Prop :=
  match c with CallRemoveFile _ => True | CallUpdateFile _ => False end.

Definition isUpdateCall (c : BuilderCall) : Prop :=
  match c with CallUpdateFile _ => True | CallRemoveFile _ => False end.

(* ================================================================= *)
(** ** [views/ScaffoldViewProvider.ts]: [runAnalysis] and the event loop

    The extension host runs one task at a time; a task runs until it awaits
    something that the host completes later.  [running] lists the activations
    of [runAnalysis] that have passed the guard and not yet reached their
    [finally], each with the suspension point it waits at. *)

Inductive AnalysisPhase : Type :=
| AwaitProgress      (* [withProgress] has not called back yet *)
| AwaitFindFiles     (* in [buildGraph], waiting for [findTypeScriptFiles] *)
| AwaitNavigation.   (* [buildGraph] has returned, [analyze] is pending *)

Record ViewProvider := mkViewProvider {
  isAnalyzing : bool;
  running : list AnalysisPhase;
  graphBuilder : Builder;
  fileWatcher : FileWatcher
}.

Definition new_ViewProvider (root : string) : ViewProvider :=
  mkViewProvider false [] (new_Builder root) new_FileWatcher.

Inductive HostEvent : Type :=
| RunAnalysis                                   (* refresh, webview message *)
| ProgressCallsBack (activation : nat)
| FilesFound (activation : nat) (files : list string)
| NavigationAnalyzed (activation : nat)
| AnalysisRejects (activation : nat)            (* an awaited promise rejects *)
| Watcher (e : WatcherEvent)
| TimerFires.

Fixpoint replaceNth {A} (i : nat) (x : A) (l : list A) : list A :=
  match i, l with
  | _, [] => []
  | O, _ :: l' => x :: l'
  | S i', y :: l' => y :: replaceNth i' x l'
  end.

Fixpoint removeNth {A} (i : nat) (l : list A) : list A :=
  match i, l with
  | _, [] => []
  | O, _ :: l' => l'
  | S i', y :: l' => y :: removeNth i' l'
  end.

Definition step (h : Host) (opts : CompilerOptions) (root : string)
  (s : ViewProvider) (e : HostEvent) : ViewProvider :=
  match e with
  | RunAnalysis =>
      if isAnalyzing s then s
      else mkViewProvider true (running s ++ [AwaitProgress])
                          (graphBuilder s) (fileWatcher s)
  | ProgressCallsBack i =>
      match nth_error (running s) i with
      | Some AwaitProgress =>
          mkViewProvider (isAnalyzing s)
            (replaceNth i AwaitFindFiles (running s))
            (builder_buildGraph_begin root (graphBuilder s)) (fileWatcher s)
      | _ => s
      end
  | FilesFound i files =>
      match nth_error (running s) i with
      | Some AwaitFindFiles =>
          mkViewProvider (isAnalyzing s)
            (replaceNth i AwaitNavigation (running s))
            (builder_buildGraph_finish h opts (graphBuilder s) files)
            (fileWatcher s)
      | _ => s
      end
  | NavigationAnalyzed i =>
      match nth_error (running s) i with
      | Some AwaitNavigation =>
          (* the result is sent; [finally] clears the flag *)
          mkViewProvider false (removeNth i (running s))
                         (graphBuilder s) (fileWatcher s)
      | _ => s
      end
  | AnalysisRejects i =>
      match nth_error (running s) i with
      | Some _ =>
          (* [catch] reports the error; [finally] clears the flag *)
          mkViewProvider false (removeNth i (running s))
                         (graphBuilder s) (fileWatcher s)
      | None => s
      end
  | Watcher we =>
      mkViewProvider (isAnalyzing s) (running s) (graphBuilder s)
                     (handleEvent h root (fileWatcher s) we)
  | TimerFires =>
      if timerArmed (fileWatcher s) then
        let '(w, b, _) := flushUpdates h opts (fileWatcher s) (graphBuilder s) in
        mkViewProvider (isAnalyzing s) (running s) b w
      else s
  end.

Definition runEvents (h : Host) (opts : CompilerOptions) (root : string)
  (events : list HostEvent) (s : ViewProvider) : ViewProvider :=
  fold_left (step h opts root) events s.

(** A build is in flight: some activation is inside [buildGraph]. *)
Definition buildInFlight (s : ViewProvider) : bool :=
  existsb (fun ph => match ph with AwaitFindFiles => true | _ => false end)
          (running s).

(** [/w/a.ts] imports nothing. *)
Definition oneFileHost : Host := exampleHost [("/w/a.ts", [])] ["/w"] [].

(** [/w/a.ts] imports [./d]; reading [/w/d.ts] throws. *)
Definition importsLockedHost : Host :=
  exampleHost [("/w/a.ts", ["./d"])] ["/w"] ["/w/d.ts"].

(** Three files in a cycle, [a] to [b] to [c] to [a], and the same workspace
    after [/w/c.ts] has been edited to import [./b] as well. *)
Definition cycleHost : Host :=
  exampleHost [("/w/a.ts", ["./b"]); ("/w/b.ts", ["./c"]); ("/w/c.ts", ["./a"])]
              ["/w"] [].

Definition cycleHostLater : Host :=
  exampleHost [("/w/a.ts", ["./b"]); ("/w/b.ts", ["./c"]);
               ("/w/c.ts", ["./a"; "./b"])]
              ["/w"] [].

(** Only paths that pass [shouldIgnore] are ever pending. *)
Definition pendingAdmissible (h : Host) (root : string) (w : FileWatcher) : Prop :=
  forall p, In p (pendingUpdates w) \/ In p (pendingDeletes w) ->
            shouldIgnore h root p = false.

(** The guard's invariant: the flag is set exactly while one activation of
    [runAnalysis] is under way, and there is never a second one. *)
Definition guardConsistent (s : ViewProvider) : Prop :=
  (isAnalyzing s = true /\ List.length (running s) = 1)
  \/ (isAnalyzing s = false /\ running s = []).

(** The score that [computeMetrics] stores for in-degree [inDeg] when the
    maximum in-degree is [maxInDeg]. *)
Definition scoreOf (inDeg maxInDeg : nat) : JsNumber.number :=
  JsNumber.Math_round
    (JsNumber.mul (JsNumber.div (JsNumber.of_nat inDeg) (JsNumber.of_nat maxInDeg))
                  (JsNumber.of_Z 100)).

(** Structural equality of numbers (it tells [+0] from [-0]). *)
Definition sameNumber (x y : JsNumber.number) : bool :=
  match x, y with
  | S754_zero s, S754_zero s' => Bool.eqb s s'
  | S754_infinity s, S754_infinity s' => Bool.eqb s s'
  | S754_nan, S754_nan => true
  | S754_finite s m e, S754_finite s' m' e' =>
      Bool.eqb s s' && Pos.eqb m m' && Z.eqb e e'
  | _, _ => false
  end.

Definition scoresAgreeUpTo (maxInDeg : nat) : bool :=
  forallb (fun b =>
    forallb (fun a => sameNumber (scoreOf a b)
                                 (JsNumber.of_Z (spec_importanceScore a b)))
            (seq 0 (S b)))
    (seq 1 maxInDeg).

(* ================================================================= *)
(** ** Auxiliary notions for further properties of the graph *)

(** A uniform renaming of file paths by an injective [f]: keys, [filePath]
    and both edge lists go through [f]; the display path and the metrics
    stay.  (Were [f] to send two paths to one, the entries would collide,
    which a [Map] cannot hold.) *)
Definition relabelNode (f : string -> string) (n : FileNode) : FileNode :=
  mkFileNode (f (filePath n)) (relativePath n)
             (map f (imports n)) (map f (importedBy n)) (metrics n).

Definition relabelGraph (f : string -> string) (g : ImportGraph) : ImportGraph :=
  with_nodes g (map (fun kv => (f (fst kv), relabelNode f (snd kv))) (nodes g)).

(** Every edge list of the graph is free of duplicates. *)
Definition edgeListsDistinct (g : ImportGraph) : Prop :=
  forall p, NoDup (importsOf g p) /\ NoDup (importedByOf g p).

(** The last node of [ns] filed under [p]. *)
Definition lastWithPath (p : string) (ns : list FileNode) : option FileNode :=
  find (fun n => String.eqb (filePath n) p) (rev ns).

(** The structural invariant of the graphs the extension holds. *)
Definition graphSound (g : ImportGraph) : Prop :=
  graphWellFormed g = true /\ edgeSymmetric g /\ edgeListsDistinct g.

Definition metricsAllCurrent (g : ImportGraph) : Prop :=
  forall n, In n (getAllNodes g) -> metricsCurrent g n.

Definition callPath (c : BuilderCall) : string :=
  match c with CallRemoveFile p => p | CallUpdateFile p => p end.

(** The invariant of the watcher's pending sets. *)
Definition watcherConsistent (h : Host) (root : string) (w : FileWatcher) : Prop :=
  NoDup (pendingUpdates w) /\ NoDup (pendingDeletes w)
  /\ pendingAdmissible h root w
  /\ (timerArmed w = true <-> pendingUpdates w <> [] \/ pendingDeletes w <> []).

(** The invariant of the view provider's builder and watcher. *)
Definition providerConsistent (h : Host) (root : string) (s : ViewProvider) : Prop :=
  watcherConsistent h root (fileWatcher s)
  /\ graphSound (graph (graphBuilder s))
  /\ metricsAllCurrent (graph (graphBuilder s))
  /\ Forall (fun c => shouldIgnore h root (callPath c) = false)
            (callLog (graphBuilder s)).

(* ================================================================= *)
(** ** [analyzers/fileMetrics.ts]: class [FileMetricsCalculator] *)

(** [x >= y] on numbers: false when either is NaN. *)
Definition number_geb (x y : JsNumber.number) : bool :=
  match SFcompare x y with
  | Some Gt | Some Eq => true
  | _ => false
  end.

Inductive ImportanceTier : Type := Critical | High | Medium | Low.

Definition getImportanceTier (node : FileNode) : ImportanceTier :=
  let score := importanceScore (metrics node) in
  if number_geb score (JsNumber.of_Z 75) then Critical
  else if number_geb score (JsNumber.of_Z 50) then High
  else if number_geb score (JsNumber.of_Z 25) then Medium
  else Low.

Record SummaryStats := mkSummaryStats {
  totalFiles : nat;
  leafFileCount : nat;
  loadBearingCount : nat;
  averageImports : JsNumber.number;
  averageImportedBy : JsNumber.number
}.

(** [Math.round((sum / total) * 10) / 10] *)
Definition roundedAverage (sum total : nat) : JsNumber.number :=
  JsNumber.div
    (JsNumber.Math_round
       (JsNumber.mul (JsNumber.div (JsNumber.of_nat sum) (JsNumber.of_nat total))
                     (JsNumber.of_Z 10)))
    (JsNumber.of_Z 10).

Definition totalImportsOf (ns : list FileNode) : nat :=
  fold_left (fun sum n => sum + outDegree (metrics n)) ns 0.

Definition totalImportedByOf (ns : list FileNode) : nat :=
  fold_left (fun sum n => sum + inDegree (metrics n)) ns 0.

Definition getSummaryStats (g : ImportGraph) : SummaryStats :=
  let ns := getAllNodes g in
  let total := List.length ns in
  if Nat.eqb total 0
  then mkSummaryStats 0 0 0 (JsNumber.of_Z 0) (JsNumber.of_Z 0)
  else
    mkSummaryStats total
      (List.length (filter (fun n => isLeaf (metrics n)) ns))
      (List.length (filter (fun n => isLoadBearing (metrics n)) ns))
      (roundedAverage (totalImportsOf ns) total)
      (roundedAverage (totalImportedByOf ns) total).

(** [s.split(/[/\\]/)] *)
Fixpoint splitOnSeparators (s : string) : list string :=
  match s with
  | EmptyString => [EmptyString]
  | String c s' =>
      if Ascii.eqb c "/"%char || Ascii.eqb c "\"%char
      then EmptyString :: splitOnSeparators s'
      else match splitOnSeparators s' with
           | [] => [String c EmptyString]
           | seg :: segs => String c seg :: segs
           end
  end.

(** [getTopLevelDir]; [None] is [null]. *)
Definition getTopLevelDir (dirPath : string) : option string :=
  if String.eqb dirPath EmptyString || String.eqb dirPath "." then None
  else
    match splitOnSeparators dirPath with
    | first :: second :: _ =>
        if String.eqb first "src" then Some ("src/" ++ second)%string else Some first
    | first :: [] => Some first
    | [] => None
    end.

(** The first loop of [getDirectoryStats]: the [Map] from top-level directory
    to the number of nodes under it, in order of first appearance. *)
Definition countDirectories (h : Host) (ns : list FileNode) : JsMap.t nat :=
  fold_left (fun dirCounts node =>
    match truthy (getTopLevelDir (path_dirname h (relativePath node))) with
    | Some topDir =>
        JsMap.set topDir
          (match JsMap.get topDir dirCounts with Some c => c | None => 0 end + 1)
          dirCounts
    | None => dirCounts
    end) ns JsMap.empty.

Inductive DirectoryCategory : Type :=
| CatComponents | CatHooks | CatServices | CatUtils
| CatScreens | CatPages | CatApi | CatOther.

(** [patterns.some(p => str.includes(p))] *)
Definition matchesAny (str : string) (patterns : list string) : bool :=
  existsb (fun p => str_includes str p) patterns.

(** [toLowerCase] is the host's (it follows Unicode). *)
Definition categorizeDirectory (h : Host) (toLowerCase : string -> string)
  (dirPath : string) : DirectoryCategory :=
  let name := toLowerCase (path_basename h dirPath) in
  let fullPath := toLowerCase dirPath in
  if matchesAny name ["component"; "components"; "ui"] then CatComponents
  else if matchesAny name ["hook"; "hooks"] then CatHooks
  else if matchesAny name ["service"; "services"; "api"; "apis"] then CatServices
  else if matchesAny name ["util"; "utils"; "helper"; "helpers"; "lib"] then CatUtils
  else if matchesAny name ["screen"; "screens"; "view"; "views"] then CatScreens
  else if matchesAny name ["page"; "pages"; "routes"] then CatPages
  else if matchesAny fullPath ["api/"; "apis/"; "/api"; "server/"] then CatApi
  else CatOther.

Record DirectoryStats := mkDirectoryStats {
  dirPath : string;
  dirName : string;
  fileCount : nat;
  category : DirectoryCategory
}.

Definition getDirectoryStats (h : Host) (toLowerCase : string -> string)
  (g : ImportGraph) : list DirectoryStats :=
  sortArray (fun a b => (Z.of_nat (fileCount b) - Z.of_nat (fileCount a))%Z)
    (map (fun entry =>
            mkDirectoryStats (fst entry)
              (match truthy (Some (path_basename h (fst entry))) with
               | Some name => name
               | None => fst entry
               end)
              (snd entry)
              (categorizeDirectory h toLowerCase (fst entry)))
         (countDirectories h (getAllNodes g))).

(** The nodes that [getDirectoryStats] counts: those with a top-level
    directory. *)
Definition hasTopLevelDir (h : Host) (node : FileNode) : bool :=
  match truthy (getTopLevelDir (path_dirname h (relativePath node))) with
  | Some _ => true
  | None => false
  end.

(** The edges of a graph as pairs, read off the outgoing lists and off the
    incoming lists. *)
Definition outgoingPairs (g : ImportGraph) : list (string * string) :=
  flat_map (fun kv => map (pair (fst kv)) (imports (snd kv))) (nodes g).

Definition incomingPairs (g : ImportGraph) : list (string * string) :=
  flat_map (fun kv => map (pair (fst kv)) (importedBy (snd kv))) (nodes g).

Definition tierOfScore (score : nat) : ImportanceTier :=
  if Nat.leb 75 score then Critical
  else if Nat.leb 50 score then High
  else if Nat.leb 25 score then Medium
  else Low.

Definition sameTier (a b : ImportanceTier) : bool :=
  match a, b with
  | Critical, Critical | High, High | Medium, Medium | Low, Low => true
  | _, _ => false
  end.

Definition nodeWithScore (score : JsNumber.number) : FileNode :=
  mkFileNode EmptyString EmptyString [] []
             (mkFileMetrics 0 0 true false score).

(** The node is counted under directory [d]. *)
Definition nodeTopDirIs (h : Host) (d : string) (node : FileNode) : bool :=
  match truthy (getTopLevelDir (path_dirname h (relativePath node))) with
  | Some topDir => String.eqb topDir d
  | None => false
  end.

Definition countOr0 (d : string) (m : JsMap.t nat) : nat :=
  match JsMap.get d m with Some c => c | None => 0 end.

(** One round of the counting loop of [getDirectoryStats]. *)
Definition countDirectory (h : Host) (dirCounts : JsMap.t nat) (node : FileNode)
  : JsMap.t nat :=
  match truthy (getTopLevelDir (path_dirname h (relativePath node))) with
  | Some topDir =>
      JsMap.set topDir
        (match JsMap.get topDir dirCounts with Some c => c | None => 0 end + 1)
        dirCounts
  | None => dirCounts
  end.

(* ================================================================= *)
(** ** [views/ScaffoldViewProvider.ts]: [sendCurrentFileInfo] *)

Record FileRef := mkFileRef {
  refFilePath : string;
  refRelativePath : string
}.

Record CurrentFileInfo := mkCurrentFileInfo {
  infoFilePath : string;
  infoRelativePath : string;
  infoImports : list FileRef;
  infoImportedBy : list FileRef;
  infoMetrics : FileMetrics
}.

(** [{ filePath: p, relativePath: n?.relativePath || p }] *)
Definition fileRefOf (g : ImportGraph) (p : string) : FileRef :=
  mkFileRef p
    (match truthy (option_map relativePath (getNode g p)) with
     | Some rel => rel
     | None => p
     end).

(** The [data] of the message that [sendCurrentFileInfo] posts once a view
    is attached; [None] is [data: null]. *)
Definition currentFileInfo (g : ImportGraph) (currentFilePath : option string)
  : option CurrentFileInfo :=
  match truthy currentFilePath with
  | None => None
  | Some path =>
      match getNode g path with
      | None => None
      | Some node =>
          Some (mkCurrentFileInfo path (relativePath node)
                  (map (fileRefOf g) (imports node))
                  (map (fileRefOf g) (importedBy node))
                  (metrics node))
      end
  end.

(* ================================================================= *)
(** ** [analyzers/navigationAnalyzer.ts]: [deduplicateRoutes] *)

Inductive RouteType : Type :=
| RouteScreen | RoutePage | RouteLayout | RouteNavigator | RouteRoute.

Unset Elimination Schemes.
Inductive NavigationRoute : Type :=
| mkNavigationRoute (name : string) (file : option string) (type : RouteType)
                    (children : option (list NavigationRoute)).
Set Elimination Schemes.

Definition routeName (r : NavigationRoute) : string :=
  match r with mkNavigationRoute name _ _ _ => name end.

Definition routeFilePath (r : NavigationRoute) : option string :=
  match r with mkNavigationRoute _ file _ _ => file end.

(** [route.name + (route.filePath || '')] *)
Definition routeKey (r : NavigationRoute) : string :=
  (routeName r ++ match truthy (routeFilePath r) with
                  | Some file => file
                  | None => EmptyString
                  end)%string.

(** The filter of [deduplicateRoutes], with the set [seen] it threads. *)
Fixpoint deduplicateFrom (seen : list string) (routes : list NavigationRoute)
  : list NavigationRoute :=
  match routes with
  | [] => []
  | route :: rest =>
      if includes (routeKey route) seen then deduplicateFrom seen rest
      else route :: deduplicateFrom (JsSet.add (routeKey route) seen) rest
  end.

Definition deduplicateRoutes (routes : list NavigationRoute) : list NavigationRoute :=
  deduplicateFrom [] routes.

(** The first route filed under [key]. *)
Definition firstWithKey (key : string) (routes : list NavigationRoute)
  : option NavigationRoute :=
  find (fun r => String.eqb (routeKey r) key) routes.

(* ================================================================= *)
(** ** [analyzers/entryPointFinder.ts]: entry file probing *)

Definition entryExtensions : list string := [".tsx"; ".ts"; ".jsx"; ".js"].

Definition resolveEntryFile (h : Host) (root entryPath : string) : option string :=
  let fullPath := path_join h root entryPath in
  if existsSync h fullPath then Some fullPath
  else firstSome (fun ext =>
         let withExt := (fullPath ++ ext)%string in
         if existsSync h withExt then Some withExt else None) entryExtensions.

Definition findFirstExisting (h : Host) (candidates : list string) : option string :=
  firstSome (fun p => if existsSync h p then Some p else None) candidates.

(* ################################################################# *)
(** * Properties *)

(* ================================================================= *)
(** ** Facts about the store *)

Module JsMapFacts.
Section Facts.
Context {V : Type}.
Implicit Types (m : JsMap.t V) (k : string).

Lemma get_set k k' v m :
  JsMap.get k' (JsMap.set k v m) =
  if String.eqb k k' then Some v else JsMap.get k' m.
Proof.
  induction m as [|[k0 v0] m IH]; simpl.
  - reflexivity.
  - destruct (String.eqb_spec k0 k) as [->|Hk0]; simpl.
    + destruct (String.eqb k k'); reflexivity.
    + rewrite IH. destruct (String.eqb_spec k0 k') as [->|]; [|reflexivity].
      destruct (String.eqb_spec k k'); [congruence|reflexivity].
Qed.

Lemma get_delete k k' m :
  JsMap.get k' (JsMap.delete k m) =
  if String.eqb k k' then None else JsMap.get k' m.
Proof.
  unfold JsMap.delete.
  induction m as [|[k0 v0] m IH]; simpl.
  - destruct (String.eqb k k'); reflexivity.
  - destruct (String.eqb_spec k0 k) as [->|Hk0]; simpl.
    + rewrite IH. destruct (String.eqb k k'); reflexivity.
    + rewrite IH. destruct (String.eqb_spec k0 k') as [->|]; [|reflexivity].
      destruct (String.eqb_spec k k'); [congruence|reflexivity].
Qed.

Lemma get_modify k k' f m :
  JsMap.get k' (JsMap.modify k f m) =
  if String.eqb k k' then option_map f (JsMap.get k' m) else JsMap.get k' m.
Proof.
  unfold JsMap.modify.
  induction m as [|[k0 v0] m IH]; simpl.
  - destruct (String.eqb k k'); reflexivity.
  - destruct (String.eqb_spec k0 k) as [->|Hk0]; simpl.
    + destruct (String.eqb_spec k k') as [->|]; [reflexivity|exact IH].
    + destruct (String.eqb_spec k0 k') as [->|].
      * destruct (String.eqb_spec k k'); [congruence|reflexivity].
      * exact IH.
Qed.

Lemma keys_modify k f m : JsMap.keys (JsMap.modify k f m) = JsMap.keys m.
Proof.
  unfold JsMap.keys, JsMap.modify. rewrite map_map. apply map_ext.
  intros [k0 v0]; simpl. destruct (String.eqb k0 k); reflexivity.
Qed.

Lemma get_None_keys k m : JsMap.get k m = None <-> ~ In k (JsMap.keys m).
Proof.
  induction m as [|[k0 v0] m IH]; simpl.
  - tauto.
  - destruct (String.eqb_spec k0 k) as [->|Hk0].
    + split; [discriminate|intros H; exfalso; apply H; now left].
    + rewrite IH. tauto.
Qed.

Lemma get_Some_In k v m : JsMap.get k m = Some v -> In (k, v) m.
Proof.
  induction m as [|[k0 v0] m IH]; simpl; [discriminate|].
  destruct (String.eqb_spec k0 k) as [->|Hk0].
  - intros [= ->]. now left.
  - intros H. right. auto.
Qed.

Lemma In_get k v m :
  NoDup (JsMap.keys m) -> In (k, v) m -> JsMap.get k m = Some v.
Proof.
  induction m as [|[k0 v0] m IH]; simpl; [tauto|].
  intros Hnd [[= -> ->]|Hin].
  - now rewrite String.eqb_refl.
  - inversion Hnd as [|? ? Hk0 Hnd']; subst.
    destruct (String.eqb_spec k0 k) as [->|_]; [|auto].
    exfalso. apply Hk0. change k with (fst (k, v)). now apply in_map.
Qed.

Lemma keys_set_absent k v m :
  JsMap.get k m = None -> JsMap.keys (JsMap.set k v m) = JsMap.keys m ++ [k].
Proof.
  induction m as [|[k0 v0] m IH]; simpl; [reflexivity|].
  destruct (String.eqb_spec k0 k) as [->|_]; [discriminate|].
  intros H. simpl. now rewrite IH.
Qed.

Lemma keys_delete k m :
  JsMap.keys (JsMap.delete k m) = filter (fun p => negb (String.eqb p k)) (JsMap.keys m).
Proof.
  unfold JsMap.keys, JsMap.delete.
  induction m as [|[k0 v0] m IH]; simpl; [reflexivity|].
  destruct (String.eqb k0 k); simpl; now rewrite IH.
Qed.

End Facts.
End JsMapFacts.

(* ================================================================= *)
(** ** Facts about the graph operations *)

Lemma In_without x y l : In y (without x l) <-> In y l /\ y <> x.
Proof.
  unfold without. rewrite filter_In.
  destruct (String.eqb_spec y x); simpl; intuition congruence.
Qed.

Lemma without_idem x l : without x (without x l) = without x l.
Proof.
  unfold without. induction l as [|a l IH]; simpl; [reflexivity|].
  destruct (String.eqb a x) eqn:E; simpl; [exact IH|].
  rewrite E. simpl. now rewrite IH.
Qed.

Lemma without_notin x l : ~ In x l -> without x l = l.
Proof.
  unfold without. induction l as [|a l IH]; simpl; [reflexivity|].
  intros H. destruct (String.eqb_spec a x) as [->|_]; simpl.
  - exfalso. apply H. now left.
  - rewrite IH; [reflexivity|tauto].
Qed.

Lemma includes_In x l : includes x l = true <-> In x l.
Proof.
  unfold includes. rewrite existsb_exists. split.
  - intros (y & Hy & E). apply String.eqb_eq in E. now subst.
  - intros H. exists x. split; [assumption|apply String.eqb_refl].
Qed.

Lemma includes_false x l : includes x l = false <-> ~ In x l.
Proof.
  rewrite <- includes_In. destruct (includes x l); intuition congruence.
Qed.

Lemma getNode_modifyNode g k f p :
  getNode (modifyNode g k f) p =
  if String.eqb k p then option_map f (getNode g p) else getNode g p.
Proof. unfold getNode, modifyNode; simpl. apply JsMapFacts.get_modify. Qed.

Lemma getNode_addNode g k p :
  getNode (addNode g k) p =
  if String.eqb k p
  then match getNode g p with
       | Some n => Some n
       | None => Some (mkFileNode k (getRelativePath g k) [] [] initialMetrics)
       end
  else getNode g p.
Proof.
  unfold addNode, JsMap.has, getNode.
  destruct (JsMap.get k (nodes g)) eqn:E.
  - destruct (String.eqb_spec k p) as [<-|]; [now rewrite E|reflexivity].
  - simpl. rewrite JsMapFacts.get_set.
    destruct (String.eqb_spec k p) as [<-|]; [now rewrite E|reflexivity].
Qed.

Lemma workspaceRoot_modifyNode g k f :
  workspaceRoot (modifyNode g k f) = workspaceRoot g.
Proof. reflexivity. Qed.

Lemma workspaceRoot_addNode g k : workspaceRoot (addNode g k) = workspaceRoot g.
Proof. unfold addNode. destruct (JsMap.has k (nodes g)); reflexivity. Qed.

Lemma getNode_scrubImportedBy x l : forall g p,
  getNode (scrubImportedBy x l g) p =
  option_map (fun n => if includes p l
                       then set_importedBy n (without x (importedBy n))
                       else n) (getNode g p).
Proof.
  unfold scrubImportedBy.
  induction l as [|a l IH]; intros g p; simpl.
  - destruct (getNode g p); reflexivity.
  - rewrite IH, getNode_modifyNode. rewrite (String.eqb_sym p a).
    destruct (String.eqb a p); simpl; [|reflexivity].
    destruct (getNode g p) as [n|]; simpl; [|reflexivity].
    destruct (includes p l); [|reflexivity].
    unfold set_importedBy; simpl. now rewrite without_idem.
Qed.

Lemma getNode_scrubImports x l : forall g p,
  getNode (scrubImports x l g) p =
  option_map (fun n => if includes p l
                       then set_imports n (without x (imports n))
                       else n) (getNode g p).
Proof.
  unfold scrubImports.
  induction l as [|a l IH]; intros g p; simpl.
  - destruct (getNode g p); reflexivity.
  - rewrite IH, getNode_modifyNode. rewrite (String.eqb_sym p a).
    destruct (String.eqb a p); simpl; [|reflexivity].
    destruct (getNode g p) as [n|]; simpl; [|reflexivity].
    destruct (includes p l); [|reflexivity].
    unfold set_imports; simpl. now rewrite without_idem.
Qed.

(* ================================================================= *)
(** ** Edge symmetry *)

Lemma importsOf_modifyNode g k f p :
  importsOf (modifyNode g k f) p =
  if String.eqb k p
  then match getNode g p with Some n => imports (f n) | None => [] end
  else importsOf g p.
Proof.
  unfold importsOf. rewrite getNode_modifyNode.
  destruct (String.eqb k p); [|reflexivity].
  destruct (getNode g p); reflexivity.
Qed.

Lemma importedByOf_modifyNode g k f p :
  importedByOf (modifyNode g k f) p =
  if String.eqb k p
  then match getNode g p with Some n => importedBy (f n) | None => [] end
  else importedByOf g p.
Proof.
  unfold importedByOf. rewrite getNode_modifyNode.
  destruct (String.eqb k p); [|reflexivity].
  destruct (getNode g p); reflexivity.
Qed.

Lemma importsOf_addNode g k p : importsOf (addNode g k) p = importsOf g p.
Proof.
  unfold importsOf. rewrite getNode_addNode.
  destruct (String.eqb k p); [|reflexivity].
  destruct (getNode g p); reflexivity.
Qed.

Lemma importedByOf_addNode g k p : importedByOf (addNode g k) p = importedByOf g p.
Proof.
  unfold importedByOf. rewrite getNode_addNode.
  destruct (String.eqb k p); [|reflexivity].
  destruct (getNode g p); reflexivity.
Qed.

Lemma getNode_addNode_same g k : exists n, getNode (addNode g k) k = Some n.
Proof.
  rewrite getNode_addNode, String.eqb_refl.
  destruct (getNode g k); eauto.
Qed.

Lemma getNode_addNode_keeps g k p n :
  getNode g p = Some n -> getNode (addNode g k) p = Some n.
Proof.
  intros H. rewrite getNode_addNode, H. destruct (String.eqb k p); reflexivity.
Qed.

Lemma In_push_unless (x y : string) l :
  In y (if includes x l then l else l ++ [x]) <-> In y l \/ y = x.
Proof.
  destruct (includes x l) eqn:E.
  - apply includes_In in E. split; [tauto|]. intros [H| ->]; assumption.
  - rewrite in_app_iff. simpl. intuition.
Qed.

Lemma importsOf_addEdge g a b x y :
  In y (importsOf (addEdge g a b) x) <->
  In y (importsOf g x) \/ (x = a /\ y = b).
Proof.
  unfold addEdge.
  rewrite importsOf_modifyNode.
  assert (Hkeep : forall n : FileNode,
    imports (if includes a (importedBy n) then n
             else set_importedBy n (importedBy n ++ [a])) = imports n).
  { intros n. destruct (includes a (importedBy n)); reflexivity. }
  assert (Hsecond : forall g0,
    (if String.eqb b x
     then match getNode g0 x with
          | Some n => imports (if includes a (importedBy n) then n
                               else set_importedBy n (importedBy n ++ [a]))
          | None => []
          end
     else importsOf g0 x) = importsOf g0 x).
  { intros g0. unfold importsOf. destruct (String.eqb b x); [|reflexivity].
    destruct (getNode g0 x); [apply Hkeep|reflexivity]. }
  rewrite Hsecond, importsOf_modifyNode.
  destruct (String.eqb_spec a x) as [<-|Hne].
  - destruct (getNode_addNode_same g a) as [n Hn].
    rewrite (getNode_addNode_keeps _ b _ _ Hn).
    assert (Hi : imports n = importsOf g a).
    { rewrite <- (importsOf_addNode g a a). unfold importsOf. now rewrite Hn. }
    assert (E : imports (if includes b (imports n) then n
                         else set_imports n (imports n ++ [b]))
                = if includes b (imports n) then imports n else imports n ++ [b]).
    { destruct (includes b (imports n)); reflexivity. }
    rewrite E, In_push_unless, Hi. intuition.
  - rewrite !importsOf_addNode. intuition congruence.
Qed.

Lemma importedByOf_addEdge g a b x y :
  In x (importedByOf (addEdge g a b) y) <->
  In x (importedByOf g y) \/ (x = a /\ y = b).
Proof.
  unfold addEdge.
  rewrite importedByOf_modifyNode.
  set (g2 := addNode (addNode g a) b).
  set (fpush := fun importer : FileNode =>
                  if includes b (imports importer) then importer
                  else set_imports importer (imports importer ++ [b])).
  assert (Hkeep : forall n, importedBy (fpush n) = importedBy n).
  { intros n. unfold fpush. destruct (includes b (imports n)); reflexivity. }
  assert (Hget : forall p, importedByOf (modifyNode g2 a fpush) p = importedByOf g p).
  { intros p. rewrite importedByOf_modifyNode.
    assert (E : match getNode g2 p with
                | Some n => importedBy (fpush n) | None => [] end
                = importedByOf g2 p).
    { unfold importedByOf. destruct (getNode g2 p); [apply Hkeep|reflexivity]. }
    rewrite E. unfold g2. rewrite !importedByOf_addNode.
    destruct (String.eqb a p); reflexivity. }
  destruct (String.eqb_spec b y) as [<-|Hne].
  - destruct (getNode_addNode_same (addNode g a) b) as [n Hn].
    fold g2 in Hn.
    assert (Hn' : getNode (modifyNode g2 a fpush) b = Some (if String.eqb a b then fpush n else n)).
    { rewrite getNode_modifyNode, Hn. destruct (String.eqb a b); reflexivity. }
    rewrite Hn'.
    assert (Hi : importedBy (if String.eqb a b then fpush n else n) = importedByOf g b).
    { rewrite <- Hget. unfold importedByOf. now rewrite Hn'. }
    set (m := if String.eqb a b then fpush n else n) in *.
    assert (E : importedBy (if includes a (importedBy m) then m
                            else set_importedBy m (importedBy m ++ [a]))
                = if includes a (importedBy m) then importedBy m
                  else importedBy m ++ [a]).
    { destruct (includes a (importedBy m)); reflexivity. }
    rewrite E, In_push_unless, Hi. intuition.
  - fold (importedByOf (modifyNode g2 a fpush) y). rewrite Hget.
    intuition congruence.
Qed.

Lemma edgeSymmetric_new root : edgeSymmetric (new_ImportGraph root).
Proof. intros a b. unfold importsOf, importedByOf; simpl. tauto. Qed.

Lemma edgeSymmetric_addEdge g a b :
  edgeSymmetric g -> edgeSymmetric (addEdge g a b).
Proof.
  intros H x y. rewrite importsOf_addEdge, importedByOf_addEdge, (H x y). tauto.
Qed.

Lemma importsOf_scrubImportedBy x l g p :
  importsOf (scrubImportedBy x l g) p = importsOf g p.
Proof.
  unfold importsOf. rewrite getNode_scrubImportedBy.
  destruct (getNode g p); simpl; [|reflexivity].
  destruct (includes p l); reflexivity.
Qed.

Lemma importedByOf_scrubImportedBy x l g p :
  importedByOf (scrubImportedBy x l g) p =
  if includes p l then without x (importedByOf g p) else importedByOf g p.
Proof.
  unfold importedByOf. rewrite getNode_scrubImportedBy.
  destruct (getNode g p); simpl; destruct (includes p l); reflexivity.
Qed.

Lemma importsOf_scrubImports x l g p :
  importsOf (scrubImports x l g) p =
  if includes p l then without x (importsOf g p) else importsOf g p.
Proof.
  unfold importsOf. rewrite getNode_scrubImports.
  destruct (getNode g p); simpl; destruct (includes p l); reflexivity.
Qed.

Lemma importedByOf_scrubImports x l g p :
  importedByOf (scrubImports x l g) p = importedByOf g p.
Proof.
  unfold importedByOf. rewrite getNode_scrubImports.
  destruct (getNode g p); simpl; [|reflexivity].
  destruct (includes p l); reflexivity.
Qed.

Lemma getNode_delete g x p :
  getNode (with_nodes g (JsMap.delete x (nodes g))) p =
  if String.eqb x p then None else getNode g p.
Proof. unfold getNode; simpl. apply JsMapFacts.get_delete. Qed.

Lemma importsOf_clearEdgesFor g x p :
  importsOf (clearEdgesFor g x) p = if String.eqb x p then [] else importsOf g p.
Proof.
  unfold clearEdgesFor. destruct (getNode g x) as [node|] eqn:E.
  - rewrite importsOf_modifyNode, importsOf_scrubImportedBy.
    destruct (String.eqb x p); [|reflexivity].
    destruct (getNode _ p); reflexivity.
  - destruct (String.eqb_spec x p) as [<-|]; [|reflexivity].
    unfold importsOf. now rewrite E.
Qed.

Lemma importedByOf_clearEdgesFor g x q :
  importedByOf (clearEdgesFor g x) q =
  if includes q (importsOf g x) then without x (importedByOf g q)
  else importedByOf g q.
Proof.
  unfold clearEdgesFor, importsOf at 1. destruct (getNode g x) as [node|] eqn:E.
  - rewrite importedByOf_modifyNode.
    assert (H : match getNode (scrubImportedBy x (imports node) g) q with
                | Some n => importedBy (set_imports n []) | None => [] end
                = importedByOf (scrubImportedBy x (imports node) g) q).
    { unfold importedByOf. destruct (getNode _ q); reflexivity. }
    rewrite H. destruct (String.eqb x q); apply importedByOf_scrubImportedBy.
  - reflexivity.
Qed.

(** The incoming list that the second loop of [removeNode] walks. *)
Lemma importsOf_removeNode g x p :
  importsOf (removeNode g x) p =
  if String.eqb x p then []
  else if includes p (importedByOf (scrubImportedBy x (importsOf g x) g) x)
       then without x (importsOf g p) else importsOf g p.
Proof.
  unfold removeNode. destruct (getNode g x) as [node|] eqn:E.
  - assert (HI : importsOf g x = imports node) by (unfold importsOf; now rewrite E).
    rewrite HI.
    fold (importedByOf (scrubImportedBy x (imports node) g) x).
    unfold importsOf at 1. rewrite getNode_delete.
    destruct (String.eqb x p); [reflexivity|].
    fold (importsOf (scrubImports x (importedByOf (scrubImportedBy x (imports node) g) x)
                       (scrubImportedBy x (imports node) g)) p).
    now rewrite importsOf_scrubImports, importsOf_scrubImportedBy.
  - assert (HI : importsOf g x = []) by (unfold importsOf; now rewrite E).
    rewrite HI. simpl.
    assert (HJ : importedByOf g x = []) by (unfold importedByOf; now rewrite E).
    rewrite HJ. simpl.
    destruct (String.eqb_spec x p) as [<-|]; [exact HI|reflexivity].
Qed.

Lemma importedByOf_removeNode g x q :
  importedByOf (removeNode g x) q =
  if String.eqb x q then []
  else if includes q (importsOf g x)
       then without x (importedByOf g q) else importedByOf g q.
Proof.
  unfold removeNode. destruct (getNode g x) as [node|] eqn:E.
  - assert (HI : importsOf g x = imports node) by (unfold importsOf; now rewrite E).
    rewrite HI.
    fold (importedByOf (scrubImportedBy x (imports node) g) x).
    unfold importedByOf at 1. rewrite getNode_delete.
    destruct (String.eqb x q); [reflexivity|].
    fold (importedByOf (scrubImports x (importedByOf (scrubImportedBy x (imports node) g) x)
                       (scrubImportedBy x (imports node) g)) q).
    now rewrite importedByOf_scrubImports, importedByOf_scrubImportedBy.
  - assert (HI : importsOf g x = []) by (unfold importsOf; now rewrite E).
    rewrite HI. simpl.
    destruct (String.eqb_spec x q) as [<-|]; [|reflexivity].
    unfold importedByOf. now rewrite E.
Qed.

Lemma edgeSymmetric_clearEdgesFor g x :
  edgeSymmetric g -> edgeSymmetric (clearEdgesFor g x).
Proof.
  intros H p q.
  rewrite importsOf_clearEdgesFor, importedByOf_clearEdgesFor.
  destruct (String.eqb_spec x p) as [<-|Hne].
  - split; [intros []|].
    destruct (includes q (importsOf g x)) eqn:E.
    + rewrite In_without. tauto.
    + apply includes_false in E. intros Hin. apply E. now apply H.
  - destruct (includes q (importsOf g x)).
    + rewrite In_without, (H p q). intuition congruence.
    + apply H.
Qed.

Lemma edgeSymmetric_removeNode g x :
  edgeSymmetric g -> edgeSymmetric (removeNode g x).
Proof.
  intros H p q.
  rewrite importsOf_removeNode, importedByOf_removeNode.
  destruct (String.eqb_spec x p) as [<-|Hp].
  - split; [intros []|].
    destruct (String.eqb x q); [intros []|].
    destruct (includes q (importsOf g x)) eqn:E.
    + rewrite In_without. tauto.
    + apply includes_false in E. intros Hin. apply E. now apply H.
  - destruct (String.eqb_spec x q) as [<-|Hq].
    + split; [|intros []].
      rewrite importedByOf_scrubImportedBy.
      match goal with |- context [includes p ?l] => destruct (includes p l) eqn:E end.
      * rewrite In_without. tauto.
      * apply includes_false in E. intros Hin. apply E.
        apply H in Hin.
        destruct (includes x (importsOf g x)); [|assumption].
        apply In_without. split; [assumption|congruence].
    + assert (L : In q (if includes p (importedByOf (scrubImportedBy x (importsOf g x) g) x)
                        then without x (importsOf g p) else importsOf g p)
                  <-> In q (importsOf g p)).
      { match goal with |- context [includes p ?l] => destruct (includes p l) end.
        - rewrite In_without. intuition congruence.
        - tauto. }
      assert (R : In p (if includes q (importsOf g x)
                        then without x (importedByOf g q) else importedByOf g q)
                  <-> In p (importedByOf g q)).
      { destruct (includes q (importsOf g x)).
        - rewrite In_without. intuition congruence.
        - tauto. }
      rewrite L, R. apply H.
Qed.

Lemma edgeSymmetric_runOps ops : forall g,
  edgeSymmetric g -> edgeSymmetric (runOps ops g).
Proof.
  unfold runOps.
  induction ops as [|op ops IH]; intros g H; simpl; [assumption|].
  apply IH. destruct op; simpl.
  - now apply edgeSymmetric_addEdge.
  - now apply edgeSymmetric_removeNode.
  - now apply edgeSymmetric_clearEdgesFor.
Qed.

(** C1.  Edge symmetry: starting from the empty graph, after every sequence
    of [addEdge], [removeNode] and [clearEdgesFor] calls, and for every two
    paths A and B, B is in the [imports] list of the node A exactly when A is
    in the [importedBy] list of the node B. *)
Theorem C1_edge_symmetry (root : string) (ops : list GraphOp) (a b : string) :
  let g := runOps ops (new_ImportGraph root) in
  (exists nodeA, getNode g a = Some nodeA /\ In b (imports nodeA)) <->
  (exists nodeB, getNode g b = Some nodeB /\ In a (importedBy nodeB)).
Proof.
  intros g.
  assert (H : edgeSymmetric g)
    by (apply edgeSymmetric_runOps, edgeSymmetric_new).
  specialize (H a b). unfold importsOf, importedByOf in H.
  split.
  - intros (n & Hn & Hin). rewrite Hn in H. apply H in Hin.
    destruct (getNode g b) as [m|]; [eauto|destruct Hin].
  - intros (m & Hm & Hin). rewrite Hm in H. apply H in Hin.
    destruct (getNode g a) as [n|]; [eauto|destruct Hin].
Qed.

(* ================================================================= *)
(** ** [calculateMetrics] *)

Lemma nodes_calculateMetrics g :
  nodes (calculateMetrics g) =
  map (fun kv => (fst kv, set_metrics (snd kv)
                            (computeMetrics (maxInDegreeOf (getAllNodes g)) (snd kv))))
      (nodes g).
Proof. reflexivity. Qed.

Lemma getAllNodes_calculateMetrics g :
  getAllNodes (calculateMetrics g) =
  map (fun n => set_metrics n (computeMetrics (maxInDegreeOf (getAllNodes g)) n))
      (getAllNodes g).
Proof.
  unfold getAllNodes, JsMap.values. rewrite nodes_calculateMetrics, !map_map.
  reflexivity.
Qed.

Lemma getNode_calculateMetrics g p :
  getNode (calculateMetrics g) p =
  option_map (fun n => set_metrics n (computeMetrics (maxInDegreeOf (getAllNodes g)) n))
             (getNode g p).
Proof.
  unfold getNode. rewrite nodes_calculateMetrics.
  induction (nodes g) as [|[k v] m IH]; simpl; [reflexivity|].
  destruct (String.eqb k p); [reflexivity|exact IH].
Qed.

Lemma maxInDegreeOf_calculateMetrics g :
  maxInDegreeOf (getAllNodes (calculateMetrics g)) = maxInDegreeOf (getAllNodes g).
Proof.
  rewrite getAllNodes_calculateMetrics. unfold maxInDegreeOf.
  rewrite map_map. reflexivity.
Qed.

Lemma maxInDegreeOf_ge_1 ns : 1 <= maxInDegreeOf ns.
Proof.
  unfold maxInDegreeOf. induction ns as [|n ns IH]; simpl; lia.
Qed.

Lemma maxInDegreeOf_upper ns n :
  In n ns -> List.length (importedBy n) <= maxInDegreeOf ns.
Proof.
  unfold maxInDegreeOf. induction ns as [|m ns IH]; simpl; [tauto|].
  intros [->|H]; [lia|]. specialize (IH H). lia.
Qed.

Lemma maxInDegreeOf_attained ns :
  maxInDegreeOf ns = 1 \/
  exists n, In n ns /\ List.length (importedBy n) = maxInDegreeOf ns.
Proof.
  unfold maxInDegreeOf. induction ns as [|m ns IH]; simpl; [now left|].
  destruct (Nat.max_spec (List.length (importedBy m))
              (fold_right Nat.max 1 (map (fun n => List.length (importedBy n)) ns)))
    as [[_ E]|[_ E]]; rewrite E.
  - destruct IH as [IH|(n & Hn & En)]; [now left|right; eauto].
  - right. exists m. split; [now left|reflexivity].
Qed.

(** Every node carries the metrics of the current edge lists after
    [calculateMetrics]. *)
Lemma calculateMetrics_current g n :
  In n (getAllNodes (calculateMetrics g)) -> metricsCurrent (calculateMetrics g) n.
Proof.
  unfold metricsCurrent. rewrite maxInDegreeOf_calculateMetrics.
  rewrite getAllNodes_calculateMetrics, in_map_iff.
  intros (n0 & <- & _). reflexivity.
Qed.

Lemma getNode_In_getAllNodes g p n : getNode g p = Some n -> In n (getAllNodes g).
Proof.
  intros H. apply JsMapFacts.get_Some_In in H.
  unfold getAllNodes, JsMap.values. change n with (snd (p, n)). now apply in_map.
Qed.

(** The degree part of the postcondition: in- and out-degree are the list
    lengths, a leaf is a node nobody imports, and load-bearing starts at
    five importers. *)
Lemma metricsCurrent_degrees g n :
  metricsCurrent g n ->
  inDegree (metrics n) = List.length (importedBy n) /\
  outDegree (metrics n) = List.length (imports n) /\
  (isLeaf (metrics n) = true <-> inDegree (metrics n) = 0) /\
  (isLoadBearing (metrics n) = true <-> 5 <= inDegree (metrics n)) /\
  importanceScore (metrics n) =
    JsNumber.Math_round
      (JsNumber.mul
         (JsNumber.div (JsNumber.of_nat (inDegree (metrics n)))
                       (JsNumber.of_nat (maxInDegreeOf (getAllNodes g))))
         (JsNumber.of_Z 100)).
Proof.
  unfold metricsCurrent. intros ->. unfold computeMetrics.
  cbn [inDegree outDegree isLeaf isLoadBearing importanceScore].
  repeat split; try reflexivity;
    try apply Nat.eqb_eq; try apply Nat.leb_le.
Qed.

Lemma loadBearing_threshold g n4 n5 :
  metricsCurrent g n4 -> metricsCurrent g n5 ->
  List.length (importedBy n4) = 4 -> List.length (importedBy n5) = 5 ->
  isLoadBearing (metrics n4) = false /\ isLoadBearing (metrics n5) = true.
Proof.
  unfold metricsCurrent. intros -> -> H4 H5. unfold computeMetrics.
  cbn [isLoadBearing]. now rewrite H4, H5.
Qed.

(** *** Array lengths as binary64 numbers

    An array length is below [2^32], so its conversion is exact: a positive
    length is a positive finite number. *)

Lemma digits2_pos_size p : digits2_pos p = Pos.size p.
Proof. induction p as [p IH|p IH|]; simpl; congruence. Qed.

Lemma digits2_pos_bound p : (Z.pos p < 2 ^ 53)%Z -> (Z.pos (digits2_pos p) <= 53)%Z.
Proof.
  intros Hp. rewrite digits2_pos_size.
  destruct (Z.le_gt_cases (Z.pos (Pos.size p)) 53) as [H|H]; [exact H|exfalso].
  pose proof (Pos.size_le p) as Hs.
  assert (Hpow : (2 ^ 54 <= 2 ^ Z.pos (Pos.size p))%Z)
    by (apply Z.pow_le_mono_r; lia).
  assert (Hz : (2 ^ Z.pos (Pos.size p) <= Z.pos p~0)%Z).
  { rewrite <- Pos2Z.inj_pow. apply Pos2Z.pos_le_pos. exact Hs. }
  change (2 ^ 54)%Z with (2 * 2 ^ 53)%Z in Hpow. lia.
Qed.

Lemma digits2_iter_xO p k :
  Z.pos (digits2_pos (Pos.iter xO p k)) = (Z.pos (digits2_pos p) + Z.pos k)%Z.
Proof.
  induction k as [|k IH] using Pos.peano_ind.
  - simpl. lia.
  - rewrite Pos.iter_succ. simpl. lia.
Qed.

Lemma shr_zero mrs e n : n = 0%Z -> shr mrs e n = (mrs, e).
Proof. now intros ->. Qed.

Lemma binary_round_aux_exact mz ez :
  Z.pos (digits2_pos mz) = 53%Z -> (-52 <= ez <= 0)%Z ->
  binary_round_aux JsNumber.prec JsNumber.emax false (Z.pos mz) ez loc_Exact
  = S754_finite false mz ez.
Proof.
  intros Hmz Hez.
  assert (E : (fexp JsNumber.prec JsNumber.emax (Z.pos (digits2_pos mz) + ez) - ez
               = 0)%Z).
  { rewrite Hmz. unfold fexp, emin, JsNumber.prec, JsNumber.emax. lia. }
  unfold binary_round_aux, shr_fexp.
  rewrite (shr_zero _ _ _ E). cbn -[fexp Z.sub Z.add Z.leb].
  rewrite (shr_zero _ _ _ E). cbn -[fexp Z.sub Z.add Z.leb].
  destruct (Z.leb_spec ez (JsNumber.emax - JsNumber.prec)) as [_|H]; [reflexivity|].
  unfold JsNumber.prec, JsNumber.emax in H. lia.
Qed.

Lemma of_Z_pos_finite p :
  (Z.pos p < 2 ^ 53)%Z ->
  exists m e, JsNumber.of_Z (Z.pos p) = S754_finite false m e.
Proof.
  intros Hp. apply digits2_pos_bound in Hp.
  unfold JsNumber.of_Z, binary_normalize, binary_round.
  set (d := Z.pos (digits2_pos p)) in *.
  assert (Hd1 : (1 <= d)%Z) by (unfold d; lia).
  assert (Hfexp : fexp JsNumber.prec JsNumber.emax (d + 0) = (d - 53)%Z).
  { unfold fexp, emin, JsNumber.prec, JsNumber.emax. lia. }
  replace (fexp JsNumber.prec JsNumber.emax (Z.add d 0)) with (d - 53)%Z
    by (symmetry; exact Hfexp).
  unfold shl_align.
  destruct (d - 53 - 0)%Z as [|k|k] eqn:Ek.
  - exists p, 0%Z. apply binary_round_aux_exact; [fold d|]; lia.
  - lia.
  - exists (Pos.iter xO p k), (d - 53)%Z. apply binary_round_aux_exact.
    + rewrite digits2_iter_xO. fold d. lia.
    + lia.
Qed.

(** A node that nobody imports scores [+0]: the quotient is [0 / max] with
    [max >= 1], never [0 / 0]. *)
Lemma score_of_unimported maxInDegree :
  1 <= maxInDegree -> (Z.of_nat maxInDegree < 2 ^ 53)%Z ->
  JsNumber.Math_round
    (JsNumber.mul (JsNumber.div (JsNumber.of_nat 0) (JsNumber.of_nat maxInDegree))
                  (JsNumber.of_Z 100))
  = S754_zero false.
Proof.
  intros H1 Hb. unfold JsNumber.of_nat.
  destruct (Z.of_nat maxInDegree) as [|p|p] eqn:E; try lia.
  destruct (of_Z_pos_finite p Hb) as (m & e & ->).
  reflexivity.
Qed.

Lemma calculateMetrics_unimported g n :
  (Z.of_nat (maxInDegreeOf (getAllNodes g)) < 2 ^ 53)%Z ->
  In n (getAllNodes (calculateMetrics g)) ->
  importedBy n = [] ->
  importanceScore (metrics n) = S754_zero false
  /\ JsNumber.is_nan (importanceScore (metrics n)) = false.
Proof.
  intros Hb Hin Hnil.
  pose proof (calculateMetrics_current g n Hin) as Hcur.
  unfold metricsCurrent in Hcur. rewrite maxInDegreeOf_calculateMetrics in Hcur.
  rewrite Hcur. unfold computeMetrics. cbn [importanceScore]. rewrite Hnil.
  change (List.length (@nil string)) with 0.
  rewrite (score_of_unimported _ (maxInDegreeOf_ge_1 _) Hb). split; reflexivity.
Qed.

Lemma sameNumber_eq x y : sameNumber x y = true -> x = y.
Proof.
  destruct x as [s|s| |s m e], y as [s'|s'| |s' m' e']; simpl; try discriminate.
  - now intros ->%Bool.eqb_prop.
  - now intros ->%Bool.eqb_prop.
  - reflexivity.
  - intros H. apply andb_true_iff in H. destruct H as [H He].
    apply andb_true_iff in H. destruct H as [Hs Hm].
    apply Bool.eqb_prop in Hs. apply Pos.eqb_eq in Hm. apply Z.eqb_eq in He.
    now subst.
Qed.

Lemma importanceScore_computeMetrics maxInDegree n :
  importanceScore (computeMetrics maxInDegree n)
  = scoreOf (List.length (importedBy n)) maxInDegree.
Proof. reflexivity. Qed.

(** While the maximum in-degree is below 40 the stored score is the
    specified one; 23 of 40 is the first pair on which they differ. *)
Lemma score_agrees_below_40 inDeg maxInDeg :
  inDeg <= maxInDeg -> 1 <= maxInDeg -> maxInDeg < 40 ->
  scoreOf inDeg maxInDeg = JsNumber.of_Z (spec_importanceScore inDeg maxInDeg).
Proof.
  intros Ha H1 H40.
  assert (H : scoresAgreeUpTo 39 = true) by (vm_compute; reflexivity).
  unfold scoresAgreeUpTo in H. rewrite forallb_forall in H.
  specialize (H maxInDeg). rewrite forallb_forall in H.
  apply sameNumber_eq, H; apply in_seq; lia.
Qed.

(** C2.  The importance score is computed in binary64 as
    [Math.round((inDegree / maxInDegree) * 100)].  With forty importers of one
    file and twenty-three of another, the quotient [23/40] rounds below
    [0.575] and the product below [57.5], so the score is 57 where
    [round(100 * 23 / 40)] is 58; with eight and one, [12.5] is exact and the
    score is 13.  The degree fields are as the specification states. *)
Theorem C2_score_tie_rounds_down :
  metricsOf fortyAndTwentyThree "/w/lib.ts"
    = Some (mkFileMetrics 23 0 false true (JsNumber.of_Z 57))
  /\ maxInDegreeOf (getAllNodes fortyAndTwentyThree) = 40
  /\ spec_importanceScore 23 40 = 58%Z
  /\ metricsOf eightAndOne "/w/lib.ts"
       = Some (mkFileMetrics 1 0 false false (JsNumber.of_Z 13))
  /\ maxInDegreeOf (getAllNodes eightAndOne) = 8
  /\ spec_importanceScore 1 8 = 13%Z.
Proof. vm_compute. repeat split. Qed.

(** A single node and no edge: in-degree 0 and score +0, not NaN. *)
Lemma single_node_score :
  metricsOf (calculateMetrics (addNode (new_ImportGraph "/w") "/w/a.ts")) "/w/a.ts"
  = Some (mkFileMetrics 0 0 true false (S754_zero false))
  /\ JsNumber.is_nan (S754_zero false) = false.
Proof. vm_compute. split; reflexivity. Qed.

(* ================================================================= *)
(** ** Sorting and [getLeafFiles] *)

Section ArraySortFacts.
Context {A : Type}.
Variable compareFn : A -> A -> Z.

Let before (a b : A) : Prop := (compareFn a b <= 0)%Z.

Lemma insertInOrder_perm x l : Permutation (insertInOrder compareFn x l) (x :: l).
Proof.
  induction l as [|y l IH]; simpl; [reflexivity|].
  destruct (compareFn x y <=? 0)%Z; [reflexivity|].
  rewrite IH. apply perm_swap.
Qed.

Lemma sortArray_perm l : Permutation (sortArray compareFn l) l.
Proof.
  induction l as [|x l IH]; simpl; [reflexivity|].
  rewrite insertInOrder_perm. now constructor.
Qed.

Hypothesis compareFn_total : forall a b, (compareFn a b <= 0 \/ compareFn b a <= 0)%Z.
Hypothesis compareFn_trans :
  forall a b c, (compareFn a b <= 0 -> compareFn b c <= 0 -> compareFn a c <= 0)%Z.

Lemma insertInOrder_sorted x l :
  StronglySorted before l -> StronglySorted before (insertInOrder compareFn x l).
Proof.
  induction 1 as [|y l Hs IH Hall]; simpl.
  - repeat constructor.
  - destruct (Z.leb_spec (compareFn x y) 0) as [Hle|Hgt].
    + constructor; [now constructor|].
      constructor; [exact Hle|].
      eapply Forall_impl; [|exact Hall].
      intros z Hz. unfold before in *. eauto.
    + constructor; [exact IH|].
      eapply Permutation_Forall; [symmetry; apply insertInOrder_perm|].
      constructor; [|exact Hall].
      unfold before. destruct (compareFn_total x y); [lia|assumption].
Qed.

Lemma sortArray_sorted l : StronglySorted before (sortArray compareFn l).
Proof.
  induction l as [|x l IH]; simpl; [constructor|].
  now apply insertInOrder_sorted.
Qed.

End ArraySortFacts.

Lemma compareKeys_total a : forall b,
  (compareKeys a b <= 0 \/ compareKeys b a <= 0)%Z.
Proof.
  induction a as [|x a IH]; intros [|y b]; simpl; try lia.
  rewrite (Nat.compare_antisym x y).
  destruct (Nat.compare x y); simpl; try lia.
  apply IH.
Qed.

Lemma compareKeys_trans a : forall b c,
  (compareKeys a b <= 0 -> compareKeys b c <= 0 -> compareKeys a c <= 0)%Z.
Proof.
  induction a as [|x a IH]; intros [|y b] [|z c]; simpl; try lia.
  destruct (Nat.compare_spec x y) as [E1|L1|G1];
    destruct (Nat.compare_spec y z) as [E2|L2|G2];
    try lia; intros H1 H2.
  - rewrite E1, E2, Nat.compare_refl. eauto.
  - rewrite E1. apply Nat.compare_lt_iff in L2. rewrite L2. lia.
  - rewrite <- E2. apply Nat.compare_lt_iff in L1. rewrite L1. lia.
  - assert (L : x < z) by lia.
    apply Nat.compare_lt_iff in L. rewrite L. lia.
Qed.

Lemma hostLocaleCompare_total a b :
  (hostLocaleCompare a b <= 0 \/ hostLocaleCompare b a <= 0)%Z.
Proof. apply compareKeys_total. Qed.

Lemma hostLocaleCompare_trans a b c :
  (hostLocaleCompare a b <= 0 -> hostLocaleCompare b c <= 0 ->
   hostLocaleCompare a c <= 0)%Z.
Proof. apply compareKeys_trans. Qed.

Lemma StronglySorted_map {A B} (f : A -> B) (R : B -> B -> Prop) l :
  StronglySorted (fun a b => R (f a) (f b)) l -> StronglySorted R (map f l).
Proof.
  induction 1 as [|a l _ IH Hall]; simpl; constructor; [assumption|].
  apply Forall_forall. intros y Hy. apply in_map_iff in Hy.
  destruct Hy as (x & <- & Hx). revert x Hx. now apply Forall_forall.
Qed.

Lemma in_getLeafFiles lc g n :
  In n (getLeafFiles lc g) <-> In n (getAllNodes g) /\ isLeaf (metrics n) = true.
Proof.
  unfold getLeafFiles.
  pose proof (filter_In (fun n => isLeaf (metrics n)) n (getAllNodes g)) as F.
  simpl in F. rewrite <- F. split.
  - apply Permutation_in, sortArray_perm.
  - apply Permutation_in. symmetry. apply sortArray_perm.
Qed.

Lemma isLeaf_current g n :
  metricsCurrent g n -> (isLeaf (metrics n) = true <-> importedBy n = []).
Proof.
  intros H. destruct (metricsCurrent_degrees g n H) as (Hin & _ & Hleaf & _).
  rewrite Hleaf, Hin. apply length_zero_iff_nil.
Qed.

(** C7, as the code has it.  [getLeafFiles] returns exactly the nodes whose
    [isLeaf] metric is set, each as often as the graph holds it, in ascending
    order of [relativePath] under the host's [localeCompare], a collation
    (taken here as any total and transitive comparator); once
    [calculateMetrics] has run these are the nodes with no importer.  On the
    graph with [z.ts] and [a.ts] unimported and [m.ts] imported once, under a
    collation that puts [a.ts] before [z.ts], the result is [a.ts; z.ts]. *)
Theorem C7_getLeafFiles_sorted_leaves
  (localeCompare : string -> string -> Z)
  (Htotal : forall a b, (localeCompare a b <= 0 \/ localeCompare b a <= 0)%Z)
  (Htrans : forall a b c, (localeCompare a b <= 0 -> localeCompare b c <= 0 ->
                           localeCompare a c <= 0)%Z)
  (Haz : (0 < localeCompare "z.ts" "a.ts")%Z)
  (g : ImportGraph) :
  (forall n, In n (getLeafFiles localeCompare g) <->
             In n (getAllNodes g) /\ isLeaf (metrics n) = true)
  /\ Permutation (getLeafFiles localeCompare g)
       (filter (fun n => isLeaf (metrics n)) (getAllNodes g))
  /\ StronglySorted
       (fun a b => (localeCompare (relativePath a) (relativePath b) <= 0)%Z)
       (getLeafFiles localeCompare g)
  /\ (forall n, In n (getLeafFiles localeCompare (calculateMetrics g)) <->
                In n (getAllNodes (calculateMetrics g)) /\ importedBy n = [])
  /\ map relativePath (getLeafFiles localeCompare leafScenario) = ["a.ts"; "z.ts"].
Proof.
  split; [intros n; apply in_getLeafFiles|].
  split; [apply sortArray_perm|].
  split.
  { apply (sortArray_sorted
             (fun a b => localeCompare (relativePath a) (relativePath b))).
    - intros a b. apply Htotal.
    - intros a b c. apply Htrans. }
  split.
  { intros n. rewrite in_getLeafFiles. split; intros [Hin H]; split; trivial;
      now apply (isLeaf_current (calculateMetrics g) n
                   (calculateMetrics_current g n Hin)). }
  unfold getLeafFiles.
  assert (E : filter (fun n => isLeaf (metrics n)) (getAllNodes leafScenario)
              = [ mkFileNode "/w/z.ts" "z.ts" ["/w/m.ts"] []
                    (mkFileMetrics 0 1 true false (S754_zero false));
                  mkFileNode "/w/a.ts" "a.ts" [] []
                    (mkFileMetrics 0 0 true false (S754_zero false)) ])
    by (vm_compute; reflexivity).
  rewrite E. simpl.
  destruct (Z.leb_spec (localeCompare "z.ts" "a.ts") 0); [lia|reflexivity].
Qed.

Lemma C7_getLeafFiles_witness :
  (0 < hostLocaleCompare "z.ts" "a.ts")%Z
  /\ StronglySorted
       (fun a b => (hostLocaleCompare (relativePath a) (relativePath b) <= 0)%Z)
       (getLeafFiles hostLocaleCompare leafScenario)
  /\ map relativePath (getLeafFiles hostLocaleCompare leafScenario) = ["a.ts"; "z.ts"].
Proof.
  assert (Haz : (0 < hostLocaleCompare "z.ts" "a.ts")%Z) by reflexivity.
  split; [exact Haz|].
  pose proof (C7_getLeafFiles_sorted_leaves hostLocaleCompare
                hostLocaleCompare_total hostLocaleCompare_trans Haz leafScenario)
    as (_ & _ & Hsorted & _ & Hscenario).
  split; [exact Hsorted|exact Hscenario].
Defined.

(** C7 as stated fails: the order is not lexicographic.  With [Z.ts] and
    [a.ts] unimported the host's collation puts [a.ts] first, where the
    order of code units puts [Z.ts] first. *)
Lemma C7_order_is_not_lexicographic :
  ~ (forall g : ImportGraph,
       StronglySorted
         (fun a b => (spec_lexicographicCompare (relativePath a) (relativePath b)
                      <= 0)%Z)
         (getLeafFiles hostLocaleCompare g)).
Proof.
  intros claim. specialize (claim mixedCaseLeaves).
  apply (StronglySorted_map relativePath
           (fun a b => (spec_lexicographicCompare a b <= 0)%Z)) in claim.
  assert (E : map relativePath (getLeafFiles hostLocaleCompare mixedCaseLeaves)
              = ["a.ts"; "Z.ts"]) by (vm_compute; reflexivity).
  rewrite E in claim. inversion claim as [|? ? _ Hall]; subst.
  inversion Hall as [|? ? Hle _]; subst.
  vm_compute in Hle. now apply Hle.
Qed.

(* ================================================================= *)
(** ** Well-formed graphs and the serialization round trip *)

Lemma uniqueStrings_NoDup l : uniqueStrings l = true <-> NoDup l.
Proof.
  induction l as [|x l IH]; simpl.
  - split; [constructor|reflexivity].
  - rewrite andb_true_iff, negb_true_iff, includes_false, IH.
    split.
    + intros [H1 H2]. now constructor.
    + intros H. inversion H; subst. tauto.
Qed.

Lemma graphWellFormed_spec g :
  graphWellFormed g = true <->
  NoDup (JsMap.keys (nodes g)) /\
  Forall (fun kv => filePath (snd kv) = fst kv) (nodes g).
Proof.
  unfold graphWellFormed.
  rewrite andb_true_iff, uniqueStrings_NoDup, forallb_forall, Forall_forall.
  split; intros [H1 H2]; (split; [exact H1|]); intros kv Hkv.
  - now apply String.eqb_eq, H2.
  - now apply String.eqb_eq, H2.
Qed.

Lemma set_absent {V} k (v : V) m :
  JsMap.get k m = None -> JsMap.set k v m = m ++ [(k, v)].
Proof.
  induction m as [|[k0 v0] m IH]; simpl; [reflexivity|].
  destruct (String.eqb k0 k); [discriminate|].
  intros H. now rewrite IH.
Qed.

Lemma deserialize_from root m : forall acc,
  NoDup (JsMap.keys (acc ++ m)) ->
  Forall (fun kv => filePath (snd kv) = fst kv) m ->
  fold_left (fun g node => with_nodes g (JsMap.set (filePath node) node (nodes g)))
            (JsMap.values m) (mkImportGraph acc root)
  = mkImportGraph (acc ++ m) root.
Proof.
  induction m as [|[k v] m IH]; intros acc Hnd Hall; simpl.
  - now rewrite app_nil_r.
  - inversion Hall as [|? ? Hk Hall']; subst. simpl in Hk. subst k.
    unfold with_nodes at 2. simpl.
    rewrite set_absent.
    + rewrite IH; [now rewrite <- app_assoc| |assumption].
      now rewrite <- app_assoc.
    + apply JsMapFacts.get_None_keys.
      unfold JsMap.keys in *. rewrite map_app in Hnd. simpl in Hnd.
      apply NoDup_remove_2 in Hnd. intros Hin. apply Hnd.
      apply in_or_app. now left.
Qed.

(** The graphs the class can hold are well-formed. *)
Lemma wf_new root : graphWellFormed (new_ImportGraph root) = true.
Proof. reflexivity. Qed.

Lemma wf_modifyNode g k f :
  (forall n, filePath (f n) = filePath n) ->
  graphWellFormed g = true -> graphWellFormed (modifyNode g k f) = true.
Proof.
  intros Hf. rewrite !graphWellFormed_spec. unfold modifyNode; simpl.
  rewrite JsMapFacts.keys_modify. intros [H1 H2]. split; [assumption|].
  unfold JsMap.modify. rewrite Forall_map.
  eapply Forall_impl; [|exact H2].
  intros [k0 v0]; simpl. destruct (String.eqb k0 k); simpl; [|tauto].
  now rewrite Hf.
Qed.

Lemma wf_addNode g k :
  graphWellFormed g = true -> graphWellFormed (addNode g k) = true.
Proof.
  unfold addNode, JsMap.has.
  destruct (JsMap.get k (nodes g)) eqn:E; [tauto|].
  rewrite !graphWellFormed_spec. simpl. intros [H1 H2].
  rewrite JsMapFacts.keys_set_absent, set_absent by assumption. split.
  - apply NoDup_app; [assumption|repeat constructor; simpl; tauto|].
    intros x Hx [<-|[]]. now apply JsMapFacts.get_None_keys in E.
  - apply Forall_app. split; [assumption|]. now repeat constructor.
Qed.

Lemma wf_addEdge g a b :
  graphWellFormed g = true -> graphWellFormed (addEdge g a b) = true.
Proof.
  intros H. unfold addEdge.
  apply wf_modifyNode.
  { intros n. destruct (includes a (importedBy n)); reflexivity. }
  apply wf_modifyNode.
  { intros n. destruct (includes b (imports n)); reflexivity. }
  now apply wf_addNode, wf_addNode.
Qed.

Lemma wf_scrubImportedBy x l : forall g,
  graphWellFormed g = true -> graphWellFormed (scrubImportedBy x l g) = true.
Proof.
  unfold scrubImportedBy. induction l as [|a l IH]; intros g H; simpl; [assumption|].
  apply IH. now apply wf_modifyNode.
Qed.

Lemma wf_scrubImports x l : forall g,
  graphWellFormed g = true -> graphWellFormed (scrubImports x l g) = true.
Proof.
  unfold scrubImports. induction l as [|a l IH]; intros g H; simpl; [assumption|].
  apply IH. now apply wf_modifyNode.
Qed.

Lemma wf_delete g k :
  graphWellFormed g = true ->
  graphWellFormed (with_nodes g (JsMap.delete k (nodes g))) = true.
Proof.
  rewrite !graphWellFormed_spec. simpl. intros [H1 H2].
  rewrite JsMapFacts.keys_delete. split.
  - now apply NoDup_filter.
  - unfold JsMap.delete. rewrite Forall_forall in *.
    intros kv Hkv. apply filter_In in Hkv. now apply H2.
Qed.

Lemma wf_removeNode g k :
  graphWellFormed g = true -> graphWellFormed (removeNode g k) = true.
Proof.
  intros H. unfold removeNode. destruct (getNode g k); [|assumption].
  now apply wf_delete, wf_scrubImports, wf_scrubImportedBy.
Qed.

Lemma wf_clearEdgesFor g k :
  graphWellFormed g = true -> graphWellFormed (clearEdgesFor g k) = true.
Proof.
  intros H. unfold clearEdgesFor. destruct (getNode g k); [|assumption].
  apply wf_modifyNode; [reflexivity|]. now apply wf_scrubImportedBy.
Qed.

Lemma wf_calculateMetrics g :
  graphWellFormed g = true -> graphWellFormed (calculateMetrics g) = true.
Proof.
  rewrite !graphWellFormed_spec. rewrite nodes_calculateMetrics.
  intros [H1 H2]. split.
  - unfold JsMap.keys in *. now rewrite map_map.
  - rewrite Forall_map. eapply Forall_impl; [|exact H2]. now intros [k v].
Qed.

Lemma wf_runOps ops : forall g,
  graphWellFormed g = true -> graphWellFormed (runOps ops g) = true.
Proof.
  unfold runOps. induction ops as [|op ops IH]; intros g H; simpl; [assumption|].
  apply IH. destruct op; simpl.
  - now apply wf_addEdge.
  - now apply wf_removeNode.
  - now apply wf_clearEdgesFor.
Qed.

Lemma keys_set_present {V} k (v v0 : V) m :
  JsMap.get k m = Some v0 -> JsMap.keys (JsMap.set k v m) = JsMap.keys m.
Proof.
  induction m as [|[k1 v1] m IH]; simpl; [discriminate|].
  destruct (String.eqb_spec k1 k) as [->|_]; simpl; [reflexivity|].
  intros H. now rewrite IH.
Qed.

Lemma Forall_set {V} (P : string * V -> Prop) k v m :
  Forall P m -> P (k, v) -> Forall P (JsMap.set k v m).
Proof.
  intros Hm Hkv. induction Hm as [|[k1 v1] m H1 Hm IH]; simpl.
  - now repeat constructor.
  - destruct (String.eqb k1 k); now constructor.
Qed.

Lemma wf_set_own g n :
  graphWellFormed g = true ->
  graphWellFormed (with_nodes g (JsMap.set (filePath n) n (nodes g))) = true.
Proof.
  rewrite !graphWellFormed_spec. simpl. intros [H1 H2]. split.
  - destruct (JsMap.get (filePath n) (nodes g)) as [n0|] eqn:E.
    + now rewrite (keys_set_present _ n n0 _ E).
    + rewrite JsMapFacts.keys_set_absent by assumption.
      apply NoDup_app; [assumption|repeat constructor; simpl; tauto|].
      intros x Hx [<-|[]]. now apply JsMapFacts.get_None_keys in E.
  - now apply Forall_set.
Qed.

(** Whatever the data, [deserialize] builds a well-formed graph. *)
Lemma wf_deserialize data : graphWellFormed (deserialize data) = true.
Proof.
  unfold deserialize. generalize (wf_new (snd data)).
  generalize (new_ImportGraph (snd data)).
  induction (fst data) as [|n ns IH]; intros g H; simpl; [assumption|].
  now apply IH, wf_set_own.
Qed.

(** C8.  Serialization round trip: for every graph whose store is
    well-formed (one entry per key, each node under its own [filePath], as
    in every graph the class builds), [deserialize (serialize g)] is [g]: the
    same [workspaceRoot], the same nodes under the same paths in the same
    order, with the same edge lists and metrics. *)
Theorem C8_serialize_roundtrip (g : ImportGraph) :
  graphWellFormed g = true ->
  deserialize (serialize g) = g
  /\ workspaceRoot (deserialize (serialize g)) = workspaceRoot g
  /\ getAllNodes (deserialize (serialize g)) = getAllNodes g
  /\ (forall p, getNode (deserialize (serialize g)) p = getNode g p).
Proof.
  intros H. apply graphWellFormed_spec in H. destruct H as [H1 H2].
  assert (E : deserialize (serialize g) = g).
  { unfold deserialize, serialize, getAllNodes, new_ImportGraph, JsMap.empty. simpl.
    rewrite (deserialize_from (workspaceRoot g) (nodes g) []); simpl; auto.
    now destruct g. }
  rewrite E. auto.
Qed.

Lemma C8_serialize_roundtrip_witness :
  graphWellFormed fortyAndTwentyThree = true
  /\ deserialize (serialize fortyAndTwentyThree) = fortyAndTwentyThree.
Proof.
  assert (H : graphWellFormed fortyAndTwentyThree = true) by (vm_compute; reflexivity).
  split; [exact H|].
  exact (proj1 (C8_serialize_roundtrip fortyAndTwentyThree H)).
Defined.

(* ================================================================= *)
(** ** The builder *)

Lemma isNode_modifyNode g k f x : isNode (modifyNode g k f) x = isNode g x.
Proof.
  unfold isNode. rewrite getNode_modifyNode.
  destruct (String.eqb k x); [|reflexivity].
  destruct (getNode g x); reflexivity.
Qed.

Lemma isNode_addNode g k x : isNode (addNode g k) x = String.eqb k x || isNode g x.
Proof.
  unfold isNode. rewrite getNode_addNode.
  destruct (String.eqb k x); [|reflexivity].
  destruct (getNode g x); reflexivity.
Qed.

Lemma isNode_addEdge g a b x :
  isNode (addEdge g a b) x = String.eqb a x || String.eqb b x || isNode g x.
Proof.
  unfold addEdge. rewrite !isNode_modifyNode, !isNode_addNode.
  destruct (String.eqb a x), (String.eqb b x); reflexivity.
Qed.

Lemma isNode_calculateMetrics g x : isNode (calculateMetrics g) x = isNode g x.
Proof.
  unfold isNode. rewrite getNode_calculateMetrics. destruct (getNode g x); reflexivity.
Qed.

Lemma importsOf_calculateMetrics g x : importsOf (calculateMetrics g) x = importsOf g x.
Proof.
  unfold importsOf. rewrite getNode_calculateMetrics. destruct (getNode g x); reflexivity.
Qed.

Lemma importedByOf_calculateMetrics g x :
  importedByOf (calculateMetrics g) x = importedByOf g x.
Proof.
  unfold importedByOf. rewrite getNode_calculateMetrics.
  destruct (getNode g x); reflexivity.
Qed.

Lemma isNode_scrubImportedBy y l g x : isNode (scrubImportedBy y l g) x = isNode g x.
Proof.
  unfold isNode. rewrite getNode_scrubImportedBy. destruct (getNode g x); reflexivity.
Qed.

Lemma isNode_scrubImports y l g x : isNode (scrubImports y l g) x = isNode g x.
Proof.
  unfold isNode. rewrite getNode_scrubImports. destruct (getNode g x); reflexivity.
Qed.

Lemma isNode_clearEdgesFor g k x : isNode (clearEdgesFor g k) x = isNode g x.
Proof.
  unfold clearEdgesFor. destruct (getNode g k); [|reflexivity].
  now rewrite isNode_modifyNode, isNode_scrubImportedBy.
Qed.

Lemma isNode_removeNode g k x :
  isNode (removeNode g k) x = negb (String.eqb k x) && isNode g x.
Proof.
  unfold removeNode. destruct (getNode g k) as [node|] eqn:E.
  - unfold isNode at 1. rewrite getNode_delete.
    destruct (String.eqb k x); [reflexivity|]. simpl.
    fold (isNode (scrubImports k
                    match getNode (scrubImportedBy k (imports node) g) k with
                    | Some node' => importedBy node'
                    | None => []
                    end (scrubImportedBy k (imports node) g)) x).
    now rewrite isNode_scrubImports, isNode_scrubImportedBy.
  - destruct (String.eqb_spec k x) as [<-|]; [|reflexivity].
    unfold isNode. now rewrite E.
Qed.

(** The loop of [processFile] draws one edge per local target. *)
Lemma processFile_edges h opts g p :
  processFile h opts g p =
  match parseFile h opts p with
  | None => g
  | Some parsed =>
      fold_left (fun g t => addEdge g p t) (localTargets parsed) (addNode g p)
  end.
Proof.
  unfold processFile, localTargets. destruct (parseFile h opts p) as [parsed|]; [|reflexivity].
  generalize (addNode g p). induction (parsedImports parsed) as [|i l IH]; intros g0; simpl.
  - reflexivity.
  - rewrite fold_left_app, IH.
    destruct (negb (isExternal i)); [|reflexivity].
    destruct (truthy (resolvedPath i)); reflexivity.
Qed.

Lemma isNode_addEdges p ts : forall g x,
  isNode g p = true ->
  isNode (fold_left (fun g t => addEdge g p t) ts g) x = includes x ts || isNode g x.
Proof.
  induction ts as [|t ts IH]; intros g x Hp; simpl; [reflexivity|].
  rewrite IH by (rewrite isNode_addEdge, String.eqb_refl; reflexivity).
  rewrite isNode_addEdge. rewrite (String.eqb_sym x t).
  destruct (String.eqb_spec p x) as [<-|]; simpl.
  - rewrite Hp. now rewrite !orb_true_r.
  - destruct (String.eqb t x), (includes x ts); reflexivity.
Qed.

Lemma importsOf_addEdges p ts : forall g x y,
  In y (importsOf (fold_left (fun g t => addEdge g p t) ts g) x) <->
  In y (importsOf g x) \/ (x = p /\ In y ts).
Proof.
  induction ts as [|t ts IH]; intros g x y; simpl; [tauto|].
  rewrite IH, importsOf_addEdge. intuition congruence.
Qed.

Lemma importedByOf_addEdges p ts : forall g x y,
  In x (importedByOf (fold_left (fun g t => addEdge g p t) ts g) y) <->
  In x (importedByOf g y) \/ (x = p /\ In y ts).
Proof.
  induction ts as [|t ts IH]; intros g x y; simpl; [tauto|].
  rewrite IH, importedByOf_addEdge. intuition congruence.
Qed.

Lemma isNode_processFile h opts g p x :
  isNode (processFile h opts g p) x =
  isNode g x || (parses h opts p && String.eqb p x) || includes x (targetsOf h opts p).
Proof.
  rewrite processFile_edges. unfold parses, targetsOf.
  destruct (parseFile h opts p) as [parsed|]; simpl.
  - rewrite isNode_addEdges by (rewrite isNode_addNode, String.eqb_refl; reflexivity).
    rewrite isNode_addNode.
    destruct (isNode g x), (String.eqb p x), (includes x (localTargets parsed)); reflexivity.
  - now rewrite !orb_false_r.
Qed.

Lemma importsOf_processFile h opts g p x y :
  In y (importsOf (processFile h opts g p) x) <->
  In y (importsOf g x) \/ (x = p /\ In y (targetsOf h opts p)).
Proof.
  rewrite processFile_edges. unfold targetsOf.
  destruct (parseFile h opts p) as [parsed|]; simpl.
  - now rewrite importsOf_addEdges, importsOf_addNode.
  - tauto.
Qed.

Lemma importedByOf_processFile h opts g p x y :
  In x (importedByOf (processFile h opts g p) y) <->
  In x (importedByOf g y) \/ (x = p /\ In y (targetsOf h opts p)).
Proof.
  rewrite processFile_edges. unfold targetsOf.
  destruct (parseFile h opts p) as [parsed|]; simpl.
  - now rewrite importedByOf_addEdges, importedByOf_addNode.
  - tauto.
Qed.

Lemma isNode_processFiles h opts files : forall g x,
  isNode (fold_left (processFile h opts) files g) x =
  isNode g x ||
  existsb (fun f => (parses h opts f && String.eqb f x)
                    || includes x (targetsOf h opts f)) files.
Proof.
  induction files as [|f files IH]; intros g x; simpl.
  - now rewrite orb_false_r.
  - rewrite IH, isNode_processFile. now rewrite <- !orb_assoc.
Qed.

Lemma importsOf_processFiles h opts files : forall g x y,
  In y (importsOf (fold_left (processFile h opts) files g) x) <->
  In y (importsOf g x) \/ (In x files /\ In y (targetsOf h opts x)).
Proof.
  induction files as [|f files IH]; intros g x y; simpl; [tauto|].
  rewrite IH, importsOf_processFile. intuition (subst; auto).
Qed.

Lemma importedByOf_processFiles h opts files : forall g x y,
  In x (importedByOf (fold_left (processFile h opts) files g) y) <->
  In x (importedByOf g y) \/ (In x files /\ In y (targetsOf h opts x)).
Proof.
  induction files as [|f files IH]; intros g x y; simpl; [tauto|].
  rewrite IH, importedByOf_processFile. intuition (subst; auto).
Qed.

Lemma nil_iff_no_member {A} (l : list A) : l = [] <-> forall x, ~ In x l.
Proof.
  split; [intros -> x []|]. destruct l as [|a l]; [reflexivity|].
  intros H. exfalso. apply (H a). now left.
Qed.

Lemma isNode_true g p : isNode g p = true <-> exists n, getNode g p = Some n.
Proof.
  unfold isNode. destruct (getNode g p); split; eauto; try discriminate.
  intros [n [=]].
Qed.

Lemma targetsOf_fails h opts p : parseFile h opts p = None -> targetsOf h opts p = [].
Proof. unfold targetsOf. now intros ->. Qed.

Lemma wf_processFile h opts g p :
  graphWellFormed g = true -> graphWellFormed (processFile h opts g p) = true.
Proof.
  intros H. rewrite processFile_edges.
  destruct (parseFile h opts p) as [parsed|]; [|assumption].
  assert (H0 : graphWellFormed (addNode g p) = true) by now apply wf_addNode.
  revert H0. generalize (addNode g p).
  induction (localTargets parsed) as [|t ts IH]; intros g0 H0; simpl; [assumption|].
  now apply IH, wf_addEdge.
Qed.

Lemma wf_buildGraph h opts root files :
  graphWellFormed (buildGraph h opts root files) = true.
Proof.
  unfold buildGraph. apply wf_calculateMetrics.
  generalize (wf_new root). generalize (new_ImportGraph root).
  induction files as [|f files IH]; intros g H; simpl; [assumption|].
  now apply IH, wf_processFile.
Qed.

Lemma wf_updateFile h opts g p :
  graphWellFormed g = true -> graphWellFormed (updateFile h opts g p) = true.
Proof.
  intros H. unfold updateFile.
  now apply wf_calculateMetrics, wf_processFile, wf_clearEdgesFor.
Qed.

Lemma wf_removeFile g p :
  graphWellFormed g = true -> graphWellFormed (removeFile g p) = true.
Proof. intros H. unfold removeFile. now apply wf_calculateMetrics, wf_removeNode. Qed.

Lemma metricsCurrent_reflects g n :
  In n (getAllNodes g) -> metricsCurrent g n -> metricsReflectEdges g n.
Proof.
  intros Hin H.
  destruct (metricsCurrent_degrees g n H) as (Hi & Ho & Hleaf & Hlb & Hscore).
  unfold metricsReflectEdges. rewrite Hi in *.
  split; [reflexivity|]. split; [exact Ho|].
  split; [now rewrite Hleaf, length_zero_iff_nil|].
  split; [exact Hlb|].
  exists (maxInDegreeOf (getAllNodes g)).
  split; [apply maxInDegreeOf_ge_1|].
  split; [intros m Hm; now apply maxInDegreeOf_upper|].
  split; [apply maxInDegreeOf_attained|exact Hscore].
Qed.

Lemma calculateMetrics_reflects g n :
  In n (getAllNodes (calculateMetrics g)) -> metricsReflectEdges (calculateMetrics g) n.
Proof.
  intros H. apply metricsCurrent_reflects; [exact H|now apply calculateMetrics_current].
Qed.

(** An exception of the read or of the parse is caught in [parseFile]. *)
Lemma parseFile_catches h opts p :
  (forall content, fs_readFileSync h p = Some content ->
                   parseContent h opts p content = Throws) ->
  parseFile h opts p = None.
Proof.
  intros H. unfold parseFile.
  destruct (fs_readFileSync h p) as [content|]; [|reflexivity].
  now rewrite (H content eq_refl).
Qed.

(** C3, as the code has it.  A parse fails when the read or the parse
    throws; the exception is caught in [parseFile], the only place of a build where one can arise, so
    the build returns a graph.  In the graph of a build that no flush
    interleaves, the failed file has no outgoing edge and is a node exactly
    when another enumerated file has a local import resolving to it; every
    file that parses is a node whose outgoing list holds exactly its resolved
    local imports; and every node carries the metrics of the final edge
    lists.  When a flush has run while the file list was awaited, the same
    holds relative to the graph [graph b] on which the loop resumes: the
    build adds no outgoing edge for the failed file and makes it a node only
    as the target of an import. *)
Theorem C3_buildGraph_tolerates_parse_failure
  (h : Host) (opts : CompilerOptions) (root : string) (files : list string)
  (failed : string) (b : Builder) :
  (forall content, fs_readFileSync h failed = Some content ->
                   parseContent h opts failed content = Throws) ->
  let g := buildGraph h opts root files in
  let resumed := graph (builder_buildGraph_finish h opts b files) in
  parseFile h opts failed = None
  /\ importsOf g failed = []
  /\ (forall n, getNode g failed = Some n -> imports n = [])
  /\ (isNode g failed = true <->
      exists importer, In importer files /\ importer <> failed
                       /\ In failed (targetsOf h opts importer))
  /\ (forall f parsed, In f files -> parseFile h opts f = Some parsed ->
        exists n, getNode g f = Some n
                  /\ forall t, In t (imports n) <-> In t (localTargets parsed))
  /\ (forall n, In n (getAllNodes g) -> metricsReflectEdges g n)
  /\ (forall y, In y (importsOf resumed failed) <-> In y (importsOf (graph b) failed))
  /\ (isNode resumed failed = true <->
      isNode (graph b) failed = true
      \/ exists importer, In importer files /\ importer <> failed
                          /\ In failed (targetsOf h opts importer))
  /\ (forall n, In n (getAllNodes resumed) -> metricsReflectEdges resumed n).
Proof.
  intros Hthrows g resumed.
  assert (Hfail : parseFile h opts failed = None) by now apply parseFile_catches.
  assert (Hedges : forall g0 y,
    In y (importsOf (calculateMetrics (fold_left (processFile h opts) files g0)) failed)
    <-> In y (importsOf g0 failed)).
  { intros g0 y. rewrite importsOf_calculateMetrics, importsOf_processFiles.
    rewrite (targetsOf_fails _ _ _ Hfail). simpl. tauto. }
  assert (Hnode : forall g0,
    isNode (calculateMetrics (fold_left (processFile h opts) files g0)) failed = true
    <-> isNode g0 failed = true
        \/ exists importer, In importer files /\ importer <> failed
                            /\ In failed (targetsOf h opts importer)).
  { intros g0. rewrite isNode_calculateMetrics, isNode_processFiles.
    rewrite orb_true_iff, existsb_exists. split.
    - intros [H0|(f & Hf & Hor)]; [now left|]. right. exists f. split; [assumption|].
      apply orb_true_iff in Hor. destruct Hor as [Hor|Hor].
      + apply andb_true_iff in Hor. destruct Hor as [Hp Heq].
        apply String.eqb_eq in Heq. subst f.
        unfold parses in Hp. now rewrite Hfail in Hp.
      + apply includes_In in Hor. split; [|assumption].
        intros ->. now rewrite (targetsOf_fails _ _ _ Hfail) in Hor.
    - intros [H0|(f & Hf & _ & Hin)]; [now left|]. right. exists f.
      split; [assumption|]. apply orb_true_iff. right. now apply includes_In. }
  assert (Hnone : importsOf g failed = []).
  { apply nil_iff_no_member. intros y Hy. now apply (Hedges (new_ImportGraph root)) in Hy. }
  split; [exact Hfail|].
  split; [exact Hnone|].
  split.
  { intros n Hn. unfold importsOf in Hnone. now rewrite Hn in Hnone. }
  split.
  { unfold g, buildGraph. rewrite Hnode. split; [|tauto].
    intros [H0|H0]; [discriminate H0|exact H0]. }
  split.
  { intros f parsed Hf Hparsed.
    assert (Hn : isNode g f = true).
    { unfold g, buildGraph. rewrite isNode_calculateMetrics, isNode_processFiles.
      apply orb_true_iff. right. apply existsb_exists. exists f.
      split; [assumption|]. unfold parses. rewrite Hparsed, String.eqb_refl. reflexivity. }
    apply isNode_true in Hn. destruct Hn as [n Hn]. exists n.
    split; [assumption|]. intros t.
    assert (Hin : In t (importsOf g f) <-> In t (localTargets parsed)).
    { unfold g, buildGraph. rewrite importsOf_calculateMetrics, importsOf_processFiles.
      unfold targetsOf. rewrite Hparsed. simpl. tauto. }
    unfold importsOf in Hin. now rewrite Hn in Hin. }
  split; [intros n Hn; now apply calculateMetrics_reflects|].
  split; [intros y; apply Hedges|].
  split; [apply Hnode|].
  intros n Hn. now apply calculateMetrics_reflects.
Qed.

Lemma C3_buildGraph_witness :
  let g := buildGraph tenFilesHost noOptions "/w" tenFiles in
  fs_readFileSync tenFilesHost "/w/locked.ts" = None
  /\ parseFile tenFilesHost noOptions "/w/locked.ts" = None
  /\ importsOf g "/w/locked.ts" = []
  /\ isNode g "/w/locked.ts" = true
  /\ getFileCount g = 10
  /\ option_map (fun n => inDegree (metrics n)) (getNode g "/w/locked.ts") = Some 9
  /\ fs_readFileSync badPatternHost "/w/a.ts" = Some "/w/a.ts"
  /\ parseFile badPatternHost badPatternOptions "/w/a.ts" = None
  /\ isNode (buildGraph badPatternHost badPatternOptions "/w" ["/w/a.ts"]) "/w/a.ts"
     = false.
Proof.
  intros g.
  assert (H : forall content,
             fs_readFileSync tenFilesHost "/w/locked.ts" = Some content ->
             parseContent tenFilesHost noOptions "/w/locked.ts" content = Throws).
  { intros content Hread. vm_compute in Hread. discriminate Hread. }
  destruct (C3_buildGraph_tolerates_parse_failure tenFilesHost noOptions "/w"
              tenFiles "/w/locked.ts" (new_Builder "/w") H)
    as (Hfail & Hnone & _).
  assert (H' : forall content,
             fs_readFileSync badPatternHost "/w/a.ts" = Some content ->
             parseContent badPatternHost badPatternOptions "/w/a.ts" content = Throws).
  { intros content Hread. vm_compute in Hread. injection Hread as <-.
    vm_compute. reflexivity. }
  destruct (C3_buildGraph_tolerates_parse_failure badPatternHost badPatternOptions
              "/w" ["/w/a.ts"] "/w/a.ts" (new_Builder "/w") H')
    as (Hfail' & _).
  split; [reflexivity|]. split; [exact Hfail|]. split; [exact Hnone|].
  split; [vm_compute; reflexivity|]. split; [vm_compute; reflexivity|].
  split; [vm_compute; reflexivity|]. split; [vm_compute; reflexivity|].
  split; [exact Hfail'|]. vm_compute. reflexivity.
Defined.

(** C3 as stated fails for a malformed file: it does not fail to parse.
    [/w/bad.ts] is read, the compiler recovers from its syntax errors, and
    the file is a node with an outgoing edge, though no file imports it. *)
Lemma C3_malformed_file_is_processed :
  fs_readFileSync malformedHost "/w/bad.ts" = Some malformedText
  /\ parses malformedHost noOptions "/w/bad.ts" = true
  /\ isNode (buildGraph malformedHost noOptions "/w" ["/w/bad.ts"; "/w/b.ts"])
            "/w/bad.ts" = true
  /\ importsOf (buildGraph malformedHost noOptions "/w" ["/w/bad.ts"; "/w/b.ts"])
               "/w/bad.ts" = ["/w/b.ts"]
  /\ importedByOf (buildGraph malformedHost noOptions "/w" ["/w/bad.ts"; "/w/b.ts"])
                  "/w/bad.ts" = [].
Proof. repeat split; vm_compute; reflexivity. Qed.

(* ================================================================= *)
(** ** [updateFile] on a file that no longer parses *)

Lemma processFile_fails h opts g p :
  parseFile h opts p = None -> processFile h opts g p = g.
Proof. unfold processFile. now intros ->. Qed.

Lemma getNode_clearEdgesFor_self g p n :
  getNode g p = Some n ->
  getNode (clearEdgesFor g p) p =
  Some (set_imports
          (if includes p (imports n)
           then set_importedBy n (without p (importedBy n)) else n) []).
Proof.
  intros H. unfold clearEdgesFor. rewrite H.
  rewrite getNode_modifyNode, String.eqb_refl, getNode_scrubImportedBy, H.
  reflexivity.
Qed.

(** C9, as the code has it.  A re-parse fails when the read or the parse
    throws; [parseFile] catches the exception.  [updateFile] then keeps an
    existing node with an empty outgoing list; its incoming list is
    unchanged, except that the file's own path leaves it when the file
    imported itself; a path that is no node stays none; and every node
    carries the metrics of the edge lists as they are afterwards. *)
Theorem C9_updateFile_parse_failure
  (h : Host) (opts : CompilerOptions) (g : ImportGraph) (path : string) :
  (forall content, fs_readFileSync h path = Some content ->
                   parseContent h opts path content = Throws) ->
  let g' := updateFile h opts g path in
  parseFile h opts path = None
  /\ (forall n, getNode g path = Some n ->
        exists n', getNode g' path = Some n'
          /\ imports n' = []
          /\ importedBy n' = (if includes path (imports n)
                              then without path (importedBy n) else importedBy n)
          /\ (~ In path (imports n) -> importedBy n' = importedBy n))
  /\ (getNode g path = None -> getNode g' path = None)
  /\ (forall n, In n (getAllNodes g') -> metricsReflectEdges g' n).
Proof.
  intros Hthrows g'.
  assert (Hfail : parseFile h opts path = None) by now apply parseFile_catches.
  split; [exact Hfail|].
  unfold g', updateFile. rewrite (processFile_fails _ _ _ _ Hfail).
  split; [|split].
  - intros n Hn. rewrite getNode_calculateMetrics.
    rewrite (getNode_clearEdgesFor_self _ _ _ Hn). simpl.
    eexists. split; [reflexivity|]. simpl.
    split; [reflexivity|].
    destruct (includes path (imports n)) eqn:E; simpl.
    + split; [reflexivity|]. intros Hnot. apply includes_In in E. contradiction.
    + split; reflexivity.
  - intros Hn. rewrite getNode_calculateMetrics. unfold clearEdgesFor.
    rewrite Hn. now rewrite Hn.
  - intros n Hn. now apply calculateMetrics_reflects.
Qed.

Lemma C9_updateFile_witness :
  fs_readFileSync selfImportHostLater "/w/a.ts" = None
  /\ parseFile selfImportHostLater noOptions "/w/a.ts" = None
  /\ exists n',
       getNode (updateFile selfImportHostLater noOptions
                  (buildGraph selfImportHost noOptions "/w" ["/w/a.ts"])
                  "/w/a.ts") "/w/a.ts" = Some n'
       /\ imports n' = [] /\ importedBy n' = []
       /\ inDegree (metrics n') = 0 /\ outDegree (metrics n') = 0.
Proof.
  assert (H : forall content,
             fs_readFileSync selfImportHostLater "/w/a.ts" = Some content ->
             parseContent selfImportHostLater noOptions "/w/a.ts" content = Throws).
  { intros content Hread. vm_compute in Hread. discriminate Hread. }
  destruct (C9_updateFile_parse_failure selfImportHostLater noOptions
              (buildGraph selfImportHost noOptions "/w" ["/w/a.ts"])
              "/w/a.ts" H) as (Hfail & Hnode & _ & Hmetrics).
  split; [reflexivity|]. split; [exact Hfail|].
  edestruct Hnode as (n' & Hn' & Hout & Hin & _); [vm_compute; reflexivity|].
  exists n'. split; [exact Hn'|]. split; [exact Hout|].
  assert (Hin' : importedBy n' = []) by (rewrite Hin; vm_compute; reflexivity).
  split; [exact Hin'|].
  destruct (Hmetrics n' (getNode_In_getAllNodes _ _ _ Hn')) as (Hi & Ho & _).
  rewrite Hi, Ho, Hin', Hout. split; reflexivity.
Defined.

(** C9 as stated fails on a file that imports itself: its own path leaves
    its incoming list, so "incoming unchanged" does not hold. *)
Lemma C9_incoming_changes_on_self_import :
  ~ (forall (h : Host) (opts : CompilerOptions) (g : ImportGraph) (path : string)
            (n : FileNode),
       parseFile h opts path = None ->
       getNode g path = Some n ->
       exists n', getNode (updateFile h opts g path) path = Some n'
                  /\ imports n' = [] /\ importedBy n' = importedBy n).
Proof.
  intros claim.
  edestruct (claim selfImportHostLater noOptions
               (buildGraph selfImportHost noOptions "/w" ["/w/a.ts"]) "/w/a.ts")
    as (n' & Hn' & _ & Hin).
  - vm_compute. reflexivity.
  - vm_compute. reflexivity.
  - vm_compute in Hn'. injection Hn' as <-. discriminate Hin.
Qed.

(* ================================================================= *)
(** ** File resolution *)

(** C4.  With [/w/x] and [/w/x.ts] both regular files, [./x] resolves to
    [/w/x.ts]: the bare path is the last candidate of the first tier, not the
    first, where the specified order answers [/w/x].  A directory named
    [index.ts] is returned by the index tier, which only asks whether the
    path exists.  With [/w/x.ts] and [/w/x/index.ts] both files the answer
    is [/w/x.ts], as specified. *)
Theorem C4_bare_path_is_tried_last :
  resolveRelativeImport bareAndTsHost "./x" "/w" = Some "/w/x.ts"
  /\ spec_resolveFile bareAndTsHost "/w/x" = Some "/w/x"
  /\ resolveRelativeImport indexDirectoryHost "./y" "/w" = Some "/w/y/index.ts"
  /\ isFile indexDirectoryHost "/w/y/index.ts" = false
  /\ spec_resolveFile indexDirectoryHost "/w/y" = None
  /\ resolveRelativeImport tsAndIndexHost "./x" "/w" = Some "/w/x.ts"
  /\ spec_resolveFile tsAndIndexHost "/w/x" = Some "/w/x.ts".
Proof. vm_compute. repeat split. Qed.

(** The part of the order that holds: a regular file among the
    extension-appended candidates always beats every index file, and the
    earliest extension in the list wins. *)
Lemma firstSome_first {A B} (f : A -> option B) l1 x l2 y :
  (forall a, In a l1 -> f a = None) -> f x = Some y ->
  firstSome f (l1 ++ x :: l2) = Some y.
Proof.
  intros Hnone Hx. induction l1 as [|a l1 IH]; simpl.
  - now rewrite Hx.
  - rewrite (Hnone a) by now left. apply IH. intros b Hb. apply Hnone. now right.
Qed.

Lemma resolveRelativeImport_extension_order h src dir before ext after :
  fileExtensions = before ++ ext :: after ->
  (forall e, In e before -> isFile h (path_resolve h dir src ++ e) = false) ->
  isFile h (path_resolve h dir src ++ ext) = true ->
  resolveRelativeImport h src dir = Some (path_resolve h dir src ++ ext)%string.
Proof.
  intros Hlist Hbefore Hext. unfold resolveRelativeImport. rewrite Hlist.
  erewrite firstSome_first; [reflexivity| |].
  - intros e He. simpl. rewrite (Hbefore e He). now rewrite andb_false_r.
  - simpl. rewrite Hext. unfold existsSync, isFile in *.
    destruct (fs_stat h (path_resolve h dir src ++ ext)); [reflexivity|discriminate].
Qed.

(* ================================================================= *)
(** ** Nodes for files that are never enumerated *)

Lemma endsWith_nonempty s p : endsWith s p = true -> p <> EmptyString -> s <> EmptyString.
Proof.
  intros H Hp ->. unfold endsWith in H. simpl in H.
  destruct p; [congruence|]. simpl in H. discriminate.
Qed.

Lemma isNode_keys g p : isNode g p = true <-> In p (JsMap.keys (nodes g)).
Proof.
  unfold isNode, getNode.
  destruct (JsMap.get p (nodes g)) eqn:E.
  - split; [intros _|reflexivity].
    apply JsMapFacts.get_Some_In in E. change p with (fst (p, f)).
    now apply in_map.
  - split; [discriminate|]. intros H. now apply JsMapFacts.get_None_keys in E.
Qed.

Lemma wf_getNode_filePath g p n :
  graphWellFormed g = true -> getNode g p = Some n -> filePath n = p.
Proof.
  intros Hwf Hn. apply graphWellFormed_spec in Hwf. destruct Hwf as [_ Hall].
  apply JsMapFacts.get_Some_In in Hn.
  exact (proj1 (Forall_forall _ _) Hall (p, n) Hn).
Qed.

(** A local import fact with a resolved path is a target of the file. *)
Lemma In_localTargets parsed imp target :
  In imp (parsedImports parsed) -> isExternal imp = false ->
  resolvedPath imp = Some target -> target <> EmptyString ->
  In target (localTargets parsed).
Proof.
  intros Himp Hext Hres Hne. unfold localTargets. apply in_flat_map.
  exists imp. split; [assumption|]. rewrite Hext, Hres.
  destruct target as [|c t]; [congruence|]. simpl. now left.
Qed.

(** C10.  When an enumerated file parses and one of its local imports,
    relative or rooted, by whatever route of the resolver, carries a resolved
    path ending in [.js] or [.jsx] (both are in the resolver's extension
    list), the graph of the build holds a node for that path whether or not
    the path was enumerated: the importer is in its incoming list,
    [getFileCount] counts it among the distinct keys, and [getLeafFiles]
    lists it in any graph in which its [isLeaf] metric is set; so it does
    once its only importer is removed.  A path that was not enumerated was
    never parsed: its node has no outgoing edge.  The node is also there when
    the loop resumes on a graph [graph b] that a flush has filled
    meanwhile. *)
Theorem C10_unenumerated_targets_are_nodes
  (h : Host) (opts : CompilerOptions) (root : string) (files : list string)
  (importer target : string) (parsed : ParsedFile) (imp : ImportInfo)
  (b : Builder) :
  In importer files ->
  parseFile h opts importer = Some parsed ->
  In imp (parsedImports parsed) ->
  isExternal imp = false ->
  resolvedPath imp = Some target ->
  endsWith target ".js" || endsWith target ".jsx" = true ->
  let g := buildGraph h opts root files in
  let resumed := graph (builder_buildGraph_finish h opts b files) in
  In ".js" fileExtensions /\ In ".jsx" fileExtensions
  /\ (exists n, getNode g target = Some n
                /\ In n (getAllNodes g) /\ In importer (importedBy n)
                /\ (~ In target files -> imports n = []))
  /\ In target (JsMap.keys (nodes g))
  /\ NoDup (JsMap.keys (nodes g))
  /\ getFileCount g = List.length (JsMap.keys (nodes g))
  /\ (forall localeCompare g' n,
        getNode g' target = Some n -> isLeaf (metrics n) = true ->
        In n (getLeafFiles localeCompare g'))
  /\ (forall localeCompare,
        ~ In target files ->
        (forall q, In q (importedByOf g target) -> q = importer) ->
        In target (map filePath (getLeafFiles localeCompare (removeFile g importer))))
  /\ (exists n, getNode resumed target = Some n /\ In importer (importedBy n))
  /\ In target (JsMap.keys (nodes resumed)).
Proof.
  intros Hfiles Hparsed Himp Hlocal Hres Hext g resumed.
  assert (Hne : target <> EmptyString).
  { apply orb_true_iff in Hext.
    destruct Hext as [H|H]; eapply endsWith_nonempty; eauto; discriminate. }
  assert (Htarget : In target (targetsOf h opts importer)).
  { unfold targetsOf. rewrite Hparsed. now apply In_localTargets with imp. }
  assert (Hgen : forall g0,
    isNode (calculateMetrics (fold_left (processFile h opts) files g0)) target = true
    /\ In importer
         (importedByOf (calculateMetrics (fold_left (processFile h opts) files g0))
                       target)).
  { intros g0. split.
    - rewrite isNode_calculateMetrics, isNode_processFiles.
      apply orb_true_iff. right. apply existsb_exists. exists importer.
      split; [assumption|]. apply orb_true_iff. right. now apply includes_In.
    - rewrite importedByOf_calculateMetrics, importedByOf_processFiles. now right. }
  assert (Hwf : graphWellFormed g = true) by apply wf_buildGraph.
  destruct (Hgen (new_ImportGraph root)) as [Hnode Hin]. fold (buildGraph h opts root files) in Hnode, Hin. fold g in Hnode, Hin.
  destruct (proj1 (isNode_true g target) Hnode) as [n Hn].
  split; [simpl; tauto|]. split; [simpl; tauto|].
  split.
  { exists n. split; [assumption|].
    split; [now apply getNode_In_getAllNodes with target|].
    split.
    - unfold importedByOf in Hin. now rewrite Hn in Hin.
    - intros Hnot. apply nil_iff_no_member. intros y Hy.
      assert (Hy' : In y (importsOf g target))
        by (unfold importsOf; now rewrite Hn).
      unfold g, buildGraph in Hy'.
      rewrite importsOf_calculateMetrics, importsOf_processFiles in Hy'.
      destruct Hy' as [[]|[Hy' _]]. contradiction. }
  split; [now apply isNode_keys|].
  split; [now apply graphWellFormed_spec in Hwf|].
  split.
  { unfold getFileCount, JsMap.size, JsMap.keys. now rewrite length_map. }
  split.
  { intros lc g' n' Hn' Hleaf. apply in_getLeafFiles. split; [|assumption].
    now apply getNode_In_getAllNodes with target. }
  split.
  { intros lc Hnot Honly.
    assert (Hdiff : importer <> target) by (intros ->; contradiction).
    assert (Hnode2 : isNode (removeFile g importer) target = true).
    { unfold removeFile. rewrite isNode_calculateMetrics, isNode_removeNode, Hnode.
      destruct (String.eqb_spec importer target); [contradiction|reflexivity]. }
    destruct (proj1 (isNode_true _ target) Hnode2) as [n2 Hn2].
    assert (Hin2 : importedByOf (removeFile g importer) target = []).
    { unfold removeFile. rewrite importedByOf_calculateMetrics, importedByOf_removeNode.
      destruct (String.eqb_spec importer target); [reflexivity|].
      assert (Hout : In target (importsOf g importer)).
      { unfold g, buildGraph. rewrite importsOf_calculateMetrics, importsOf_processFiles.
        now right. }
      apply (proj2 (includes_In _ _)) in Hout. rewrite Hout.
      apply nil_iff_no_member. intros q Hq. apply In_without in Hq.
      destruct Hq as [Hq Hqne]. now apply Hqne, Honly. }
    unfold importedByOf in Hin2. rewrite Hn2 in Hin2.
    apply in_map_iff. exists n2. split.
    - apply wf_getNode_filePath with (removeFile g importer); [|assumption].
      now apply wf_removeFile.
    - apply in_getLeafFiles. split; [now apply getNode_In_getAllNodes with target|].
      unfold removeFile in *.
      apply (isLeaf_current (calculateMetrics (removeNode g importer)) n2);
        [|assumption].
      apply calculateMetrics_current. now apply getNode_In_getAllNodes with target. }
  destruct (Hgen (graph b)) as [Hnode' Hin'].
  split; [|now apply isNode_keys].
  destruct (proj1 (isNode_true _ target) Hnode') as [n' Hn']. exists n'.
  split; [exact Hn'|].
  unfold importedByOf in Hin'. unfold resumed. simpl.
  rewrite Hn' in Hin'. exact Hin'.
Qed.

Lemma C10_unenumerated_witness :
  let g := buildGraph rootedImportHost (defaultOptions "/w") "/w" ["/w/a.ts"] in
  resolveImportPath rootedImportHost (defaultOptions "/w") "./util" "/w/a.ts"
  = Returns (Some "/w/util.js")
  /\ resolveImportPath rootedImportHost (defaultOptions "/w") "/w/lib/legacy" "/w/a.ts"
     = Returns (Some "/w/lib/legacy.jsx")
  /\ In "/w/util.js" (JsMap.keys (nodes g))
  /\ In "/w/lib/legacy.jsx" (JsMap.keys (nodes g))
  /\ getFileCount g = 3
  /\ map filePath (getLeafFiles hostLocaleCompare (removeFile g "/w/a.ts"))
     = ["/w/lib/legacy.jsx"; "/w/util.js"].
Proof.
  intros g.
  destruct (parseFile rootedImportHost (defaultOptions "/w") "/w/a.ts")
    as [parsed|] eqn:E; [|vm_compute in E; discriminate E].
  assert (Himports : parsedImports parsed
                     = [mkImportInfo "./util" (Some "/w/util.js") false false [] false
                                     false;
                        mkImportInfo "/w/lib/legacy" (Some "/w/lib/legacy.jsx") false
                                     false [] false false]).
  { vm_compute in E. injection E as <-. reflexivity. }
  assert (H1 : In (mkImportInfo "./util" (Some "/w/util.js") false false [] false false)
                  (parsedImports parsed)) by (rewrite Himports; now left).
  assert (H2 : In (mkImportInfo "/w/lib/legacy" (Some "/w/lib/legacy.jsx") false false
                                [] false false)
                  (parsedImports parsed)) by (rewrite Himports; right; now left).
  pose proof (C10_unenumerated_targets_are_nodes rootedImportHost (defaultOptions "/w")
                "/w" ["/w/a.ts"] "/w/a.ts" "/w/util.js" parsed _ (new_Builder "/w")
                (or_introl eq_refl) E H1 eq_refl eq_refl eq_refl)
    as (_ & _ & _ & Hkeys1 & _).
  pose proof (C10_unenumerated_targets_are_nodes rootedImportHost (defaultOptions "/w")
                "/w" ["/w/a.ts"] "/w/a.ts" "/w/lib/legacy.jsx" parsed _
                (new_Builder "/w")
                (or_introl eq_refl) E H2 eq_refl eq_refl eq_refl)
    as (_ & _ & _ & Hkeys2 & _).
  split; [vm_compute; reflexivity|]. split; [vm_compute; reflexivity|].
  split; [exact Hkeys1|]. split; [exact Hkeys2|].
  split; vm_compute; reflexivity.
Defined.

(* ================================================================= *)
(** ** The file watcher *)

Lemma buildGraph_begin_finish h opts root b files :
  graph (builder_buildGraph_finish h opts (builder_buildGraph_begin root b) files)
  = buildGraph h opts root files.
Proof. reflexivity. Qed.

Lemma In_JsSet_add x y s : In y (JsSet.add x s) <-> In y s \/ y = x.
Proof. unfold JsSet.add. apply In_push_unless. Qed.

Lemma In_JsSet_delete x y s : In y (JsSet.delete x s) <-> In y s /\ y <> x.
Proof. apply In_without. Qed.

Lemma graph_removeFiles ds : forall b,
  graph (fold_left builder_removeFile ds b) = fold_left removeFile ds (graph b).
Proof. induction ds as [|d ds IH]; intros b; simpl; [reflexivity|now rewrite IH]. Qed.

Lemma graph_updateFiles h opts us : forall b,
  graph (fold_left (builder_updateFile h opts) us b)
  = fold_left (updateFile h opts) us (graph b).
Proof. induction us as [|u us IH]; intros b; simpl; [reflexivity|now rewrite IH]. Qed.

Lemma callLog_removeFiles ds : forall b,
  callLog (fold_left builder_removeFile ds b) = callLog b ++ map CallRemoveFile ds.
Proof.
  induction ds as [|d ds IH]; intros b; simpl; [now rewrite app_nil_r|].
  rewrite IH. simpl. now rewrite <- app_assoc.
Qed.

Lemma callLog_updateFiles h opts us : forall b,
  callLog (fold_left (builder_updateFile h opts) us b)
  = callLog b ++ map CallUpdateFile us.
Proof.
  induction us as [|u us IH]; intros b; simpl; [now rewrite app_nil_r|].
  rewrite IH. simpl. now rewrite <- app_assoc.
Qed.

Lemma graphInstance_removeFiles ds : forall b,
  graphInstance (fold_left builder_removeFile ds b) = graphInstance b.
Proof. induction ds as [|d ds IH]; intros b; simpl; [reflexivity|now rewrite IH]. Qed.

Lemma graphInstance_updateFiles h opts us : forall b,
  graphInstance (fold_left (builder_updateFile h opts) us b) = graphInstance b.
Proof. induction us as [|u us IH]; intros b; simpl; [reflexivity|now rewrite IH]. Qed.

Lemma isNode_removeFile g d x :
  isNode (removeFile g d) x = negb (String.eqb d x) && isNode g x.
Proof. unfold removeFile. now rewrite isNode_calculateMetrics, isNode_removeNode. Qed.

Lemma isNode_updateFile h opts g u x :
  isNode (updateFile h opts g u) x =
  isNode g x || (parses h opts u && String.eqb u x) || includes x (targetsOf h opts u).
Proof.
  unfold updateFile.
  now rewrite isNode_calculateMetrics, isNode_processFile, isNode_clearEdgesFor.
Qed.

Lemma isNode_removeFiles ds : forall g x,
  isNode (fold_left removeFile ds g) x = negb (includes x ds) && isNode g x.
Proof.
  induction ds as [|d ds IH]; intros g x; simpl; [reflexivity|].
  rewrite IH, isNode_removeFile. rewrite (String.eqb_sym x d).
  destruct (String.eqb d x), (includes x ds); reflexivity.
Qed.

Lemma isNode_updateFiles h opts us : forall g x,
  isNode (fold_left (updateFile h opts) us g) x =
  isNode g x ||
  existsb (fun u => (parses h opts u && String.eqb u x)
                    || includes x (targetsOf h opts u)) us.
Proof.
  induction us as [|u us IH]; intros g x; simpl.
  - now rewrite orb_false_r.
  - rewrite IH, isNode_updateFile. now rewrite <- !orb_assoc.
Qed.

Lemma pendingAdmissible_handleEvent h root w e :
  pendingAdmissible h root w -> pendingAdmissible h root (handleEvent h root w e).
Proof.
  intros H. destruct e as [p|p|p]; simpl;
    unfold handleCreate, handleChange, handleDelete;
    destruct (shouldIgnore h root p) eqn:E; try assumption;
    intros q; simpl; rewrite ?In_JsSet_add, ?In_JsSet_delete;
    intros Hq; destruct (String.eqb_spec q p) as [->|Hne]; try assumption;
    apply H; tauto.
Qed.

Lemma pendingAdmissible_events h root events : forall w,
  pendingAdmissible h root w ->
  pendingAdmissible h root (fold_left (handleEvent h root) events w).
Proof.
  induction events as [|e events IH]; intros w H; simpl; [assumption|].
  now apply IH, pendingAdmissible_handleEvent.
Qed.

(** C5 as stated fails: "an identity in both pending sets is gone from the
    graph after the flush" does not hold.  Deleted and then created again
    within one debounce window, [/w/a.ts] is removed and then re-added. *)
Lemma C5_update_follows_delete :
  ~ (forall (h : Host) (opts : CompilerOptions) (root : string)
            (events : list WatcherEvent) (b : Builder) (path : string),
       let w := fold_left (handleEvent h root) events new_FileWatcher in
       In path (pendingUpdates w) -> In path (pendingDeletes w) ->
       isNode (graph (snd (fst (flushUpdates h opts w b)))) path = false).
Proof.
  intros claim.
  specialize (claim oneFileHost noOptions "/w"
                [FileDeleted "/w/a.ts"; FileCreated "/w/a.ts"]
                (new_Builder "/w") "/w/a.ts").
  vm_compute in claim. discriminate claim; auto.
Qed.

(** C5, as the code has it.  A flush calls [removeFile] for every pending
    delete and then [updateFile] for every pending update, and empties both
    sets.  So a path pending in the update set is a node after the flush
    whenever it parses, also when it is pending in the delete set; a path
    pending in the delete set is no node after the flush when no update
    brings it back (its own update is absent or fails to parse, and no updated
    file imports it), and it is a node when one does.  In full: a path is a
    node after the flush exactly when it was one and is not pending in the
    delete set, or some pending update is its own and parses, or some
    updated file imports it.  A delete event cancels the pending update of
    its path. *)
Theorem C5_flush_deletes_then_updates
  (h : Host) (opts : CompilerOptions) (root : string)
  (events : list WatcherEvent) (b : Builder) (path : string) :
  let w := fold_left (handleEvent h root) events new_FileWatcher in
  let w' := fst (fst (flushUpdates h opts w b)) in
  let b' := snd (fst (flushUpdates h opts w b)) in
  (exists removes updates,
     callLog b' = callLog b ++ removes ++ updates
     /\ Forall isRemoveCall removes /\ Forall isUpdateCall updates
     /\ removes = map CallRemoveFile (pendingDeletes w)
     /\ updates = map CallUpdateFile (pendingUpdates w))
  /\ pendingUpdates w' = [] /\ pendingDeletes w' = []
  /\ (In path (pendingUpdates w) -> parses h opts path = true ->
      isNode (graph b') path = true)
  /\ (In path (pendingDeletes w) ->
      (forall u, In u (pendingUpdates w) ->
                 (u = path -> parses h opts u = false)
                 /\ ~ In path (targetsOf h opts u)) ->
      isNode (graph b') path = false)
  /\ (isNode (graph b') path = true <->
      (isNode (graph b) path = true /\ ~ In path (pendingDeletes w))
      \/ exists u, In u (pendingUpdates w)
                   /\ ((u = path /\ parses h opts u = true)
                       \/ In path (targetsOf h opts u)))
  /\ ~ In path (pendingUpdates (handleDelete h root w path))
  /\ (shouldIgnore h root path = false ->
      In path (pendingDeletes (handleDelete h root w path))).
Proof.
  intros w w' b'. unfold w', b', flushUpdates. simpl.
  split.
  { exists (map CallRemoveFile (pendingDeletes w)), (map CallUpdateFile (pendingUpdates w)).
    rewrite callLog_updateFiles, callLog_removeFiles, <- app_assoc.
    repeat split.
    - apply Forall_forall. intros c Hc. apply in_map_iff in Hc.
      destruct Hc as (p & <- & _). exact I.
    - apply Forall_forall. intros c Hc. apply in_map_iff in Hc.
      destruct Hc as (p & <- & _). exact I. }
  split; [reflexivity|]. split; [reflexivity|].
  rewrite graph_updateFiles, graph_removeFiles.
  split.
  { intros Hin Hparse. rewrite isNode_updateFiles.
    apply orb_true_iff. right. apply existsb_exists. exists path.
    split; [assumption|]. now rewrite Hparse, String.eqb_refl. }
  split.
  { intros Hin Hno. rewrite isNode_updateFiles, isNode_removeFiles.
    apply (proj2 (includes_In _ _)) in Hin. rewrite Hin. simpl.
    apply not_true_is_false. intros Hex. apply existsb_exists in Hex.
    destruct Hex as (u & Hu & Hor). destruct (Hno u Hu) as [Hself Htargets].
    apply orb_true_iff in Hor. destruct Hor as [Hor|Hor].
    - apply andb_true_iff in Hor. destruct Hor as [Hp Heq].
      apply String.eqb_eq in Heq. rewrite (Hself Heq) in Hp. discriminate.
    - now apply includes_In in Hor. }
  split.
  { rewrite isNode_updateFiles, isNode_removeFiles.
    rewrite orb_true_iff, andb_true_iff, negb_true_iff, includes_false, existsb_exists.
    split.
    - intros [[Hnot Hnode]|(u & Hu & Hor)]; [left; tauto|]. right. exists u.
      split; [assumption|]. apply orb_true_iff in Hor. destruct Hor as [Hor|Hor].
      + apply andb_true_iff in Hor. destruct Hor as [Hp Heq].
        apply String.eqb_eq in Heq. now left.
      + right. now apply includes_In.
    - intros [[Hnode Hnot]|(u & Hu & [[Heq Hp]|Hin])]; [left; tauto| |].
      + right. exists u. split; [assumption|]. subst u.
        now rewrite Hp, String.eqb_refl.
      + right. exists u. split; [assumption|]. apply orb_true_iff. right.
        now apply includes_In. }
  assert (Hadm : pendingAdmissible h root w).
  { apply pendingAdmissible_events. intros p [[]|[]]. }
  unfold handleDelete. destruct (shouldIgnore h root path) eqn:E.
  - split; [|discriminate]. intros Hin.
    rewrite (Hadm path (or_introl Hin)) in E. discriminate.
  - simpl. split.
    + rewrite In_JsSet_delete. tauto.
    + intros _. apply In_JsSet_add. now right.
Qed.

Lemma C5_flush_witness :
  let w := fold_left (handleEvent oneFileHost "/w")
             [FileDeleted "/w/a.ts"; FileCreated "/w/a.ts"] new_FileWatcher in
  let b' := snd (fst (flushUpdates oneFileHost noOptions w (new_Builder "/w"))) in
  let w2 := fold_left (handleEvent importsLockedHost "/w")
              [FileDeleted "/w/d.ts"; FileCreated "/w/d.ts"; FileChanged "/w/a.ts"]
              new_FileWatcher in
  let b2 := snd (fst (flushUpdates importsLockedHost noOptions w2 (new_Builder "/w"))) in
  In "/w/a.ts" (pendingUpdates w) /\ In "/w/a.ts" (pendingDeletes w)
  /\ parses oneFileHost noOptions "/w/a.ts" = true
  /\ callLog b' = [CallRemoveFile "/w/a.ts"; CallUpdateFile "/w/a.ts"]
  /\ isNode (graph b') "/w/a.ts" = true
  /\ In "/w/d.ts" (pendingUpdates w2) /\ In "/w/d.ts" (pendingDeletes w2)
  /\ parses importsLockedHost noOptions "/w/d.ts" = false
  /\ In "/w/d.ts" (targetsOf importsLockedHost noOptions "/w/a.ts")
  /\ isNode (graph b2) "/w/d.ts" = true.
Proof.
  intros w b' w2 b2.
  assert (Hin : In "/w/a.ts" (pendingUpdates w)) by (left; reflexivity).
  assert (Hparse : parses oneFileHost noOptions "/w/a.ts" = true) by reflexivity.
  split; [exact Hin|]. split; [left; reflexivity|]. split; [exact Hparse|].
  split; [vm_compute; reflexivity|].
  destruct (C5_flush_deletes_then_updates oneFileHost noOptions "/w"
              [FileDeleted "/w/a.ts"; FileCreated "/w/a.ts"]
              (new_Builder "/w") "/w/a.ts") as (_ & _ & _ & Hnode & _).
  split; [exact (Hnode Hin Hparse)|].
  assert (Hup : In "/w/a.ts" (pendingUpdates w2)) by (right; left; reflexivity).
  assert (Htarget : In "/w/d.ts" (targetsOf importsLockedHost noOptions "/w/a.ts"))
    by (left; reflexivity).
  split; [left; reflexivity|]. split; [left; reflexivity|].
  split; [reflexivity|]. split; [exact Htarget|].
  destruct (C5_flush_deletes_then_updates importsLockedHost noOptions "/w"
              [FileDeleted "/w/d.ts"; FileCreated "/w/d.ts"; FileChanged "/w/a.ts"]
              (new_Builder "/w") "/w/d.ts") as (_ & _ & _ & _ & _ & Hiff & _).
  apply Hiff. right. exists "/w/a.ts". split; [exact Hup|]. right. exact Htarget.
Defined.

(* ================================================================= *)
(** ** The [isAnalyzing] guard *)

Lemma length_replaceNth {A} i (x : A) l :
  List.length (replaceNth i x l) = List.length l.
Proof.
  revert i. induction l as [|y l IH]; intros [|i]; simpl; try reflexivity.
  now rewrite IH.
Qed.

Lemma removeNth_single {A} i (x y : A) l :
  List.length l = 1 -> nth_error l i = Some y -> removeNth i l = [].
Proof.
  destruct l as [|a [|b l]]; simpl; try discriminate.
  intros _. destruct i as [|i]; simpl; [reflexivity|].
  destruct i; discriminate.
Qed.

Lemma nth_error_nil_None {A} i : nth_error (@nil A) i = None.
Proof. destruct i; reflexivity. Qed.

Lemma guardConsistent_step h opts root s e :
  guardConsistent s -> guardConsistent (step h opts root s e).
Proof.
  unfold guardConsistent. intros Hs.
  destruct e as [|i|i files|i|i|we|]; simpl.
  - destruct (isAnalyzing s) eqn:E; [now rewrite E|].
    left. simpl. destruct Hs as [[Ht _]|[_ Hr]]; [congruence|].
    now rewrite Hr.
  - destruct (nth_error (running s) i) as [[| |]|] eqn:E; try assumption.
    simpl. rewrite length_replaceNth.
    destruct Hs as [Hs|[_ Hr]]; [now left|].
    rewrite Hr, nth_error_nil_None in E. discriminate.
  - destruct (nth_error (running s) i) as [[| |]|] eqn:E; try assumption.
    simpl. rewrite length_replaceNth.
    destruct Hs as [Hs|[_ Hr]]; [now left|].
    rewrite Hr, nth_error_nil_None in E. discriminate.
  - destruct (nth_error (running s) i) as [[| |]|] eqn:E; try assumption.
    right. simpl. split; [reflexivity|].
    destruct Hs as [[_ Hl]|[_ Hr]].
    + exact (removeNth_single i AwaitNavigation AwaitNavigation (running s) Hl E).
    + rewrite Hr, nth_error_nil_None in E. discriminate.
  - destruct (nth_error (running s) i) as [ph|] eqn:E; try assumption.
    right. simpl. split; [reflexivity|].
    destruct Hs as [[_ Hl]|[_ Hr]].
    + exact (removeNth_single i ph ph (running s) Hl E).
    + rewrite Hr, nth_error_nil_None in E. discriminate.
  - assumption.
  - destruct (timerArmed (fileWatcher s)); [|assumption].
    destruct (flushUpdates h opts (fileWatcher s) (graphBuilder s)) as [[w b] c].
    exact Hs.
Qed.

Lemma guardConsistent_runEvents h opts root events : forall s,
  guardConsistent s -> guardConsistent (runEvents h opts root events s).
Proof.
  unfold runEvents. induction events as [|e events IH]; intros s H; simpl; [assumption|].
  now apply IH, guardConsistent_step.
Qed.

(** C6 as stated fails: "an update requested while a build is running is
    dropped" does not hold.  While [buildGraph] waits for the file list, a
    change of [/w/a.ts] is flushed into the builder, on the graph instance
    that the build has just allocated. *)
Lemma C6_update_runs_during_build :
  ~ (forall (h : Host) (opts : CompilerOptions) (root : string)
            (events : list HostEvent),
       let s := runEvents h opts root events (new_ViewProvider root) in
       buildInFlight s = true ->
       graphBuilder (step h opts root s TimerFires) = graphBuilder s).
Proof.
  intros claim.
  specialize (claim oneFileHost noOptions "/w"
                [RunAnalysis; ProgressCallsBack 0;
                 Watcher (FileChanged "/w/a.ts")]).
  vm_compute in claim. specialize (claim eq_refl). discriminate claim.
Qed.

(** C6, as the code has it.  [runAnalysis] is guarded by [isAnalyzing]: in
    every reachable state at most one activation is under way, the flag is
    set exactly then, and a [runAnalysis] arriving while it is set changes
    nothing.  The builder has no guard of its own: a flush applies its
    removals and updates to the builder's current graph instance whatever
    the flag says, also while a build is in flight. *)
Theorem C6_guard_covers_runAnalysis_only
  (h : Host) (opts : CompilerOptions) (root : string) (events : list HostEvent) :
  let s := runEvents h opts root events (new_ViewProvider root) in
  List.length (running s) <= 1
  /\ (isAnalyzing s = true <-> running s <> [])
  /\ (isAnalyzing s = true -> step h opts root s RunAnalysis = s)
  /\ (timerArmed (fileWatcher s) = true ->
      graphBuilder (step h opts root s TimerFires)
      = snd (fst (flushUpdates h opts (fileWatcher s) (graphBuilder s)))
      /\ graphInstance (graphBuilder (step h opts root s TimerFires))
         = graphInstance (graphBuilder s)
      /\ callLog (graphBuilder (step h opts root s TimerFires))
         = callLog (graphBuilder s)
           ++ map CallRemoveFile (pendingDeletes (fileWatcher s))
           ++ map CallUpdateFile (pendingUpdates (fileWatcher s))).
Proof.
  intros s.
  assert (H : guardConsistent s).
  { apply guardConsistent_runEvents. right. split; reflexivity. }
  split; [|split; [|split]].
  - destruct H as [[_ Hl]|[_ Hr]]; [lia|]. rewrite Hr. simpl. lia.
  - destruct H as [[Ht Hl]|[Hf Hr]].
    + split; [|trivial]. intros _ Hnil. rewrite Hnil in Hl. discriminate.
    + rewrite Hf, Hr. split; [discriminate|congruence].
  - intros Ht. simpl. now rewrite Ht.
  - intros Harmed. simpl. rewrite Harmed.
    unfold flushUpdates. simpl.
    split; [reflexivity|]. split.
    + now rewrite graphInstance_updateFiles, graphInstance_removeFiles.
    + now rewrite callLog_updateFiles, callLog_removeFiles, <- app_assoc.
Qed.

Lemma C6_guard_witness :
  let s := runEvents oneFileHost noOptions "/w"
             [RunAnalysis; ProgressCallsBack 0; Watcher (FileChanged "/w/a.ts")]
             (new_ViewProvider "/w") in
  isAnalyzing s = true /\ buildInFlight s = true
  /\ step oneFileHost noOptions "/w" s RunAnalysis = s
  /\ callLog (graphBuilder (step oneFileHost noOptions "/w" s TimerFires))
     = [CallUpdateFile "/w/a.ts"].
Proof.
  intros s.
  destruct (C6_guard_covers_runAnalysis_only oneFileHost noOptions "/w"
              [RunAnalysis; ProgressCallsBack 0; Watcher (FileChanged "/w/a.ts")])
    as (_ & _ & Hdrop & Hflush).
  assert (Ht : isAnalyzing s = true) by reflexivity.
  split; [exact Ht|]. split; [reflexivity|].
  split; [exact (Hdrop Ht)|].
  destruct (Hflush eq_refl) as (_ & _ & Hlog). exact Hlog.
Defined.

(* ################################################################# *)
(** * Further properties of the code *)

(* ================================================================= *)
(** ** [ImportGraph]: nodes *)

Lemma addNode_present g p n : getNode g p = Some n -> addNode g p = g.
Proof. intros H. unfold addNode, JsMap.has. unfold getNode in H. now rewrite H. Qed.

(** X1.  [addNode] is idempotent and never touches an existing node: on a known
    path the graph is returned as it is; on a new path one node with empty
    edge lists and initial metrics is appended, after all others. *)
Theorem addNode_idempotent_conservative (g : ImportGraph) (p : string) :
  addNode (addNode g p) p = addNode g p
  /\ (forall n, getNode g p = Some n -> addNode g p = g)
  /\ (forall q n, getNode g q = Some n -> getNode (addNode g p) q = Some n)
  /\ (getNode g p = None ->
      getAllNodes (addNode g p)
      = getAllNodes g ++ [mkFileNode p (getRelativePath g p) [] [] initialMetrics])
  /\ getFileCount (addNode g p) = getFileCount g + (if isNode g p then 0 else 1).
Proof.
  split.
  { destruct (getNode_addNode_same g p) as [n Hn]. now apply addNode_present with n. }
  split; [apply addNode_present|].
  split; [intros q n; apply getNode_addNode_keeps|].
  split.
  - intros Hnone. unfold addNode, JsMap.has. unfold getNode in Hnone. rewrite Hnone.
    unfold getAllNodes, JsMap.values. simpl.
    rewrite set_absent by assumption. now rewrite map_app.
  - unfold isNode, addNode, JsMap.has, getNode.
    destruct (JsMap.get p (nodes g)) eqn:E; [lia|].
    unfold getFileCount, JsMap.size. simpl.
    rewrite set_absent by assumption. rewrite length_app. reflexivity.
Qed.

Lemma modify_fixed {V} k (f : V -> V) (m : JsMap.t V) :
  (forall v, In (k, v) m -> f v = v) -> JsMap.modify k f m = m.
Proof.
  intros H. unfold JsMap.modify. induction m as [|[k0 v0] m IH]; simpl; [reflexivity|].
  rewrite IH by (intros v Hv; apply H; now right).
  destruct (String.eqb_spec k0 k) as [->|_]; simpl; [|reflexivity].
  rewrite H; [reflexivity|now left].
Qed.

Lemma In_modify {V} k (f : V -> V) (m : JsMap.t V) k' v' :
  In (k', v') (JsMap.modify k f m) <->
  exists v, In (k', v) m /\ v' = if String.eqb k' k then f v else v.
Proof.
  unfold JsMap.modify. rewrite in_map_iff. split.
  - intros ([k0 v0] & E & Hin). simpl in E.
    destruct (String.eqb k0 k) eqn:Ek; injection E as <- <-; exists v0;
      rewrite Ek; auto.
  - intros (v & Hin & ->). exists (k', v). split; [|assumption]. simpl.
    destruct (String.eqb k' k); reflexivity.
Qed.

Lemma addEdge_fixed g a b :
  isNode g a = true -> isNode g b = true ->
  (forall v, In (a, v) (nodes g) -> includes b (imports v) = true) ->
  (forall v, In (b, v) (nodes g) -> includes a (importedBy v) = true) ->
  addEdge g a b = g.
Proof.
  intros Ha Hb Hout Hin.
  apply isNode_true in Ha. destruct Ha as [na Hna].
  apply isNode_true in Hb. destruct Hb as [nb Hnb].
  unfold addEdge.
  rewrite (addNode_present g a na Hna), (addNode_present g b nb Hnb).
  unfold modifyNode. cbn [nodes with_nodes workspaceRoot].
  rewrite (modify_fixed a) by (intros v Hv; now rewrite (Hout v Hv)).
  rewrite (modify_fixed b) by (intros v Hv; now rewrite (Hin v Hv)).
  now destruct g.
Qed.

(** X2.  [addEdge] is idempotent: drawing an edge that is there changes nothing. *)
Theorem addEdge_idempotent (g : ImportGraph) (a b : string) :
  addEdge (addEdge g a b) a b = addEdge g a b.
Proof.
  apply addEdge_fixed.
  - rewrite isNode_addEdge, String.eqb_refl. reflexivity.
  - rewrite isNode_addEdge, String.eqb_refl. now rewrite orb_true_r.
  - intros v Hv. unfold addEdge, modifyNode in Hv. simpl in Hv.
    apply In_modify in Hv. destruct Hv as (v1 & Hv1 & ->).
    apply In_modify in Hv1. destruct Hv1 as (v0 & _ & ->).
    rewrite String.eqb_refl.
    assert (E : includes b (imports (if includes b (imports v0) then v0
                                     else set_imports v0 (imports v0 ++ [b]))) = true).
    { destruct (includes b (imports v0)) eqn:E0; [exact E0|].
      simpl. apply includes_In, in_or_app. right. now left. }
    destruct (String.eqb a b); [|exact E].
    match goal with |- context [if ?c then _ else _] => destruct c end; exact E.
  - intros v Hv. unfold addEdge, modifyNode in Hv. simpl in Hv.
    apply In_modify in Hv. destruct Hv as (v1 & _ & ->).
    rewrite String.eqb_refl.
    destruct (includes a (importedBy v1)) eqn:E0; [exact E0|].
    simpl. apply includes_In, in_or_app. right. now left.
Qed.

Lemma getNode_removeNode_self g x : getNode (removeNode g x) x = None.
Proof.
  pose proof (isNode_removeNode g x x) as H. rewrite String.eqb_refl in H.
  unfold isNode in H. simpl in H. destruct (getNode (removeNode g x) x); [discriminate|reflexivity].
Qed.

Lemma delete_absent {V} k (m : JsMap.t V) : JsMap.get k m = None -> JsMap.delete k m = m.
Proof.
  unfold JsMap.delete. induction m as [|[k0 v0] m IH]; simpl; [reflexivity|].
  destruct (String.eqb k0 k); [discriminate|]. simpl. intros H. now rewrite IH.
Qed.

Lemma delete_set_absent {V} k (v : V) (m : JsMap.t V) :
  JsMap.get k m = None -> JsMap.delete k (JsMap.set k v m) = m.
Proof.
  intros H. rewrite set_absent by assumption.
  unfold JsMap.delete. rewrite filter_app. simpl. rewrite String.eqb_refl. simpl.
  rewrite app_nil_r. now apply delete_absent.
Qed.

(** X3.  In an edge-symmetric graph, [removeNode] leaves no trace of the path: it
    is no node any more and occurs in no edge list, while the edges among the
    other nodes stay as they were.  On an unknown path nothing happens. *)
Theorem removeNode_leaves_no_reference (g : ImportGraph) (x : string) :
  edgeSymmetric g ->
  getNode (removeNode g x) x = None
  /\ (forall p, ~ In x (importsOf (removeNode g x) p)
                /\ ~ In x (importedByOf (removeNode g x) p))
  /\ (forall p q, p <> x -> q <> x ->
        (In q (importsOf (removeNode g x) p) <-> In q (importsOf g p))
        /\ (In q (importedByOf (removeNode g x) p) <-> In q (importedByOf g p)))
  /\ (forall p, p <> x -> isNode (removeNode g x) p = isNode g p)
  /\ (getNode g x = None -> removeNode g x = g).
Proof.
  intros Hsym.
  pose proof (edgeSymmetric_removeNode g x Hsym) as Hsym'.
  assert (Hout : forall p, ~ In x (importedByOf (removeNode g x) p)).
  { intros p Hin. apply Hsym' in Hin. rewrite importsOf_removeNode in Hin.
    now rewrite String.eqb_refl in Hin. }
  assert (Hinc : forall p, ~ In x (importsOf (removeNode g x) p)).
  { intros p Hin. apply Hsym' in Hin. rewrite importedByOf_removeNode in Hin.
    now rewrite String.eqb_refl in Hin. }
  split; [apply getNode_removeNode_self|].
  split; [intros p; split; [apply Hinc|apply Hout]|].
  split.
  { intros p q Hp Hq. rewrite importsOf_removeNode, importedByOf_removeNode.
    destruct (String.eqb_spec x p) as [->|_]; [congruence|].
    split.
    - match goal with |- context [includes p ?l] => destruct (includes p l) end;
        [rewrite In_without|]; tauto.
    - destruct (includes p (importsOf g x)); [rewrite In_without|]; tauto. }
  split.
  { intros p Hp. rewrite isNode_removeNode.
    destruct (String.eqb_spec x p); [congruence|reflexivity]. }
  intros Hnone. unfold removeNode. now rewrite Hnone.
Qed.

Lemma removeNode_leaves_no_reference_witness :
  let g := runOps [OpAddEdge "/w/a.ts" "/w/b.ts"; OpAddEdge "/w/b.ts" "/w/a.ts";
                   OpAddEdge "/w/c.ts" "/w/b.ts"] (new_ImportGraph "/w") in
  edgeSymmetric g
  /\ getNode (removeNode g "/w/b.ts") "/w/b.ts" = None
  /\ importsOf (removeNode g "/w/b.ts") "/w/a.ts" = [].
Proof.
  intros g.
  assert (H : edgeSymmetric g) by (apply edgeSymmetric_runOps, edgeSymmetric_new).
  split; [exact H|].
  split; [exact (proj1 (removeNode_leaves_no_reference g "/w/b.ts" H))|].
  vm_compute. reflexivity.
Defined.

(** X4.  [removeNode] undoes [addNode]: adding a path that is new and removing it
    again gives back the graph, entry for entry. *)
Theorem removeNode_undoes_addNode (g : ImportGraph) (x : string) :
  getNode g x = None -> removeNode (addNode g x) x = g.
Proof.
  intros Hnone.
  assert (E : addNode g x
              = with_nodes g (JsMap.set x
                  (mkFileNode x (getRelativePath g x) [] [] initialMetrics) (nodes g))).
  { unfold addNode, JsMap.has. unfold getNode in Hnone. now rewrite Hnone. }
  rewrite E. unfold removeNode, getNode. cbn [nodes with_nodes].
  rewrite JsMapFacts.get_set, String.eqb_refl. cbn [imports scrubImportedBy fold_left].
  unfold getNode. cbn [nodes with_nodes].
  rewrite JsMapFacts.get_set, String.eqb_refl. cbn [importedBy scrubImports fold_left].
  cbn [nodes with_nodes workspaceRoot].
  rewrite delete_set_absent by exact Hnone. now destruct g.
Qed.

Lemma removeNode_undoes_addNode_witness :
  removeNode (addNode leafScenario "/w/new.ts") "/w/new.ts" = leafScenario.
Proof.
  apply removeNode_undoes_addNode. vm_compute. reflexivity.
Defined.

(* ================================================================= *)
(** ** [ImportGraph]: metrics *)

(** X5.  [calculateMetrics] is idempotent, and it changes metrics only: the
    paths, their order and both edge lists of every node stay. *)
Theorem calculateMetrics_idempotent (g : ImportGraph) :
  calculateMetrics (calculateMetrics g) = calculateMetrics g
  /\ JsMap.keys (nodes (calculateMetrics g)) = JsMap.keys (nodes g)
  /\ (forall p, importsOf (calculateMetrics g) p = importsOf g p
                /\ importedByOf (calculateMetrics g) p = importedByOf g p).
Proof.
  split; [|split].
  - unfold calculateMetrics at 1. rewrite maxInDegreeOf_calculateMetrics.
    rewrite nodes_calculateMetrics. rewrite map_map. simpl.
    unfold calculateMetrics, with_nodes. simpl. f_equal.
  - rewrite nodes_calculateMetrics. unfold JsMap.keys. now rewrite map_map.
  - intros p. split; [apply importsOf_calculateMetrics|apply importedByOf_calculateMetrics].
Qed.

Lemma NoDup_map_injective {A B} (f : A -> B) l :
  (forall a b, f a = f b -> a = b) -> NoDup l -> NoDup (map f l).
Proof.
  intros Hinj. induction 1 as [|x l Hx Hnd IH]; simpl; constructor; [|exact IH].
  intros Hin. apply in_map_iff in Hin. destruct Hin as (y & Hy & Hin).
  apply Hinj in Hy. now subst.
Qed.

Lemma calculateMetrics_relabelGraph f g :
  calculateMetrics (relabelGraph f g) = relabelGraph f (calculateMetrics g).
Proof.
  assert (Hmax : maxInDegreeOf (getAllNodes (relabelGraph f g))
                 = maxInDegreeOf (getAllNodes g)).
  { unfold maxInDegreeOf, getAllNodes, JsMap.values, relabelGraph. simpl.
    rewrite !map_map. f_equal. apply map_ext. intros [k v]. simpl.
    apply length_map. }
  unfold calculateMetrics at 1. rewrite Hmax.
  unfold relabelGraph, calculateMetrics, with_nodes. simpl. f_equal.
  rewrite !map_map. apply map_ext. intros [k v]. simpl.
  unfold set_metrics, relabelNode, computeMetrics. simpl.
  now rewrite !length_map.
Qed.

Lemma getNode_relabelGraph f g p :
  (forall a b, f a = f b -> a = b) ->
  getNode (relabelGraph f g) (f p) = option_map (relabelNode f) (getNode g p).
Proof.
  intros Hinj. unfold getNode, relabelGraph. simpl.
  induction (nodes g) as [|[k v] m IH]; simpl; [reflexivity|].
  destruct (String.eqb_spec k p) as [->|Hne].
  - now rewrite String.eqb_refl.
  - destruct (String.eqb_spec (f k) (f p)) as [E|_]; [|exact IH].
    now apply Hinj in E.
Qed.

Lemma wf_relabelGraph f g :
  (forall a b, f a = f b -> a = b) ->
  graphWellFormed g = true -> graphWellFormed (relabelGraph f g) = true.
Proof.
  intros Hinj Hwf. apply graphWellFormed_spec in Hwf. destruct Hwf as [Hnd Hall].
  apply graphWellFormed_spec. unfold relabelGraph, JsMap.keys in *. simpl. split.
  - rewrite map_map. simpl. rewrite <- (map_map fst f).
    now apply NoDup_map_injective.
  - apply Forall_forall. intros kv Hkv. apply in_map_iff in Hkv.
    destruct Hkv as ([k v] & <- & Hin). simpl.
    f_equal. exact (proj1 (Forall_forall _ _) Hall (k, v) Hin).
Qed.

(** X6.  The metrics depend on the degree structure only.  Under a renaming of
    the files that keeps distinct paths distinct, the renamed store is a
    well-formed graph again, renaming and then computing the metrics is
    computing the metrics and then renaming, and the renamed file has the
    metrics (the importance score among them) that the file has under its
    old name. *)
Theorem calculateMetrics_relabel (f : string -> string) (g : ImportGraph) :
  (forall a b, f a = f b -> a = b) ->
  graphWellFormed g = true ->
  graphWellFormed (relabelGraph f g) = true
  /\ calculateMetrics (relabelGraph f g) = relabelGraph f (calculateMetrics g)
  /\ (forall p, metricsOf (calculateMetrics (relabelGraph f g)) (f p)
               = metricsOf (calculateMetrics g) p).
Proof.
  intros Hinj Hwf.
  split; [now apply wf_relabelGraph|].
  split; [apply calculateMetrics_relabelGraph|].
  intros p. unfold metricsOf.
  rewrite calculateMetrics_relabelGraph, getNode_relabelGraph by assumption.
  destruct (getNode (calculateMetrics g) p); reflexivity.
Qed.

Lemma calculateMetrics_relabel_witness :
  let f := fun p : string => ("/moved" ++ p)%string in
  (forall a b, f a = f b -> a = b)
  /\ graphWellFormed fortyAndTwentyThree = true
  /\ metricsOf (calculateMetrics (relabelGraph f fortyAndTwentyThree)) (f "/w/lib.ts")
     = metricsOf fortyAndTwentyThree "/w/lib.ts"
  /\ option_map inDegree (metricsOf fortyAndTwentyThree "/w/lib.ts") = Some 23.
Proof.
  intros f.
  assert (Hinj : forall a b, f a = f b -> a = b).
  { intros a b H. unfold f in H. simpl in H. now injection H. }
  assert (Hwf : graphWellFormed fortyAndTwentyThree = true) by (vm_compute; reflexivity).
  split; [exact Hinj|]. split; [exact Hwf|].
  destruct (calculateMetrics_relabel f fortyAndTwentyThree Hinj Hwf) as (_ & _ & H).
  split; [|vm_compute; reflexivity].
  rewrite (H "/w/lib.ts"). vm_compute. reflexivity.
Defined.

(* ================================================================= *)
(** ** [ImportGraph]: queries *)

Lemma StronglySorted_weaken {A} (R S : A -> A -> Prop) l :
  (forall a b, R a b -> S a b) -> StronglySorted R l -> StronglySorted S l.
Proof.
  intros HRS. induction 1 as [|x l Hs IH Hall]; constructor; [exact IH|].
  eapply Forall_impl; [|exact Hall]. intros y. apply HRS.
Qed.

Lemma StronglySorted_app_inv {A} (R : A -> A -> Prop) l1 l2 :
  StronglySorted R (l1 ++ l2) ->
  forall a b, In a l1 -> In b l2 -> R a b.
Proof.
  induction l1 as [|x l1 IH]; simpl; intros Hs a b Ha Hb; [destruct Ha|].
  inversion Hs as [|? ? Hs' Hall]; subst.
  destruct Ha as [<-|Ha].
  - rewrite Forall_forall in Hall. apply Hall, in_or_app. now right.
  - now apply IH.
Qed.

Lemma StronglySorted_firstn {A} (R : A -> A -> Prop) k l :
  StronglySorted R l -> StronglySorted R (firstn k l).
Proof.
  revert k. induction l as [|x l IH]; intros [|k] Hs; simpl; try constructor.
  - inversion Hs; subst. now apply IH.
  - inversion Hs as [|? ? _ Hall]; subst.
    rewrite Forall_forall in *. intros y Hy. apply Hall.
    rewrite <- (firstn_skipn k l). apply in_or_app. now left.
Qed.

(** X7.  [getLoadBearingFiles limit] returns at most [limit] nodes, all of them
    nodes of the graph with a positive [inDegree] metric, in non-increasing
    order of that metric; every such node that is left out has an in-degree
    no larger than any node returned. *)
Theorem getLoadBearingFiles_top (limit : nat) (g : ImportGraph) :
  List.length (getLoadBearingFiles limit g) <= limit
  /\ (forall n, In n (getLoadBearingFiles limit g) ->
                In n (getAllNodes g) /\ 0 < inDegree (metrics n))
  /\ StronglySorted (fun a b => inDegree (metrics b) <= inDegree (metrics a))
                    (getLoadBearingFiles limit g)
  /\ (forall n m, In n (getLoadBearingFiles limit g) ->
                  In m (getAllNodes g) -> 0 < inDegree (metrics m) ->
                  ~ In m (getLoadBearingFiles limit g) ->
                  inDegree (metrics m) <= inDegree (metrics n)).
Proof.
  unfold getLoadBearingFiles.
  set (cmp := fun a b : FileNode =>
                (Z.of_nat (inDegree (metrics b)) - Z.of_nat (inDegree (metrics a)))%Z).
  set (cands := filter (fun n => Nat.ltb 0 (inDegree (metrics n))) (getAllNodes g)).
  assert (Hsorted : StronglySorted
                      (fun a b => inDegree (metrics b) <= inDegree (metrics a))
                      (sortArray cmp cands)).
  { apply StronglySorted_weaken with (R := fun a b => (cmp a b <= 0)%Z).
    - intros a b H. unfold cmp in H. lia.
    - apply (sortArray_sorted cmp).
      + intros a b. unfold cmp. lia.
      + intros a b c. unfold cmp. lia. }
  assert (Hmem : forall n, In n (sortArray cmp cands) <->
                           In n (getAllNodes g) /\ 0 < inDegree (metrics n)).
  { intros n. unfold cands.
    pose proof (filter_In (fun n => Nat.ltb 0 (inDegree (metrics n))) n (getAllNodes g)) as F.
    simpl in F. rewrite Nat.ltb_lt in F. rewrite <- F. split.
    - apply Permutation_in, sortArray_perm.
    - apply Permutation_in. symmetry. apply sortArray_perm. }
  split; [apply firstn_le_length|].
  split.
  { intros n Hn. apply Hmem. rewrite <- (firstn_skipn limit (sortArray cmp cands)).
    apply in_or_app. now left. }
  split; [now apply StronglySorted_firstn|].
  intros n m Hn Hm Hpos Hout.
  assert (Hin : In m (sortArray cmp cands)) by (apply Hmem; tauto).
  rewrite <- (firstn_skipn limit (sortArray cmp cands)) in Hin, Hsorted.
  apply in_app_or in Hin. destruct Hin as [Hin|Hin]; [contradiction|].
  exact (StronglySorted_app_inv _ _ _ Hsorted n m Hn Hin).
Qed.

Lemma normalizeSeparators_app a b :
  normalizeSeparators (a ++ b) = (normalizeSeparators a ++ normalizeSeparators b)%string.
Proof. induction a as [|c a IH]; simpl; [reflexivity|now rewrite IH]. Qed.

Lemma prefix_app p s : String.prefix p (p ++ s) = true.
Proof.
  induction p as [|c p IH]; simpl; [now destruct s|].
  destruct (ascii_dec c c); [exact IH|congruence].
Qed.

Lemma slice_app_succ p c s : slice (String.length p + 1) (p ++ String c s) = s.
Proof. induction p as [|d p IH]; simpl; [reflexivity|exact IH]. Qed.

(** X8.  [getRelativePath] (through [addNode]): a path made of the workspace root,
    one more code unit and a rest is displayed as the rest, with backslashes
    turned into slashes; the unit after the root is dropped whatever it is.  A
    path that does not start with the root is displayed whole. *)
Theorem getRelativePath_under_root (g : ImportGraph) (c : ascii) (rest path : string) :
  getRelativePath g (workspaceRoot g ++ String c rest) = normalizeSeparators rest
  /\ (startsWith (normalizeSeparators path) (normalizeSeparators (workspaceRoot g)) = false ->
      getRelativePath g path = normalizeSeparators path)
  /\ (getNode g (workspaceRoot g ++ String c rest) = None ->
      option_map relativePath
        (getNode (addNode g (workspaceRoot g ++ String c rest))
                 (workspaceRoot g ++ String c rest))
      = Some (normalizeSeparators rest)).
Proof.
  assert (E : getRelativePath g (workspaceRoot g ++ String c rest)
              = normalizeSeparators rest).
  { unfold getRelativePath, startsWith. rewrite normalizeSeparators_app.
    rewrite prefix_app. simpl. apply slice_app_succ. }
  split; [exact E|]. split.
  - intros H. unfold getRelativePath. now rewrite H.
  - intros Hnone. rewrite getNode_addNode, String.eqb_refl, Hnone. simpl.
    now rewrite E.
Qed.

(** X9.  [deserialize] files every node under its own [filePath]; of several
    nodes with one path the last one is kept.  When the paths are pairwise
    distinct, the graph holds the nodes as given, in the given order, so
    serializing it gives back the data. *)
Theorem deserialize_last_wins (ns : list FileNode) (root p : string) :
  getNode (deserialize (ns, root)) p = lastWithPath p ns
  /\ (NoDup (map filePath ns) ->
      getAllNodes (deserialize (ns, root)) = ns
      /\ serialize (deserialize (ns, root)) = (ns, root)).
Proof.
  split.
  - unfold lastWithPath, deserialize. simpl.
    induction ns as [|n ns IH] using rev_ind; [reflexivity|].
    rewrite fold_left_app, rev_app_distr. simpl.
    unfold getNode at 1. cbn [nodes with_nodes].
    rewrite JsMapFacts.get_set. destruct (String.eqb (filePath n) p); [reflexivity|].
    exact IH.
  - intros Hnd.
    assert (E : deserialize (ns, root)
                = mkImportGraph (map (fun n => (filePath n, n)) ns) root).
    { unfold deserialize, new_ImportGraph, JsMap.empty. simpl.
      pose proof (deserialize_from root (map (fun n => (filePath n, n)) ns) []) as H.
      unfold JsMap.values in H. rewrite map_map in H. simpl in H. rewrite map_id in H.
      apply H.
      - unfold JsMap.keys. rewrite map_map. exact Hnd.
      - apply Forall_forall. intros kv Hkv. apply in_map_iff in Hkv.
        destruct Hkv as (n & <- & _). reflexivity. }
    assert (Hall : getAllNodes (deserialize (ns, root)) = ns).
    { rewrite E. unfold getAllNodes, JsMap.values. simpl.
      rewrite map_map. simpl. apply map_id. }
    split; [exact Hall|]. unfold serialize. rewrite Hall. now rewrite E.
Qed.

Lemma deserialize_last_wins_witness :
  NoDup (map filePath (getAllNodes leafScenario))
  /\ serialize (deserialize (getAllNodes leafScenario, "/w"))
     = (getAllNodes leafScenario, "/w").
Proof.
  assert (H : NoDup (map filePath (getAllNodes leafScenario))).
  { apply uniqueStrings_NoDup. vm_compute. reflexivity. }
  split; [exact H|].
  exact (proj2 (proj2 (deserialize_last_wins (getAllNodes leafScenario) "/w" "/w/a.ts") H)).
Defined.

(* ================================================================= *)
(** ** The structural invariant *)

Lemma importsOf_addEdge_eq g a b x :
  importsOf (addEdge g a b) x =
  if String.eqb a x
  then (if includes b (importsOf g x) then importsOf g x else importsOf g x ++ [b])
  else importsOf g x.
Proof.
  unfold addEdge.
  rewrite importsOf_modifyNode.
  assert (Hsecond : forall g0,
    (if String.eqb b x
     then match getNode g0 x with
          | Some n => imports (if includes a (importedBy n) then n
                               else set_importedBy n (importedBy n ++ [a]))
          | None => []
          end
     else importsOf g0 x) = importsOf g0 x).
  { intros g0. unfold importsOf. destruct (String.eqb b x); [|reflexivity].
    destruct (getNode g0 x) as [n|]; [|reflexivity].
    destruct (includes a (importedBy n)); reflexivity. }
  rewrite Hsecond, importsOf_modifyNode.
  destruct (String.eqb_spec a x) as [<-|Hne].
  - destruct (getNode_addNode_same g a) as [n Hn].
    rewrite (getNode_addNode_keeps _ b _ _ Hn).
    assert (Hi : imports n = importsOf g a).
    { rewrite <- (importsOf_addNode g a a). unfold importsOf. now rewrite Hn. }
    rewrite <- Hi. destruct (includes b (imports n)); reflexivity.
  - now rewrite !importsOf_addNode.
Qed.

Lemma importedByOf_addEdge_eq g a b y :
  importedByOf (addEdge g a b) y =
  if String.eqb b y
  then (if includes a (importedByOf g y) then importedByOf g y
        else importedByOf g y ++ [a])
  else importedByOf g y.
Proof.
  unfold addEdge.
  rewrite importedByOf_modifyNode.
  set (g2 := addNode (addNode g a) b).
  set (fpush := fun importer : FileNode =>
                  if includes b (imports importer) then importer
                  else set_imports importer (imports importer ++ [b])).
  assert (Hkeep : forall n, importedBy (fpush n) = importedBy n).
  { intros n. unfold fpush. destruct (includes b (imports n)); reflexivity. }
  assert (Hget : forall p, importedByOf (modifyNode g2 a fpush) p = importedByOf g p).
  { intros p. rewrite importedByOf_modifyNode.
    assert (E : match getNode g2 p with
                | Some n => importedBy (fpush n) | None => [] end
                = importedByOf g2 p).
    { unfold importedByOf. destruct (getNode g2 p); [apply Hkeep|reflexivity]. }
    rewrite E. unfold g2. rewrite !importedByOf_addNode.
    destruct (String.eqb a p); reflexivity. }
  destruct (String.eqb_spec b y) as [<-|Hne].
  - destruct (getNode_addNode_same (addNode g a) b) as [n Hn].
    fold g2 in Hn.
    assert (Hn' : getNode (modifyNode g2 a fpush) b
                  = Some (if String.eqb a b then fpush n else n)).
    { rewrite getNode_modifyNode, Hn. destruct (String.eqb a b); reflexivity. }
    rewrite Hn'.
    assert (Hi : importedBy (if String.eqb a b then fpush n else n) = importedByOf g b).
    { rewrite <- Hget. unfold importedByOf. now rewrite Hn'. }
    rewrite <- Hi.
    destruct (includes a (importedBy (if String.eqb a b then fpush n else n)));
      reflexivity.
  - fold (importedByOf (modifyNode g2 a fpush) y). apply Hget.
Qed.

Lemma NoDup_push_unless (x : string) l :
  NoDup l -> NoDup (if includes x l then l else l ++ [x]).
Proof.
  intros H. destruct (includes x l) eqn:E; [assumption|].
  apply includes_false in E.
  apply NoDup_app; [assumption|repeat constructor; simpl; tauto|].
  intros y Hy [<-|[]]. contradiction.
Qed.

Lemma NoDup_without x l : NoDup l -> NoDup (without x l).
Proof. apply NoDup_filter. Qed.

Lemma edgeListsDistinct_new root : edgeListsDistinct (new_ImportGraph root).
Proof. intros p. unfold importsOf, importedByOf. simpl. split; constructor. Qed.

Lemma edgeListsDistinct_addNode g k :
  edgeListsDistinct g -> edgeListsDistinct (addNode g k).
Proof. intros H p. rewrite importsOf_addNode, importedByOf_addNode. apply H. Qed.

Lemma edgeListsDistinct_addEdge g a b :
  edgeListsDistinct g -> edgeListsDistinct (addEdge g a b).
Proof.
  intros H p. rewrite importsOf_addEdge_eq, importedByOf_addEdge_eq.
  destruct (H p) as [H1 H2]. split.
  - destruct (String.eqb a p); [now apply NoDup_push_unless|assumption].
  - destruct (String.eqb b p); [now apply NoDup_push_unless|assumption].
Qed.

Lemma edgeListsDistinct_clearEdgesFor g x :
  edgeListsDistinct g -> edgeListsDistinct (clearEdgesFor g x).
Proof.
  intros H p. rewrite importsOf_clearEdgesFor, importedByOf_clearEdgesFor.
  destruct (H p) as [H1 H2]. split.
  - destruct (String.eqb x p); [constructor|assumption].
  - destruct (includes p (importsOf g x)); [now apply NoDup_without|assumption].
Qed.

Lemma edgeListsDistinct_removeNode g x :
  edgeListsDistinct g -> edgeListsDistinct (removeNode g x).
Proof.
  intros H p. rewrite importsOf_removeNode, importedByOf_removeNode.
  destruct (H p) as [H1 H2]. split.
  - destruct (String.eqb x p); [constructor|].
    match goal with |- context [includes p ?l] => destruct (includes p l) end;
      [now apply NoDup_without|assumption].
  - destruct (String.eqb x p); [constructor|].
    destruct (includes p (importsOf g x)); [now apply NoDup_without|assumption].
Qed.

Lemma edgeListsDistinct_calculateMetrics g :
  edgeListsDistinct g -> edgeListsDistinct (calculateMetrics g).
Proof.
  intros H p. rewrite importsOf_calculateMetrics, importedByOf_calculateMetrics. apply H.
Qed.

Lemma edgeSymmetric_addNode g k : edgeSymmetric g -> edgeSymmetric (addNode g k).
Proof. intros H a b. rewrite importsOf_addNode, importedByOf_addNode. apply H. Qed.

Lemma edgeSymmetric_calculateMetrics g :
  edgeSymmetric g -> edgeSymmetric (calculateMetrics g).
Proof.
  intros H a b. rewrite importsOf_calculateMetrics, importedByOf_calculateMetrics.
  apply H.
Qed.

Lemma graphSound_new root : graphSound (new_ImportGraph root).
Proof.
  split; [apply wf_new|]. split; [apply edgeSymmetric_new|apply edgeListsDistinct_new].
Qed.

Lemma graphSound_addNode g k : graphSound g -> graphSound (addNode g k).
Proof.
  intros (H1 & H2 & H3). split; [now apply wf_addNode|].
  split; [now apply edgeSymmetric_addNode|now apply edgeListsDistinct_addNode].
Qed.

Lemma graphSound_addEdge g a b : graphSound g -> graphSound (addEdge g a b).
Proof.
  intros (H1 & H2 & H3). split; [now apply wf_addEdge|].
  split; [now apply edgeSymmetric_addEdge|now apply edgeListsDistinct_addEdge].
Qed.

Lemma graphSound_clearEdgesFor g x : graphSound g -> graphSound (clearEdgesFor g x).
Proof.
  intros (H1 & H2 & H3). split; [now apply wf_clearEdgesFor|].
  split; [now apply edgeSymmetric_clearEdgesFor|now apply edgeListsDistinct_clearEdgesFor].
Qed.

Lemma graphSound_removeNode g x : graphSound g -> graphSound (removeNode g x).
Proof.
  intros (H1 & H2 & H3). split; [now apply wf_removeNode|].
  split; [now apply edgeSymmetric_removeNode|now apply edgeListsDistinct_removeNode].
Qed.

Lemma graphSound_calculateMetrics g : graphSound g -> graphSound (calculateMetrics g).
Proof.
  intros (H1 & H2 & H3). split; [now apply wf_calculateMetrics|].
  split; [now apply edgeSymmetric_calculateMetrics
         |now apply edgeListsDistinct_calculateMetrics].
Qed.

Lemma graphSound_processFile h opts g p : graphSound g -> graphSound (processFile h opts g p).
Proof.
  intros H. rewrite processFile_edges.
  destruct (parseFile h opts p) as [parsed|]; [|assumption].
  assert (H0 : graphSound (addNode g p)) by now apply graphSound_addNode.
  revert H0. generalize (addNode g p).
  induction (localTargets parsed) as [|t ts IH]; intros g0 H0; simpl; [assumption|].
  now apply IH, graphSound_addEdge.
Qed.

Lemma graphSound_processFiles h opts files : forall g,
  graphSound g -> graphSound (fold_left (processFile h opts) files g).
Proof.
  induction files as [|f files IH]; intros g H; simpl; [assumption|].
  now apply IH, graphSound_processFile.
Qed.

Lemma graphSound_updateFile h opts g p : graphSound g -> graphSound (updateFile h opts g p).
Proof.
  intros H. unfold updateFile.
  now apply graphSound_calculateMetrics, graphSound_processFile, graphSound_clearEdgesFor.
Qed.

Lemma graphSound_removeFile g p : graphSound g -> graphSound (removeFile g p).
Proof.
  intros H. unfold removeFile.
  now apply graphSound_calculateMetrics, graphSound_removeNode.
Qed.

Lemma metricsAllCurrent_calculateMetrics g : metricsAllCurrent (calculateMetrics g).
Proof. intros n Hn. now apply calculateMetrics_current. Qed.

Lemma graphSound_buildGraph h opts root files :
  graphSound (buildGraph h opts root files).
Proof.
  unfold buildGraph.
  apply graphSound_calculateMetrics, graphSound_processFiles, graphSound_new.
Qed.

(* ================================================================= *)
(** ** [ImportGraphBuilder] *)

Lemma graphSound_buildGraph_finish h opts b files :
  graphSound (graph b) -> graphSound (graph (builder_buildGraph_finish h opts b files)).
Proof.
  intros H. simpl. now apply graphSound_calculateMetrics, graphSound_processFiles.
Qed.

(** X10.  What a build adds, exactly.  [buildGraph] resumes on the graph
    [graph b] that the builder holds when [findTypeScriptFiles] answers: the
    one that the call has allocated, which a flush of the watcher may have
    filled meanwhile.  In the graph it returns there is an edge from [x] to
    [y] exactly when the edge was there at the resumption or [x] is an
    enumerated file and [y] one of the resolved local imports of its parse;
    the nodes are those of the resumption, the enumerated files that parse
    and the targets of these edges; the incoming lists mirror the outgoing
    ones; a sound graph stays sound, and every node carries the metrics of
    the final edge lists.  When nothing has run in between, the graph holds
    the edges and nodes that the enumerated files give and no others, and
    without files it is empty. *)
Theorem buildGraph_exact
  (h : Host) (opts : CompilerOptions) (root : string) (files : list string)
  (b : Builder) :
  let g0 := graph b in
  let g := graph (builder_buildGraph_finish h opts b files) in
  let fresh :=
    graph (builder_buildGraph_finish h opts (builder_buildGraph_begin root b) files) in
  (forall x y, In y (importsOf g x) <->
               In y (importsOf g0 x) \/ (In x files /\ In y (targetsOf h opts x)))
  /\ (forall x y, In x (importedByOf g y) <->
                  In x (importedByOf g0 y) \/ (In x files /\ In y (targetsOf h opts x)))
  /\ (forall x, isNode g x = true <->
                isNode g0 x = true
                \/ (In x files /\ parses h opts x = true)
                \/ exists f, In f files /\ In x (targetsOf h opts f))
  /\ (graphSound g0 -> graphSound g)
  /\ (forall n, In n (getAllNodes g) -> metricsReflectEdges g n)
  /\ fresh = buildGraph h opts root files
  /\ (forall x y, In y (importsOf fresh x) <-> In x files /\ In y (targetsOf h opts x))
  /\ (forall x y, In x (importedByOf fresh y) <->
                  In x files /\ In y (targetsOf h opts x))
  /\ (forall x, isNode fresh x = true <->
                (In x files /\ parses h opts x = true)
                \/ exists f, In f files /\ In x (targetsOf h opts f))
  /\ graphSound fresh
  /\ (files = [] -> getFileCount fresh = 0).
Proof.
  intros g0 g fresh.
  assert (Hout : forall b' x y,
    In y (importsOf (graph (builder_buildGraph_finish h opts b' files)) x) <->
    In y (importsOf (graph b') x) \/ (In x files /\ In y (targetsOf h opts x))).
  { intros b' x y. simpl. now rewrite importsOf_calculateMetrics, importsOf_processFiles. }
  assert (Hin : forall b' x y,
    In x (importedByOf (graph (builder_buildGraph_finish h opts b' files)) y) <->
    In x (importedByOf (graph b') y) \/ (In x files /\ In y (targetsOf h opts x))).
  { intros b' x y. simpl.
    now rewrite importedByOf_calculateMetrics, importedByOf_processFiles. }
  assert (Hnode : forall b' x,
    isNode (graph (builder_buildGraph_finish h opts b' files)) x = true <->
    isNode (graph b') x = true
    \/ (In x files /\ parses h opts x = true)
    \/ exists f, In f files /\ In x (targetsOf h opts f)).
  { intros b' x. simpl. rewrite isNode_calculateMetrics, isNode_processFiles.
    rewrite orb_true_iff, existsb_exists. split.
    - intros [H0|(f & Hf & Hor)]; [now left|]. right.
      apply orb_true_iff in Hor. destruct Hor as [Hor|Hor].
      + apply andb_true_iff in Hor. destruct Hor as [Hp Heq].
        apply String.eqb_eq in Heq. subst f. now left.
      + right. exists f. split; [assumption|]. now apply includes_In.
    - intros [H0|[[Hf Hp]|(f & Hf & Hi)]]; [now left| |].
      + right. exists x. split; [assumption|]. now rewrite Hp, String.eqb_refl.
      + right. exists f. split; [assumption|]. apply orb_true_iff. right.
        now apply includes_In. }
  split; [apply Hout|]. split; [apply Hin|]. split; [apply Hnode|].
  split; [apply graphSound_buildGraph_finish|].
  split; [intros n Hn; now apply calculateMetrics_reflects|].
  split; [reflexivity|].
  split.
  { intros x y. unfold fresh. rewrite Hout. simpl. tauto. }
  split.
  { intros x y. unfold fresh. rewrite Hin. simpl. tauto. }
  split.
  { intros x. unfold fresh. rewrite Hnode. simpl. split; [|tauto].
    intros [H0|H0]; [discriminate H0|exact H0]. }
  split.
  { apply graphSound_buildGraph_finish, graphSound_new. }
  intros ->. reflexivity.
Qed.

(** X11.  [updateFile] on an edge-symmetric graph replaces the outgoing edges of
    the file by those of its new parse (none when the parse fails): the
    file's outgoing list holds exactly the new targets, the file is in the
    incoming list of exactly those targets, no other node's outgoing list
    changes, and the graph is edge-symmetric again. *)
Theorem updateFile_replaces_outgoing
  (h : Host) (opts : CompilerOptions) (g : ImportGraph) (file : string) :
  edgeSymmetric g ->
  let g' := updateFile h opts g file in
  (forall y, In y (importsOf g' file) <-> In y (targetsOf h opts file))
  /\ (forall b, In file (importedByOf g' b) <-> In b (targetsOf h opts file))
  /\ (forall p y, p <> file -> (In y (importsOf g' p) <-> In y (importsOf g p)))
  /\ edgeSymmetric g'.
Proof.
  intros Hsym g'. unfold g', updateFile.
  split.
  { intros y. rewrite importsOf_calculateMetrics, importsOf_processFile,
      importsOf_clearEdgesFor, String.eqb_refl. simpl. tauto. }
  split.
  { intros b. rewrite importedByOf_calculateMetrics, importedByOf_processFile,
      importedByOf_clearEdgesFor.
    assert (Hgone : ~ In file (if includes b (importsOf g file)
                               then without file (importedByOf g b)
                               else importedByOf g b)).
    { destruct (includes b (importsOf g file)) eqn:E.
      - rewrite In_without. tauto.
      - apply includes_false in E. intros Hin. apply E. now apply Hsym. }
    tauto. }
  split.
  { intros p y Hp. rewrite importsOf_calculateMetrics, importsOf_processFile,
      importsOf_clearEdgesFor.
    destruct (String.eqb_spec file p); [congruence|]. tauto. }
  apply edgeSymmetric_calculateMetrics.
  assert (Hc : edgeSymmetric (clearEdgesFor g file))
    by now apply edgeSymmetric_clearEdgesFor.
  revert Hc. generalize (clearEdgesFor g file). intros g0 H0 a b.
  rewrite importsOf_processFile, importedByOf_processFile, (H0 a b). tauto.
Qed.

Lemma updateFile_replaces_outgoing_witness :
  let g := buildGraph selfImportHost noOptions "/w" ["/w/a.ts"] in
  edgeSymmetric g
  /\ (In "/w/a.ts" (importedByOf (updateFile oneFileHost noOptions g "/w/a.ts") "/w/util.js")
      <-> In "/w/util.js" (targetsOf oneFileHost noOptions "/w/a.ts")).
Proof.
  intros g.
  assert (H : edgeSymmetric g)
    by apply (graphSound_buildGraph selfImportHost noOptions "/w" ["/w/a.ts"]).
  split; [exact H|].
  exact (proj1 (proj2 (updateFile_replaces_outgoing oneFileHost noOptions g "/w/a.ts" H))
           "/w/util.js").
Defined.

(* ================================================================= *)
(** ** [TypeScriptParser]: resolution and import facts *)

Lemma firstSome_Some {A B} (f : A -> option B) l y :
  firstSome f l = Some y -> exists x, In x l /\ f x = Some y.
Proof.
  induction l as [|a l IH]; simpl; [discriminate|].
  destruct (f a) as [b|] eqn:E.
  - intros [= <-]. exists a. split; [now left|assumption].
  - intros H. destruct (IH H) as (x & Hx & Hfx). exists x. split; [now right|assumption].
Qed.

Lemma firstSome_None {A B} (f : A -> option B) l :
  firstSome f l = None <-> forall x, In x l -> f x = None.
Proof.
  induction l as [|a l IH]; simpl; [tauto|].
  destruct (f a) as [b|] eqn:E.
  - split; [discriminate|]. intros H. rewrite <- E. apply H. now left.
  - rewrite IH. split.
    + intros H x [<-|Hx]; auto.
    + intros H x Hx. apply H. now right.
Qed.

Lemma truthy_Some o s : truthy o = Some s -> o = Some s.
Proof. destruct o as [[|c t]|]; simpl; congruence. Qed.

Lemma isFile_existsSync h p : isFile h p = true -> existsSync h p = true.
Proof. unfold isFile, existsSync. destruct (fs_stat h p) as [[|]|]; congruence. Qed.

(** X12.  [resolveRelativeImport] answers only with a path that exists: either the
    base path with one of the listed extensions, and then a regular file, or
    an [index] path inside it.  It answers nothing exactly when no
    extension-appended candidate is a regular file and no index candidate
    exists. *)
Theorem resolveRelativeImport_sound_complete (h : Host) (src dir : string) :
  let base := path_resolve h dir src in
  (forall p, resolveRelativeImport h src dir = Some p ->
     existsSync h p = true
     /\ ((exists ext, In ext fileExtensions /\ p = (base ++ ext)%string
                      /\ isFile h p = true)
         \/ (exists ext, In ext indexExtensions
                         /\ p = path_join h base ("index" ++ ext)%string
                         /\ forall e, In e fileExtensions ->
                                      isFile h (base ++ e) = false)))
  /\ (resolveRelativeImport h src dir = None <->
      (forall ext, In ext fileExtensions -> isFile h (base ++ ext) = false)
      /\ (forall ext, In ext indexExtensions ->
            existsSync h (path_join h base ("index" ++ ext)) = false)).
Proof.
  intros base. unfold resolveRelativeImport. fold base.
  set (tier1 := fun ext : string =>
                  if existsSync h (base ++ ext) && isFile h (base ++ ext)
                  then Some (base ++ ext)%string else None).
  set (tier2 := fun ext : string =>
                  if existsSync h (path_join h base ("index" ++ ext))
                  then Some (path_join h base ("index" ++ ext)%string) else None).
  assert (H1 : forall ext, tier1 ext = None <-> isFile h (base ++ ext) = false).
  { intros ext. unfold tier1.
    destruct (isFile h (base ++ ext)) eqn:E.
    - rewrite (isFile_existsSync _ _ E). simpl. split; discriminate.
    - rewrite andb_false_r. tauto. }
  assert (H2 : forall ext, tier2 ext = None
                           <-> existsSync h (path_join h base ("index" ++ ext)) = false).
  { intros ext. unfold tier2.
    destruct (existsSync h (path_join h base ("index" ++ ext))); split; congruence. }
  split.
  - intros p. destruct (firstSome tier1 fileExtensions) as [q|] eqn:E.
    + intros [= <-]. apply firstSome_Some in E. destruct E as (ext & Hext & Ht).
      unfold tier1 in Ht.
      destruct (existsSync h (base ++ ext) && isFile h (base ++ ext)) eqn:Eb;
        [|discriminate].
      injection Ht as <-. apply andb_true_iff in Eb. destruct Eb as [Hex Hf].
      split; [assumption|]. left. exists ext. auto.
    + intros H. apply firstSome_Some in H. destruct H as (ext & Hext & Ht).
      unfold tier2 in Ht.
      destruct (existsSync h (path_join h base ("index" ++ ext))) eqn:Eb; [|discriminate].
      injection Ht as <-. split; [assumption|]. right. exists ext.
      split; [assumption|]. split; [reflexivity|].
      intros e He. apply H1. revert e He. now apply firstSome_None.
  - destruct (firstSome tier1 fileExtensions) as [q|] eqn:E.
    + split; [discriminate|]. intros [Hn _]. exfalso.
      apply firstSome_Some in E. destruct E as (ext & Hext & Ht).
      specialize (Hn ext Hext). apply H1 in Hn. congruence.
    + rewrite firstSome_None in E. rewrite firstSome_None. split.
      * intros H. split; intros ext Hext; [now apply H1, E|now apply H2, H].
      * intros [_ H] ext Hext. now apply H2, H.
Qed.

Lemma resolveRelativeImport_exists h src dir p :
  resolveRelativeImport h src dir = Some p -> existsSync h p = true.
Proof.
  unfold resolveRelativeImport.
  destruct (firstSome _ fileExtensions) as [q|] eqn:E.
  - intros [= <-]. apply firstSome_Some in E. destruct E as (ext & _ & Ht).
    destruct (existsSync h (path_resolve h dir src ++ ext)
              && isFile h (path_resolve h dir src ++ ext)) eqn:Eb; [|discriminate].
    injection Ht as <-. now apply andb_true_iff in Eb.
  - intros H. apply firstSome_Some in H. destruct H as (ext & _ & Ht).
    destruct (existsSync h (path_join h (path_resolve h dir src) ("index" ++ ext)))
      eqn:Eb; [|discriminate].
    now injection Ht as <-.
Qed.

Lemma firstResolved_Some {A} (f : A -> Completion (option string)) l y :
  firstResolved f l = Returns (Some y) -> exists x, In x l /\ f x = Returns (Some y).
Proof.
  induction l as [|a l IH]; simpl; [discriminate|].
  destruct (f a) as [[r|]|] eqn:E.
  - intros [= <-]. exists a. split; [now left|assumption].
  - intros H. destruct (IH H) as (x & Hx & Hfx). exists x. split; [now right|assumption].
  - discriminate.
Qed.

Lemma resolvePathAlias_exists h opts src p :
  resolvePathAlias h opts src = Returns (Some p) -> existsSync h p = true.
Proof.
  unfold resolvePathAlias.
  destruct (paths opts) as [entries|]; [|discriminate].
  destruct (truthy (baseUrl opts)) as [base|]; [|discriminate].
  intros H. apply firstResolved_Some in H. destruct H as ([pattern mappings] & _ & H).
  destruct (regexp_match h _ src) as [| |group]; try discriminate.
  injection H as H.
  apply firstSome_Some in H. destruct H as (mapping & _ & H).
  match type of H with
  | match truthy ?r with _ => _ end = _ => destruct (truthy r) as [res|] eqn:E
  end.
  - injection H as <-. apply truthy_Some in E.
    now apply resolveRelativeImport_exists in E.
  - apply truthy_Some in H. now apply resolveRelativeImport_exists in H.
Qed.

Lemma resolveImportPath_existsSync h opts src importer p :
  resolveImportPath h opts src importer = Returns (Some p) -> existsSync h p = true.
Proof.
  unfold resolveImportPath.
  destruct (startsWith src ".").
  { intros [= H]. now apply resolveRelativeImport_exists in H. }
  match goal with
  | |- match ?v with _ => _ end = _ -> _ => destruct v as [r|] eqn:E
  end; [|discriminate].
  destruct (truthy r) as [resolved|] eqn:Er.
  - intros [= <-]. apply truthy_Some in Er. subst r.
    destruct (paths opts); [|discriminate].
    destruct (truthy (baseUrl opts)); [|discriminate].
    now apply resolvePathAlias_exists in E.
  - destruct (truthy (baseUrl opts)) as [base|]; [|discriminate].
    intros [= H]. apply truthy_Some in H. now apply resolveRelativeImport_exists in H.
Qed.

(** X13.  Whatever the route (relative, path alias, base URL), [resolveImportPath]
    never answers with a path that does not exist, and [resolvePathAlias]
    neither. *)
Theorem resolveImportPath_exists
  (h : Host) (opts : CompilerOptions) (src importer p : string) :
  resolveImportPath h opts src importer = Returns (Some p)
  \/ resolvePathAlias h opts src = Returns (Some p) ->
  existsSync h p = true.
Proof.
  intros [H|H]; [now apply resolveImportPath_existsSync in H
                |now apply resolvePathAlias_exists in H].
Qed.

Lemma resolveImportPath_exists_witness :
  resolveImportPath selfImportHost noOptions "./util" "/w/a.ts"
  = Returns (Some "/w/util.js")
  /\ existsSync selfImportHost "/w/util.js" = true.
Proof.
  assert (H : resolveImportPath selfImportHost noOptions "./util" "/w/a.ts"
              = Returns (Some "/w/util.js")) by (vm_compute; reflexivity).
  split; [exact H|].
  exact (resolveImportPath_exists selfImportHost noOptions "./util" "/w/a.ts"
           "/w/util.js" (or_introl H)).
Defined.

Lemma parseImportDeclaration_facts h opts node path imp :
  parseImportDeclaration h opts node path = Returns (Some imp) ->
  moduleSpecifier node = Some (source imp)
  /\ isExternal imp
     = negb (startsWith (source imp) ".") && negb (startsWith (source imp) "/")
  /\ (if isExternal imp then Returns None
      else resolveImportPath h opts (source imp) path)
     = Returns (resolvedPath imp).
Proof.
  unfold parseImportDeclaration.
  destruct (moduleSpecifier node) as [src|]; [|discriminate].
  match goal with
  | |- match ?c with _ => _ end = _ -> _ => destruct c as [resolved|] eqn:E
  end; [|discriminate].
  intros [= <-]. simpl. repeat split. exact E.
Qed.

Lemma visitImportDeclarations_facts h opts path nodes : forall infos,
  visitImportDeclarations h opts path nodes = Returns infos ->
  map source infos
  = flat_map (fun node => match moduleSpecifier node with
                          | Some text => [text]
                          | None => []
                          end) nodes
  /\ forall imp, In imp infos ->
       exists node, In node nodes
                    /\ parseImportDeclaration h opts node path = Returns (Some imp).
Proof.
  induction nodes as [|node nodes IH]; simpl; intros infos.
  - intros [= <-]. split; [reflexivity|]. intros imp [].
  - destruct (parseImportDeclaration h opts node path) as [info|] eqn:E; [|discriminate].
    destruct (visitImportDeclarations h opts path nodes) as [rest|]; [|discriminate].
    intros [= <-]. destruct (IH rest eq_refl) as [Hsrc Hall].
    destruct info as [info|].
    + destruct (parseImportDeclaration_facts _ _ _ _ _ E) as [-> _]. simpl.
      split; [now rewrite Hsrc|].
      intros imp [<-|Himp]; [exists node; split; [now left|assumption]|].
      destruct (Hall imp Himp) as (n' & Hn' & He). exists n'. split; [now right|assumption].
    + assert (Hnone : moduleSpecifier node = None).
      { unfold parseImportDeclaration in E.
        destruct (moduleSpecifier node); [|reflexivity].
        match type of E with
        | match ?c with _ => _ end = _ => destruct c; discriminate
        end. }
      rewrite Hnone. simpl. split; [exact Hsrc|].
      intros imp Himp. destruct (Hall imp Himp) as (n' & Hn' & He).
      exists n'. split; [now right|assumption].
Qed.

(** X14.  The import facts of a parsed file: one per import declaration whose
    specifier is a string literal, in source order, carrying the specifier
    text; a specifier is external exactly when it starts neither with a dot
    nor with a slash; an external import carries no resolved path and a local
    one the answer of [resolveImportPath]; so every path to which
    [processFile] draws an edge comes from a local specifier and exists. *)
Theorem parseFile_import_facts
  (h : Host) (opts : CompilerOptions) (path content : string)
  (sf : SourceFile) (parsed : ParsedFile) :
  fs_readFileSync h path = Some content ->
  ts_createSourceFile h path content = Some sf ->
  parseFile h opts path = Some parsed ->
  parsedFilePath parsed = path
  /\ map source (parsedImports parsed)
     = flat_map (fun node => match moduleSpecifier node with
                             | Some text => [text]
                             | None => []
                             end) (importDeclarations sf)
  /\ (forall imp, In imp (parsedImports parsed) ->
        isExternal imp
        = negb (startsWith (source imp) ".") && negb (startsWith (source imp) "/")
        /\ (if isExternal imp then Returns None
            else resolveImportPath h opts (source imp) path)
           = Returns (resolvedPath imp))
  /\ (forall t, In t (localTargets parsed) ->
        existsSync h t = true
        /\ exists imp, In imp (parsedImports parsed) /\ isExternal imp = false
                       /\ resolveImportPath h opts (source imp) path
                          = Returns (Some t)).
Proof.
  intros Hread Hts. unfold parseFile, parseContent. rewrite Hread, Hts.
  destruct (visitImportDeclarations h opts path (importDeclarations sf))
    as [infos|] eqn:Ev; [|discriminate].
  intros [= <-]. cbn [parsedFilePath parsedImports].
  destruct (visitImportDeclarations_facts _ _ _ _ _ Ev) as [Hsrc Hall].
  assert (Hfacts : forall imp, In imp infos ->
    isExternal imp
    = negb (startsWith (source imp) ".") && negb (startsWith (source imp) "/")
    /\ (if isExternal imp then Returns None
        else resolveImportPath h opts (source imp) path)
       = Returns (resolvedPath imp)).
  { intros imp Himp. destruct (Hall imp Himp) as (node & _ & E).
    apply parseImportDeclaration_facts in E. tauto. }
  split; [reflexivity|]. split; [exact Hsrc|].
  split; [exact Hfacts|].
  intros t Ht. unfold localTargets in Ht. cbn [parsedImports] in Ht.
  apply in_flat_map in Ht. destruct Ht as (imp & Himp & Ht).
  destruct (Hfacts imp Himp) as [_ Hres].
  destruct (isExternal imp) eqn:Eext; simpl in Ht; [destruct Ht|].
  destruct (truthy (resolvedPath imp)) as [r|] eqn:Er; [|destruct Ht].
  destruct Ht as [<-|[]]. apply truthy_Some in Er. rewrite Er in Hres.
  split; [now apply resolveImportPath_existsSync in Hres|].
  exists imp. auto.
Qed.

Lemma parseFile_import_facts_witness :
  exists parsed,
    parseFile selfImportHost noOptions "/w/a.ts" = Some parsed
    /\ map source (parsedImports parsed) = ["./a"; "./util"]
    /\ localTargets parsed = ["/w/a.ts"; "/w/util.js"].
Proof.
  eexists. split; [vm_compute; reflexivity|].
  pose proof (parseFile_import_facts selfImportHost noOptions "/w/a.ts" "/w/a.ts"
                (mkSourceFile [mkImportDeclaration (Some "./a") None;
                               mkImportDeclaration (Some "./util") None] [] false)
                _ eq_refl eq_refl eq_refl) as (_ & Hsrc & _).
  split; [exact Hsrc|]. vm_compute. reflexivity.
Defined.

(* ================================================================= *)
(** ** The watcher and the builder in every reachable state *)

Lemma watcherConsistent_new h root : watcherConsistent h root new_FileWatcher.
Proof.
  unfold watcherConsistent, new_FileWatcher. simpl.
  split; [constructor|]. split; [constructor|]. split.
  - intros p [[]|[]].
  - split; [discriminate|]. intros [H|H]; congruence.
Qed.

Lemma watcherConsistent_handleEvent h root w e :
  watcherConsistent h root w -> watcherConsistent h root (handleEvent h root w e).
Proof.
  intros (Hu & Hd & Hadm & Harm).
  assert (Hadm' : pendingAdmissible h root (handleEvent h root w e))
    by now apply pendingAdmissible_handleEvent.
  revert Hadm'.
  destruct e as [p|p|p]; simpl; unfold handleCreate, handleChange, handleDelete;
    destruct (shouldIgnore h root p) eqn:E; intros Hadm';
    try (split; [assumption|]; split; [assumption|]; split; assumption);
    unfold watcherConsistent, scheduleFlush in *; simpl in *.
  - split; [now apply NoDup_push_unless|]. split; [assumption|].
    split; [assumption|]. split; [|reflexivity]. intros _. left.
    intros Hnil. assert (Hin : In p (JsSet.add p (pendingUpdates w)))
      by (apply In_JsSet_add; now right).
    rewrite Hnil in Hin. destruct Hin.
  - split; [now apply NoDup_push_unless|]. split; [assumption|].
    split; [assumption|]. split; [|reflexivity]. intros _. left.
    intros Hnil. assert (Hin : In p (JsSet.add p (pendingUpdates w)))
      by (apply In_JsSet_add; now right).
    rewrite Hnil in Hin. destruct Hin.
  - split; [now apply NoDup_without|]. split; [now apply NoDup_push_unless|].
    split; [assumption|]. split; [|reflexivity]. intros _. right.
    intros Hnil. assert (Hin : In p (JsSet.add p (pendingDeletes w)))
      by (apply In_JsSet_add; now right).
    rewrite Hnil in Hin. destruct Hin.
Qed.

Lemma graphSound_removeFiles ds : forall g,
  graphSound g -> graphSound (fold_left removeFile ds g).
Proof.
  induction ds as [|d ds IH]; intros g H; simpl; [assumption|].
  now apply IH, graphSound_removeFile.
Qed.

Lemma graphSound_updateFiles h opts us : forall g,
  graphSound g -> graphSound (fold_left (updateFile h opts) us g).
Proof.
  induction us as [|u us IH]; intros g H; simpl; [assumption|].
  now apply IH, graphSound_updateFile.
Qed.

Lemma metricsAllCurrent_removeFiles ds : forall g,
  metricsAllCurrent g -> metricsAllCurrent (fold_left removeFile ds g).
Proof.
  induction ds as [|d ds IH]; intros g H; simpl; [assumption|].
  apply IH. unfold removeFile. apply metricsAllCurrent_calculateMetrics.
Qed.

Lemma metricsAllCurrent_updateFiles h opts us : forall g,
  metricsAllCurrent g -> metricsAllCurrent (fold_left (updateFile h opts) us g).
Proof.
  induction us as [|u us IH]; intros g H; simpl; [assumption|].
  apply IH. unfold updateFile. apply metricsAllCurrent_calculateMetrics.
Qed.

Lemma metricsAllCurrent_new root : metricsAllCurrent (new_ImportGraph root).
Proof. intros n []. Qed.

Lemma providerConsistent_step h opts root s e :
  providerConsistent h root s -> providerConsistent h root (step h opts root s e).
Proof.
  intros (Hw & Hg & Hm & Hc).
  destruct e as [|i|i files|i|i|we|]; simpl.
  - destruct (isAnalyzing s); repeat split; assumption || apply Hw || apply Hg.
  - destruct (nth_error (running s) i) as [[| |]|];
      try (repeat split; assumption || apply Hw || apply Hg).
    split; [exact Hw|]. split; [apply graphSound_new|].
    split; [apply metricsAllCurrent_new|exact Hc].
  - destruct (nth_error (running s) i) as [[| |]|];
      try (repeat split; assumption || apply Hw || apply Hg).
    split; [exact Hw|]. simpl.
    split; [now apply graphSound_calculateMetrics, graphSound_processFiles|].
    split; [apply metricsAllCurrent_calculateMetrics|exact Hc].
  - destruct (nth_error (running s) i) as [[| |]|];
      repeat split; assumption || apply Hw || apply Hg.
  - destruct (nth_error (running s) i);
      repeat split; assumption || apply Hw || apply Hg.
  - split; [now apply watcherConsistent_handleEvent|]. simpl. auto.
  - destruct (timerArmed (fileWatcher s));
      [|repeat split; assumption || apply Hw || apply Hg].
    unfold flushUpdates, providerConsistent. simpl.
    split; [apply watcherConsistent_new|].
    rewrite graph_updateFiles, graph_removeFiles.
    split; [now apply graphSound_updateFiles, graphSound_removeFiles|].
    split; [now apply metricsAllCurrent_updateFiles, metricsAllCurrent_removeFiles|].
    rewrite callLog_updateFiles, callLog_removeFiles.
    destruct Hw as (_ & _ & Hadm & _).
    apply Forall_app. split; [apply Forall_app; split; [exact Hc|]|];
      apply Forall_forall; intros c Hc'; apply in_map_iff in Hc';
      destruct Hc' as (p & <- & Hp); simpl; apply Hadm; tauto.
Qed.

Lemma providerConsistent_runEvents h opts root events : forall s,
  providerConsistent h root s ->
  providerConsistent h root (runEvents h opts root events s).
Proof.
  unfold runEvents. induction events as [|e events IH]; intros s H; simpl; [assumption|].
  now apply IH, providerConsistent_step.
Qed.

Lemma providerConsistent_new h root : providerConsistent h root (new_ViewProvider root).
Proof.
  split; [apply watcherConsistent_new|]. simpl.
  split; [apply graphSound_new|]. split; [apply metricsAllCurrent_new|constructor].
Qed.

(** X15.  Whatever the host events, the graph that the builder holds is
    well-formed, edge-symmetric and free of duplicate edges, and every node
    carries the metrics of the current edge lists: a reader never observes
    stale metrics between two events, not even when a flush runs on a graph
    that a rebuild has just allocated. *)
Theorem provider_graph_always_sound
  (h : Host) (opts : CompilerOptions) (root : string) (events : list HostEvent) :
  let g := graph (graphBuilder (runEvents h opts root events (new_ViewProvider root))) in
  graphWellFormed g = true /\ edgeSymmetric g /\ edgeListsDistinct g
  /\ (forall n, In n (getAllNodes g) -> metricsCurrent g n).
Proof.
  intros g.
  destruct (providerConsistent_runEvents h opts root events _
              (providerConsistent_new h root)) as (_ & (H1 & H2 & H3) & H4 & _).
  auto.
Qed.

(** X16.  The pending sets of the watcher, whatever the host events: no path is
    pending twice in a set, every pending path has passed [shouldIgnore]
    (it is under the workspace root, has extension [.ts] or [.tsx] and does
    not contain [node_modules]), and the debounce timer is armed exactly
    while something is pending. *)
Theorem watcher_pending_sets_consistent
  (h : Host) (opts : CompilerOptions) (root : string) (events : list HostEvent) :
  let w := fileWatcher (runEvents h opts root events (new_ViewProvider root)) in
  NoDup (pendingUpdates w) /\ NoDup (pendingDeletes w)
  /\ (forall p, In p (pendingUpdates w) \/ In p (pendingDeletes w) ->
        str_includes p "node_modules" = false
        /\ startsWith (normalizeSeparators p) (normalizeSeparators root) = true
        /\ In (path_extname h p) [".ts"; ".tsx"])
  /\ (timerArmed w = true <-> pendingUpdates w <> [] \/ pendingDeletes w <> []).
Proof.
  intros w.
  destruct (providerConsistent_runEvents h opts root events _
              (providerConsistent_new h root)) as ((H1 & H2 & H3 & H4) & _).
  split; [exact H1|]. split; [exact H2|]. split; [|exact H4].
  intros p Hp. specialize (H3 p Hp). unfold shouldIgnore in H3.
  destruct (str_includes p "node_modules"); [discriminate|].
  destruct (startsWith (normalizeSeparators p) (normalizeSeparators root));
    [|discriminate].
  cbn [negb] in H3.
  destruct (includes (path_extname h p) [".ts"; ".tsx"]) eqn:E; [|discriminate].
  apply includes_In in E. auto.
Qed.

(** X17.  The incremental calls that the watcher ever makes on the builder are for
    paths that pass [shouldIgnore]: no file under [node_modules] and no file
    with another extension than [.ts] or [.tsx] is ever updated or removed
    through the watcher (so a node created for a [.js] import target is
    refreshed by a full rebuild only). *)
Theorem watcher_calls_admissible_paths_only
  (h : Host) (opts : CompilerOptions) (root : string) (events : list HostEvent)
  (c : BuilderCall) :
  In c (callLog (graphBuilder (runEvents h opts root events (new_ViewProvider root)))) ->
  shouldIgnore h root (callPath c) = false
  /\ str_includes (callPath c) "node_modules" = false
  /\ In (path_extname h (callPath c)) [".ts"; ".tsx"].
Proof.
  intros Hc.
  destruct (providerConsistent_runEvents h opts root events _
              (providerConsistent_new h root)) as (_ & _ & _ & Hall).
  rewrite Forall_forall in Hall. specialize (Hall c Hc).
  split; [exact Hall|]. unfold shouldIgnore in Hall.
  destruct (str_includes (callPath c) "node_modules"); [discriminate|].
  destruct (startsWith (normalizeSeparators (callPath c)) (normalizeSeparators root));
    [|discriminate].
  cbn [negb] in Hall.
  destruct (includes (path_extname h (callPath c)) [".ts"; ".tsx"]) eqn:E;
    [|discriminate].
  apply includes_In in E. auto.
Qed.

Lemma watcher_calls_witness :
  let s := runEvents oneFileHost noOptions "/w"
             [Watcher (FileChanged "/w/node_modules/x.ts");
              Watcher (FileChanged "/w/a.ts"); TimerFires]
             (new_ViewProvider "/w") in
  callLog (graphBuilder s) = [CallUpdateFile "/w/a.ts"]
  /\ shouldIgnore oneFileHost "/w" "/w/a.ts" = false.
Proof.
  intros s. split; [vm_compute; reflexivity|].
  exact (proj1 (watcher_calls_admissible_paths_only oneFileHost noOptions "/w"
                  [Watcher (FileChanged "/w/node_modules/x.ts");
                   Watcher (FileChanged "/w/a.ts"); TimerFires]
                  (CallUpdateFile "/w/a.ts") (or_introl eq_refl))).
Defined.

(** X18.  A flush in a reachable state: it runs only when something is pending,
    calls [removeFile] at most once per path and [updateFile] at most once
    per path (bursts of events for one file are coalesced), reports a change,
    and leaves both sets empty and the timer idle. *)
Theorem flush_coalesces
  (h : Host) (opts : CompilerOptions) (root : string) (events : list HostEvent) :
  let s := runEvents h opts root events (new_ViewProvider root) in
  let s' := step h opts root s TimerFires in
  (timerArmed (fileWatcher s) = false -> s' = s)
  /\ (timerArmed (fileWatcher s) = true ->
      exists calls,
        callLog (graphBuilder s') = callLog (graphBuilder s) ++ calls
        /\ NoDup calls /\ calls <> []
        /\ snd (flushUpdates h opts (fileWatcher s) (graphBuilder s)) = true
        /\ fileWatcher s' = new_FileWatcher).
Proof.
  intros s s'. unfold s'. simpl.
  destruct (providerConsistent_runEvents h opts root events _
              (providerConsistent_new h root)) as ((Hu & Hd & _ & Harm) & _).
  fold s in Hu, Hd, Harm.
  destruct (timerArmed (fileWatcher s)) eqn:E.
  - split; [discriminate|]. intros _.
    exists (map CallRemoveFile (pendingDeletes (fileWatcher s))
            ++ map CallUpdateFile (pendingUpdates (fileWatcher s))).
    unfold flushUpdates. simpl.
    split; [now rewrite callLog_updateFiles, callLog_removeFiles, <- app_assoc|].
    split.
    { apply NoDup_app.
      - apply NoDup_map_injective; [intros a b [=]; assumption|exact Hd].
      - apply NoDup_map_injective; [intros a b [=]; assumption|exact Hu].
      - intros c H1 H2. apply in_map_iff in H1. apply in_map_iff in H2.
        destruct H1 as (p & <- & _). destruct H2 as (q & [=] & _). }
    split.
    { intros Hnil. apply app_eq_nil in Hnil. destruct Hnil as [H1 H2].
      apply map_eq_nil in H1. apply map_eq_nil in H2.
      destruct (proj1 Harm eq_refl); congruence. }
    split; [|reflexivity].
    destruct (proj1 Harm eq_refl) as [H|H].
    + destruct (pendingUpdates (fileWatcher s)); [congruence|reflexivity].
    + destruct (pendingDeletes (fileWatcher s)); [congruence|].
      simpl. now rewrite andb_false_r.
  - split; [reflexivity|discriminate].
Qed.

(* ================================================================= *)
(** ** [FileMetricsCalculator] *)

Lemma fold_left_sum {A} (f : A -> nat) l : forall acc,
  fold_left (fun sum x => sum + f x) l acc = acc + list_sum (map f l).
Proof.
  induction l as [|x l IH]; intros acc; simpl; [lia|]. rewrite IH. lia.
Qed.

Lemma length_pairs_of {V} (f : V -> list string) (m : JsMap.t V) :
  List.length (flat_map (fun kv => map (pair (fst kv)) (f (snd kv))) m)
  = list_sum (map (fun kv => List.length (f (snd kv))) m).
Proof.
  induction m as [|kv m IH]; simpl; [reflexivity|].
  now rewrite length_app, length_map, IH.
Qed.

Lemma In_pairs_of {V} (f : V -> list string) (m : JsMap.t V) a b :
  In (a, b) (flat_map (fun kv => map (pair (fst kv)) (f (snd kv))) m) <->
  exists v, In (a, v) m /\ In b (f v).
Proof.
  rewrite in_flat_map. split.
  - intros ([k v] & Hkv & Hin). simpl in Hin. apply in_map_iff in Hin.
    destruct Hin as (y & [= <- <-] & Hy). eauto.
  - intros (v & Hv & Hb). exists (a, v). split; [assumption|]. simpl.
    apply in_map_iff. eauto.
Qed.

Lemma NoDup_pairs_of {V} (f : V -> list string) (m : JsMap.t V) :
  NoDup (JsMap.keys m) -> (forall k v, In (k, v) m -> NoDup (f v)) ->
  NoDup (flat_map (fun kv => map (pair (fst kv)) (f (snd kv))) m).
Proof.
  induction m as [|[k v] m IH]; simpl; intros Hk Hf; [constructor|].
  inversion Hk as [|? ? Hnot Hk']; subst.
  apply NoDup_app.
  - apply NoDup_map_injective; [intros a b [=]; assumption|].
    apply (Hf k v). now left.
  - apply IH; [assumption|]. intros k0 v0 H0. apply (Hf k0 v0). now right.
  - intros [a b] H1 H2. apply in_map_iff in H1. destruct H1 as (y & [= <- <-] & _).
    apply In_pairs_of in H2. destruct H2 as (v' & Hv' & _).
    apply Hnot. change k with (fst (k, v')). now apply in_map.
Qed.

Lemma In_nodes_getNode g k v :
  graphWellFormed g = true -> (In (k, v) (nodes g) <-> getNode g k = Some v).
Proof.
  intros Hwf. apply graphWellFormed_spec in Hwf. destruct Hwf as [Hk _].
  split; [now apply JsMapFacts.In_get|apply JsMapFacts.get_Some_In].
Qed.

Lemma pairs_permutation g :
  graphSound g ->
  Permutation (outgoingPairs g) (map (fun ab => (snd ab, fst ab)) (incomingPairs g)).
Proof.
  intros (Hwf & Hsym & Hdist).
  pose proof (proj1 (graphWellFormed_spec g) Hwf) as [Hkeys _].
  apply NoDup_Permutation.
  - apply NoDup_pairs_of; [assumption|]. intros k v Hkv.
    apply (In_nodes_getNode g k v Hwf) in Hkv.
    destruct (Hdist k) as [H _]. unfold importsOf in H. now rewrite Hkv in H.
  - apply NoDup_map_injective; [intros [a b] [c d] [=]; congruence|].
    apply NoDup_pairs_of; [assumption|]. intros k v Hkv.
    apply (In_nodes_getNode g k v Hwf) in Hkv.
    destruct (Hdist k) as [_ H]. unfold importedByOf in H. now rewrite Hkv in H.
  - intros [a b]. unfold outgoingPairs, incomingPairs.
    rewrite In_pairs_of, in_map_iff. split.
    + intros (v & Hv & Hb). apply (In_nodes_getNode g a v Hwf) in Hv.
      assert (Hin : In b (importsOf g a)) by (unfold importsOf; now rewrite Hv).
      apply Hsym in Hin. unfold importedByOf in Hin.
      destruct (getNode g b) as [nb|] eqn:Eb; [|destruct Hin].
      exists (b, a). split; [reflexivity|]. apply In_pairs_of.
      exists nb. split; [now apply In_nodes_getNode|assumption].
    + intros ([b' a'] & [= <- <-] & Hin). apply In_pairs_of in Hin.
      destruct Hin as (nb & Hnb & Ha). apply (In_nodes_getNode g b' nb Hwf) in Hnb.
      assert (Hin : In a' (importedByOf g b')) by (unfold importedByOf; now rewrite Hnb).
      apply Hsym in Hin. unfold importsOf in Hin.
      destruct (getNode g a') as [na|] eqn:Ea; [|destruct Hin].
      exists na. split; [now apply In_nodes_getNode|assumption].
Qed.

Lemma degree_lists_agree g :
  graphSound g ->
  list_sum (map (fun n => List.length (imports n)) (getAllNodes g))
  = list_sum (map (fun n => List.length (importedBy n)) (getAllNodes g)).
Proof.
  intros Hs. pose proof (pairs_permutation g Hs) as Hp.
  apply Permutation_length in Hp. rewrite length_map in Hp.
  unfold outgoingPairs, incomingPairs in Hp. rewrite !length_pairs_of in Hp.
  unfold getAllNodes, JsMap.values. rewrite !map_map. exact Hp.
Qed.

(** X19.  Counting edges from either end: in a sound graph with current metrics
    the out-degrees add up to the same number as the in-degrees, so
    [getSummaryStats] reports equal averages of imports and importers; its
    [totalFiles] is [getFileCount]. *)
Theorem summary_degree_sums_agree (g : ImportGraph) :
  graphSound g -> metricsAllCurrent g ->
  totalImportsOf (getAllNodes g) = totalImportedByOf (getAllNodes g)
  /\ averageImports (getSummaryStats g) = averageImportedBy (getSummaryStats g)
  /\ totalFiles (getSummaryStats g) = getFileCount g.
Proof.
  intros Hs Hm.
  assert (Hsum : totalImportsOf (getAllNodes g) = totalImportedByOf (getAllNodes g)).
  { unfold totalImportsOf, totalImportedByOf. rewrite !fold_left_sum. simpl.
    assert (E1 : map (fun n => outDegree (metrics n)) (getAllNodes g)
                 = map (fun n => List.length (imports n)) (getAllNodes g)).
    { apply map_ext_in. intros n Hn.
      now destruct (metricsCurrent_degrees g n (Hm n Hn)) as (_ & -> & _). }
    assert (E2 : map (fun n => inDegree (metrics n)) (getAllNodes g)
                 = map (fun n => List.length (importedBy n)) (getAllNodes g)).
    { apply map_ext_in. intros n Hn.
      now destruct (metricsCurrent_degrees g n (Hm n Hn)) as (-> & _). }
    rewrite E1, E2. now apply degree_lists_agree. }
  split; [exact Hsum|]. unfold getSummaryStats.
  assert (Hcount : List.length (getAllNodes g) = getFileCount g).
  { unfold getAllNodes, JsMap.values, getFileCount, JsMap.size. apply length_map. }
  destruct (Nat.eqb_spec (List.length (getAllNodes g)) 0) as [E|E]; simpl.
  - split; [reflexivity|]. now rewrite <- Hcount.
  - rewrite Hsum. split; [reflexivity|exact Hcount].
Qed.

Lemma summary_degree_sums_witness :
  averageImports (getSummaryStats (buildGraph selfImportHost noOptions "/w" ["/w/a.ts"]))
  = averageImportedBy (getSummaryStats (buildGraph selfImportHost noOptions "/w" ["/w/a.ts"])).
Proof.
  apply summary_degree_sums_agree.
  - apply graphSound_buildGraph.
  - apply metricsAllCurrent_calculateMetrics.
Defined.

(** X20.  The tiers of [getImportanceTier] on the integral scores 0 to 100: 75 and
    above is critical, 50 to 74 high, 25 to 49 medium, below 25 low; a NaN
    score is low. *)
Theorem getImportanceTier_bands (score : nat) :
  score <= 100 ->
  getImportanceTier (nodeWithScore (JsNumber.of_nat score)) = tierOfScore score
  /\ getImportanceTier (nodeWithScore S754_nan) = Low.
Proof.
  intros Hle. split; [|reflexivity].
  assert (H : forallb (fun n => sameTier
                         (getImportanceTier (nodeWithScore (JsNumber.of_nat n)))
                         (tierOfScore n)) (seq 0 101) = true)
    by (vm_compute; reflexivity).
  rewrite forallb_forall in H. specialize (H score).
  assert (Hin : In score (seq 0 101)) by (apply in_seq; lia).
  specialize (H Hin).
  destruct (getImportanceTier (nodeWithScore (JsNumber.of_nat score))),
           (tierOfScore score); simpl in H; congruence.
Qed.

Lemma getImportanceTier_bands_witness :
  getImportanceTier (nodeWithScore (JsNumber.of_nat 74)) = High
  /\ getImportanceTier (nodeWithScore (JsNumber.of_nat 75)) = Critical.
Proof.
  split.
  - exact (proj1 (getImportanceTier_bands 74 ltac:(lia))).
  - exact (proj1 (getImportanceTier_bands 75 ltac:(lia))).
Defined.

Lemma NoDup_keys_set {V} k (v : V) m :
  NoDup (JsMap.keys m) -> NoDup (JsMap.keys (JsMap.set k v m)).
Proof.
  intros H. destruct (JsMap.get k m) as [v0|] eqn:E.
  - now rewrite (keys_set_present k v v0 m E).
  - rewrite JsMapFacts.keys_set_absent by assumption.
    apply NoDup_app; [assumption|repeat constructor; simpl; tauto|].
    intros x Hx [<-|[]]. now apply JsMapFacts.get_None_keys in E.
Qed.

Lemma sum_values_set_succ k (m : JsMap.t nat) :
  list_sum (JsMap.values (JsMap.set k (countOr0 k m + 1) m))
  = list_sum (JsMap.values m) + 1.
Proof.
  unfold countOr0, JsMap.values. induction m as [|[k0 v0] m IH]; simpl; [reflexivity|].
  destruct (String.eqb k0 k); simpl; [lia|]. rewrite IH. lia.
Qed.

Lemma countDirectories_fold h ns : forall m,
  NoDup (JsMap.keys m) -> Forall (fun kv => 1 <= snd kv) m ->
  let m' := fold_left (countDirectory h) ns m in
  NoDup (JsMap.keys m')
  /\ Forall (fun kv => 1 <= snd kv) m'
  /\ (forall d, countOr0 d m'
                = countOr0 d m + List.length (filter (nodeTopDirIs h d) ns))
  /\ list_sum (JsMap.values m')
     = list_sum (JsMap.values m) + List.length (filter (hasTopLevelDir h) ns).
Proof.
  induction ns as [|n ns IH]; intros m Hk Hv; simpl.
  - repeat split; auto; intros; lia.
  - assert (Hstep : NoDup (JsMap.keys (countDirectory h m n))
                    /\ Forall (fun kv => 1 <= snd kv) (countDirectory h m n)
                    /\ (forall d, countOr0 d (countDirectory h m n)
                                  = countOr0 d m + (if nodeTopDirIs h d n then 1 else 0))
                    /\ list_sum (JsMap.values (countDirectory h m n))
                       = list_sum (JsMap.values m)
                         + (if hasTopLevelDir h n then 1 else 0)).
    { unfold countDirectory, nodeTopDirIs, hasTopLevelDir.
      destruct (truthy (getTopLevelDir (path_dirname h (relativePath n)))) as [t|].
      - split; [now apply NoDup_keys_set|].
        split; [apply Forall_set; [assumption|simpl; lia]|].
        split.
        + intros d. unfold countOr0. rewrite JsMapFacts.get_set.
          destruct (String.eqb_spec t d) as [->|]; lia.
        + apply (sum_values_set_succ t m).
      - repeat split; auto; intros; lia. }
    destruct Hstep as (H1 & H2 & H3 & H4).
    destruct (IH (countDirectory h m n) H1 H2) as (I1 & I2 & I3 & I4).
    split; [exact I1|]. split; [exact I2|]. split.
    + intros d. rewrite I3, H3. destruct (nodeTopDirIs h d n); simpl; lia.
    + rewrite I4, H4. destruct (hasTopLevelDir h n); simpl; lia.
Qed.

Lemma countDirectories_unfold h ns :
  countDirectories h ns = fold_left (countDirectory h) ns JsMap.empty.
Proof. reflexivity. Qed.

(** X21.  [getDirectoryStats] lists every top-level directory once, with the exact
    number of nodes filed under it (never zero), the larger counts first;
    the counts add up to the number of nodes that have a top-level directory
    (a node at the workspace root is not counted anywhere). *)
Theorem getDirectoryStats_counts
  (h : Host) (toLowerCase : string -> string) (g : ImportGraph) :
  let stats := getDirectoryStats h toLowerCase g in
  (forall s, In s stats ->
     fileCount s = List.length (filter (nodeTopDirIs h (dirPath s)) (getAllNodes g))
     /\ 1 <= fileCount s)
  /\ (forall n, In n (getAllNodes g) -> hasTopLevelDir h n = true ->
        exists s, In s stats /\ nodeTopDirIs h (dirPath s) n = true)
  /\ NoDup (map dirPath stats)
  /\ StronglySorted (fun a b => fileCount b <= fileCount a) stats
  /\ list_sum (map fileCount stats)
     = List.length (filter (hasTopLevelDir h) (getAllNodes g)).
Proof.
  intros stats. unfold stats, getDirectoryStats.
  set (cmp := fun a b : DirectoryStats =>
                (Z.of_nat (fileCount b) - Z.of_nat (fileCount a))%Z).
  set (mk := fun entry : string * nat =>
               mkDirectoryStats (fst entry)
                 (match truthy (Some (path_basename h (fst entry))) with
                  | Some name => name
                  | None => fst entry
                  end)
                 (snd entry) (categorizeDirectory h toLowerCase (fst entry))).
  set (m := countDirectories h (getAllNodes g)).
  destruct (countDirectories_fold h (getAllNodes g) JsMap.empty
              (NoDup_nil _) (Forall_nil _)) as (Hk & Hv & Hc & Hs).
  rewrite <- countDirectories_unfold in Hk, Hv, Hc, Hs. fold m in Hk, Hv, Hc, Hs.
  assert (Hperm : Permutation (sortArray cmp (map mk m)) (map mk m))
    by apply sortArray_perm.
  assert (Hentry : forall s, In s (sortArray cmp (map mk m)) ->
                             In (dirPath s, fileCount s) m).
  { intros s Hin. apply (Permutation_in _ Hperm) in Hin.
    apply in_map_iff in Hin. destruct Hin as ([d c] & <- & Hdc). exact Hdc. }
  split.
  { intros s Hin. specialize (Hentry s Hin).
    rewrite Forall_forall in Hv. split; [|exact (Hv _ Hentry)].
    apply JsMapFacts.In_get in Hentry; [|assumption].
    specialize (Hc (dirPath s)). unfold countOr0 in Hc. rewrite Hentry in Hc.
    simpl in Hc. exact Hc. }
  split.
  { intros n Hn Htop. unfold hasTopLevelDir in Htop.
    destruct (truthy (getTopLevelDir (path_dirname h (relativePath n)))) as [t|] eqn:Et;
      [|discriminate].
    assert (Hpos : 1 <= countOr0 t m).
    { rewrite Hc. simpl.
      assert (Hin : In n (filter (nodeTopDirIs h t) (getAllNodes g))).
      { apply filter_In. split; [assumption|]. unfold nodeTopDirIs.
        rewrite Et. apply String.eqb_refl. }
      destruct (filter (nodeTopDirIs h t) (getAllNodes g)); [destruct Hin|simpl; lia]. }
    unfold countOr0 in Hpos. destruct (JsMap.get t m) as [c|] eqn:Eg; [|lia].
    exists (mk (t, c)). split.
    - apply (Permutation_in _ (Permutation_sym Hperm)). apply in_map.
      now apply JsMapFacts.get_Some_In.
    - unfold nodeTopDirIs. simpl. rewrite Et. apply String.eqb_refl. }
  split.
  { apply (Permutation_NoDup (l := map dirPath (map mk m))).
    - apply Permutation_map. now symmetry.
    - rewrite map_map. simpl. exact Hk. }
  split.
  { apply StronglySorted_weaken with (R := fun a b => (cmp a b <= 0)%Z).
    - intros a b H. unfold cmp in H. lia.
    - apply (sortArray_sorted cmp).
      + intros a b. unfold cmp. lia.
      + intros a b c. unfold cmp. lia. }
  simpl in Hs. rewrite <- Hs.
  transitivity (list_sum (map fileCount (map mk m))).
  - apply Permutation_map with (f := fileCount) in Hperm.
    clear -Hperm. induction Hperm; simpl; lia.
  - rewrite map_map. reflexivity.
Qed.

(* ================================================================= *)
(** ** Incremental update against full rebuild *)

(** X22.  An incremental update agrees with a full rebuild on the edges.  Let
    a build resume on the sound graph [graph b], and let the workspace change
    afterwards in a way that leaves the resolved imports of every other
    enumerated file as they were.  If the edges that [graph b] holds for the
    changed file are among its new imports, then [updateFile] on the changed
    file yields the outgoing and the incoming lists (as sets) that a rebuild
    resuming on [graph b] yields on the new workspace.  Every node of the
    rebuilt graph is a node of the updated one when the other files parse as
    before; the converse fails, since targets that the file no longer imports
    stay as nodes. *)
Theorem updateFile_matches_rebuild
  (before after : Host) (opts : CompilerOptions) (files : list string)
  (changed : string) (b : Builder) :
  In changed files ->
  (forall f, In f files -> f <> changed ->
             targetsOf after opts f = targetsOf before opts f) ->
  (forall y, In y (importsOf (graph b) changed) ->
             In y (targetsOf after opts changed)) ->
  graphSound (graph b) ->
  let incremental :=
    updateFile after opts (graph (builder_buildGraph_finish before opts b files))
               changed in
  let rebuilt := graph (builder_buildGraph_finish after opts b files) in
  (forall x y, In y (importsOf incremental x) <-> In y (importsOf rebuilt x))
  /\ (forall x y, In x (importedByOf incremental y) <-> In x (importedByOf rebuilt y))
  /\ ((forall f, In f files -> f <> changed ->
                 parses after opts f = parses before opts f) ->
      forall x, isNode rebuilt x = true -> isNode incremental x = true).
Proof.
  intros Hin Hsame Hresume Hsound incremental rebuilt. unfold incremental, rebuilt.
  assert (Hout : forall x y,
    In y (importsOf
            (updateFile after opts
               (graph (builder_buildGraph_finish before opts b files)) changed) x)
    <-> In y (importsOf (graph (builder_buildGraph_finish after opts b files)) x)).
  { intros x y. unfold updateFile. simpl.
    rewrite importsOf_calculateMetrics, importsOf_processFile, importsOf_clearEdgesFor.
    rewrite (importsOf_calculateMetrics (fold_left (processFile after opts) files _)).
    rewrite importsOf_processFiles.
    destruct (String.eqb_spec changed x) as [<-|Hne].
    - simpl. split; [tauto|]. intros [H|[_ H]]; right; auto.
    - rewrite importsOf_calculateMetrics, importsOf_processFiles. split.
      + intros [[H|[Hx Hy]]|[Heq _]]; [now left| |congruence].
        right. split; [assumption|]. rewrite Hsame; auto.
      + intros [H|[Hx Hy]]; [left; now left|]. left. right. split; [assumption|].
        rewrite <- Hsame; auto. }
  split; [exact Hout|]. split.
  - intros x y.
    assert (S1 : edgeSymmetric
                   (updateFile after opts
                      (graph (builder_buildGraph_finish before opts b files)) changed)).
    { now apply graphSound_updateFile, graphSound_buildGraph_finish. }
    assert (S2 : edgeSymmetric (graph (builder_buildGraph_finish after opts b files))).
    { now apply graphSound_buildGraph_finish. }
    rewrite <- (S1 x y), <- (S2 x y). apply Hout.
  - intros Hparse x. simpl.
    rewrite isNode_updateFile, !isNode_calculateMetrics, !isNode_processFiles.
    intros H. apply orb_true_iff in H. destruct H as [H|H].
    { now rewrite H. }
    apply existsb_exists in H. destruct H as (f & Hf & Hor).
    destruct (String.eqb_spec f changed) as [->|Hne].
    + apply orb_true_iff in Hor. destruct Hor as [Hor|Hor]; rewrite Hor;
        now rewrite ?orb_true_r.
    + apply orb_true_iff. left. apply orb_true_iff. left.
      apply orb_true_iff. right.
      apply existsb_exists. exists f. split; [assumption|].
      rewrite <- Hparse, <- Hsame by assumption. exact Hor.
Qed.

Lemma updateFile_matches_rebuild_witness :
  let files := ["/w/a.ts"; "/w/b.ts"; "/w/c.ts"] in
  let b := builder_updateFile cycleHost noOptions
             (builder_buildGraph_begin "/w" (new_Builder "/w")) "/w/c.ts" in
  let incremental :=
    updateFile cycleHostLater noOptions
      (graph (builder_buildGraph_finish cycleHost noOptions b files)) "/w/c.ts" in
  let rebuilt := graph (builder_buildGraph_finish cycleHostLater noOptions b files) in
  targetsOf cycleHostLater noOptions "/w/a.ts" = ["/w/b.ts"]
  /\ targetsOf cycleHostLater noOptions "/w/b.ts" = ["/w/c.ts"]
  /\ importsOf (graph b) "/w/c.ts" = ["/w/a.ts"]
  /\ importsOf (graph (builder_buildGraph_finish cycleHost noOptions b files)) "/w/c.ts"
     = ["/w/a.ts"]
  /\ importsOf incremental "/w/c.ts" = ["/w/a.ts"; "/w/b.ts"]
  /\ importedByOf incremental "/w/b.ts" = ["/w/a.ts"; "/w/c.ts"]
  /\ (forall x y, In y (importsOf incremental x) <-> In y (importsOf rebuilt x))
  /\ (forall x y, In x (importedByOf incremental y) <-> In x (importedByOf rebuilt y)).
Proof.
  intros files b incremental rebuilt.
  assert (Hin : In "/w/c.ts" files) by (right; right; left; reflexivity).
  assert (Hsame : forall f, In f files -> f <> "/w/c.ts" ->
            targetsOf cycleHostLater noOptions f = targetsOf cycleHost noOptions f).
  { intros f [<-|[<-|[<-|[]]]] Hne; [vm_compute; reflexivity ..|congruence]. }
  assert (Hresume : forall y, In y (importsOf (graph b) "/w/c.ts") ->
            In y (targetsOf cycleHostLater noOptions "/w/c.ts")).
  { intros y Hy. vm_compute in Hy. destruct Hy as [<-|[]]. left. reflexivity. }
  assert (Hsound : graphSound (graph b)).
  { apply graphSound_updateFile, graphSound_new. }
  pose proof (updateFile_matches_rebuild cycleHost cycleHostLater noOptions files
                "/w/c.ts" b Hin Hsame Hresume Hsound) as H.
  cbv zeta in H. destruct H as (Hout & Hinc & _).
  split; [vm_compute; reflexivity|]. split; [vm_compute; reflexivity|].
  split; [vm_compute; reflexivity|]. split; [vm_compute; reflexivity|].
  split; [vm_compute; reflexivity|]. split; [vm_compute; reflexivity|].
  split; [exact Hout|exact Hinc].
Defined.

(* ================================================================= *)
(** ** [sendCurrentFileInfo] *)

(** X23.  In a sound graph the dependency info of the current file names nodes
    only: every listed import and importer is a node of the graph, displayed
    with that node's relative path (or with its full path when the relative
    path is empty), and the two lists are as long as the metrics say once
    these are current.  An unknown or unset current file gives no data. *)
Theorem currentFileInfo_names_nodes
  (g : ImportGraph) (path : string) (info : CurrentFileInfo) :
  graphSound g ->
  currentFileInfo g (Some path) = Some info ->
  (forall r, In r (infoImports info) \/ In r (infoImportedBy info) ->
     exists n, getNode g (refFilePath r) = Some n
               /\ refRelativePath r
                  = (if String.eqb (relativePath n) EmptyString
                     then refFilePath r else relativePath n))
  /\ (metricsAllCurrent g ->
      List.length (infoImports info) = outDegree (infoMetrics info)
      /\ List.length (infoImportedBy info) = inDegree (infoMetrics info))
  /\ currentFileInfo g None = None
  /\ (forall q, getNode g q = None -> currentFileInfo g (Some q) = None).
Proof.
  intros (Hwf & Hsym & _) Hinfo. unfold currentFileInfo in Hinfo.
  destruct (truthy (Some path)) as [p|] eqn:Ep; [|discriminate].
  apply truthy_Some in Ep. injection Ep as <-.
  destruct (getNode g path) as [node|] eqn:En; [|discriminate].
  injection Hinfo as <-. cbn [infoImports infoImportedBy infoMetrics].
  assert (Href : forall q, isNode g q = true ->
            exists n, getNode g (refFilePath (fileRefOf g q)) = Some n
                      /\ refRelativePath (fileRefOf g q)
                         = (if String.eqb (relativePath n) EmptyString
                            then refFilePath (fileRefOf g q) else relativePath n)).
  { intros q Hq. apply isNode_true in Hq. destruct Hq as [n Hn].
    exists n. unfold fileRefOf. simpl. rewrite Hn. simpl. split; [reflexivity|].
    destruct (relativePath n); reflexivity. }
  split.
  { intros r [Hr|Hr]; apply in_map_iff in Hr; destruct Hr as (q & <- & Hq);
      apply Href.
    - assert (Hin : In q (importsOf g path)) by (unfold importsOf; now rewrite En).
      apply Hsym in Hin. unfold importedByOf, isNode in *.
      destruct (getNode g q); [reflexivity|destruct Hin].
    - assert (Hin : In q (importedByOf g path))
        by (unfold importedByOf; now rewrite En).
      apply Hsym in Hin. unfold importsOf, isNode in *.
      destruct (getNode g q); [reflexivity|destruct Hin]. }
  split.
  { intros Hm. rewrite !length_map.
    destruct (metricsCurrent_degrees g node
                (Hm node (getNode_In_getAllNodes g path node En))) as (-> & -> & _).
    split; reflexivity. }
  split; [reflexivity|].
  intros q Hq. unfold currentFileInfo.
  destruct (truthy (Some q)) as [q'|] eqn:Eq; [|reflexivity].
  apply truthy_Some in Eq. injection Eq as <-. now rewrite Hq.
Qed.

Lemma currentFileInfo_witness :
  let g := buildGraph selfImportHost noOptions "/w" ["/w/a.ts"] in
  exists info,
    currentFileInfo g (Some "/w/a.ts") = Some info
    /\ map refRelativePath (infoImports info) = ["a.ts"; "util.js"]
    /\ forall r, In r (infoImports info) \/ In r (infoImportedBy info) ->
         exists n, getNode g (refFilePath r) = Some n
                   /\ refRelativePath r
                      = (if String.eqb (relativePath n) EmptyString
                         then refFilePath r else relativePath n).
Proof.
  intros g.
  destruct (currentFileInfo g (Some "/w/a.ts")) as [info|] eqn:E;
    [|vm_compute in E; discriminate].
  exists info. split; [reflexivity|]. split.
  - vm_compute in E. injection E as <-. reflexivity.
  - exact (proj1 (currentFileInfo_names_nodes g "/w/a.ts" info
                    (graphSound_buildGraph selfImportHost noOptions "/w" ["/w/a.ts"])
                    E)).
Defined.

(* ================================================================= *)
(** ** [deduplicateRoutes] *)

Lemma deduplicateFrom_spec routes : forall seen,
  NoDup (map routeKey (deduplicateFrom seen routes))
  /\ (forall r, In r (deduplicateFrom seen routes) ->
                In r routes /\ ~ In (routeKey r) seen)
  /\ (forall key, firstWithKey key (deduplicateFrom seen routes)
                  = if includes key seen then None else firstWithKey key routes).
Proof.
  unfold firstWithKey.
  induction routes as [|r routes IH]; intros seen; simpl.
  - split; [constructor|]. split; [intros r []|].
    intros key. destruct (includes key seen); reflexivity.
  - destruct (includes (routeKey r) seen) eqn:E.
    + destruct (IH seen) as (H1 & H2 & H3).
      split; [exact H1|]. split.
      * intros r' Hr'. destruct (H2 r' Hr'). auto.
      * intros key. rewrite H3. destruct (includes key seen) eqn:Ek; [reflexivity|].
        destruct (String.eqb_spec (routeKey r) key) as [<-|]; [congruence|reflexivity].
    + destruct (IH (JsSet.add (routeKey r) seen)) as (H1 & H2 & H3).
      apply includes_false in E.
      split.
      { simpl. constructor; [|exact H1]. intros Hin. apply in_map_iff in Hin.
        destruct Hin as (r' & Hk & Hr'). destruct (H2 r' Hr') as [_ Hnot].
        apply Hnot. apply In_JsSet_add. right. exact Hk. }
      split.
      { intros r' [<-|Hr']; [split; [now left|exact E]|].
        destruct (H2 r' Hr') as [Hin Hnot]. split; [now right|].
        intros Hs. apply Hnot. apply In_JsSet_add. now left. }
      intros key. simpl. rewrite H3.
      destruct (String.eqb_spec (routeKey r) key) as [<-|Hne].
      * apply includes_false in E. now rewrite E.
      * destruct (includes key seen) eqn:Ek.
        { assert (Hin : includes key (JsSet.add (routeKey r) seen) = true).
          { apply includes_In, In_JsSet_add. left. now apply includes_In. }
          now rewrite Hin. }
        { assert (Hin : includes key (JsSet.add (routeKey r) seen) = false).
          { apply includes_false. rewrite In_JsSet_add. apply includes_false in Ek.
            intros [H|H]; [contradiction|congruence]. }
          now rewrite Hin. }
Qed.

Lemma deduplicateFrom_fixed routes : forall seen,
  NoDup (map routeKey routes) ->
  (forall r, In r routes -> ~ In (routeKey r) seen) ->
  deduplicateFrom seen routes = routes.
Proof.
  induction routes as [|r routes IH]; intros seen Hnd Hseen; simpl; [reflexivity|].
  inversion Hnd as [|? ? Hnot Hnd']; subst.
  assert (E : includes (routeKey r) seen = false)
    by (apply includes_false, Hseen; now left).
  rewrite E. f_equal. apply IH; [assumption|].
  intros r' Hr' Hin. apply In_JsSet_add in Hin. destruct Hin as [Hin|Heq].
  - apply (Hseen r'); [now right|assumption].
  - apply Hnot. rewrite <- Heq. now apply in_map.
Qed.

(** X24.  [deduplicateRoutes] keeps, for every key (the name followed by the file
    path), the first route filed under it and drops the later ones, so the
    result has pairwise distinct keys and only routes of the input; routes
    with distinct keys are all kept, and deduplicating twice changes nothing
    more. *)
Theorem deduplicateRoutes_keeps_first (routes : list NavigationRoute) :
  NoDup (map routeKey (deduplicateRoutes routes))
  /\ (forall r, In r (deduplicateRoutes routes) -> In r routes)
  /\ (forall key, firstWithKey key (deduplicateRoutes routes) = firstWithKey key routes)
  /\ (NoDup (map routeKey routes) -> deduplicateRoutes routes = routes)
  /\ deduplicateRoutes (deduplicateRoutes routes) = deduplicateRoutes routes.
Proof.
  unfold deduplicateRoutes.
  destruct (deduplicateFrom_spec routes []) as (H1 & H2 & H3).
  split; [exact H1|]. split; [intros r Hr; now apply H2|].
  split; [intros key; now rewrite H3|].
  split.
  - intros Hnd. apply deduplicateFrom_fixed; [assumption|]. intros r _ [].
  - apply deduplicateFrom_fixed; [exact H1|]. intros r _ [].
Qed.

(* ================================================================= *)
(** ** Entry file probing *)

(** X25.  [resolveEntryFile] and [findFirstExisting] answer only with a path that
    exists (a directory counts); [resolveEntryFile] answers with the exact
    path whenever it exists, and with nothing exactly when neither the exact
    path nor the path with any of the four extensions exists;
    [findFirstExisting] answers with the first candidate that exists. *)
Theorem entry_probing_sound_complete
  (h : Host) (root entryPath : string) (candidates : list string) :
  let fullPath := path_join h root entryPath in
  (forall p, resolveEntryFile h root entryPath = Some p -> existsSync h p = true)
  /\ (existsSync h fullPath = true -> resolveEntryFile h root entryPath = Some fullPath)
  /\ (resolveEntryFile h root entryPath = None <->
      existsSync h fullPath = false
      /\ forall ext, In ext entryExtensions -> existsSync h (fullPath ++ ext) = false)
  /\ (forall p, findFirstExisting h candidates = Some p ->
        In p candidates /\ existsSync h p = true)
  /\ (findFirstExisting h candidates = None <->
      forall p, In p candidates -> existsSync h p = false)
  /\ findFirstExisting h candidates = find (existsSync h) candidates.
Proof.
  intros fullPath. unfold resolveEntryFile. fold fullPath.
  set (probe := fun ext : string =>
                  if existsSync h (fullPath ++ ext) then Some (fullPath ++ ext)%string
                  else None).
  assert (Hp : forall ext, probe ext = None <-> existsSync h (fullPath ++ ext) = false).
  { intros ext. unfold probe. destruct (existsSync h (fullPath ++ ext)); split; congruence. }
  assert (Hq : forall p, (if existsSync h p then Some p else None) = None
                         <-> existsSync h p = false).
  { intros p. destruct (existsSync h p); split; congruence. }
  split.
  { intros p. destruct (existsSync h fullPath) eqn:E.
    - now intros [= <-].
    - intros H. apply firstSome_Some in H. destruct H as (ext & _ & H).
      unfold probe in H. destruct (existsSync h (fullPath ++ ext)) eqn:Ee; [|discriminate].
      now injection H as <-. }
  split; [now intros ->|].
  split.
  { destruct (existsSync h fullPath) eqn:E.
    - split; [discriminate|]. intros [H _]. discriminate.
    - rewrite firstSome_None. split.
      + intros H. split; [reflexivity|]. intros ext Hext. now apply Hp, H.
      + intros [_ H] ext Hext. now apply Hp, H. }
  unfold findFirstExisting. split.
  { intros p H. apply firstSome_Some in H. destruct H as (q & Hq' & H).
    destruct (existsSync h q) eqn:E; [|discriminate]. injection H as <-. auto. }
  split.
  { rewrite firstSome_None. split; intros H p Hin; now apply Hq, H. }
  induction candidates as [|c cs IH]; simpl; [reflexivity|].
  destruct (existsSync h c); [reflexivity|exact IH].
Qed.
